(** * ninjabot: simulated matching engine and order controller

    A shallow embedding of the paper wallet (package [exchange]), of the
    order controller's profit attribution and trade statistics (package
    [order]), of the strategy controller's bar ingestion (package
    [strategy]) and of the scheduler and the trailing stop (package
    [tools]).

    Numbers.  Go's [float64] is modelled by the exact rationals [Q]: every
    arithmetic operator and comparison of the source is kept, rounding,
    overflow and the non-finite values are not modelled.  Equalities
    between amounts are therefore equalities up to rounding, and a
    quotient is the source's as long as its divisor is not zero: there [Q]
    gives 0 and binary64 an infinity or NaN.  The concrete inputs
    evaluated on this model are small integers, on which binary64
    arithmetic is exact; [Binary64] computes one sequence of statements on
    binary64 numbers to show what rounding does to an inequality at 0.
    [int64] is [Z] with the wrap-around of [counter++] written out.
    [time.Time] is an instant in [Z]; [time.Time{}] is [zeroTime]. *)

From Stdlib Require Import ZArith QArith Qabs Lqa Lia List String PrimFloat.
From stdpp Require Import gmap strings sorting.

Local Open Scope Z_scope.

(** ** Numbers and time *)

Module Num.

Definition float64 := Q.

Definition Time := Z.

(** [time.Time{}]: January 1, year 1, 00:00 UTC, in seconds before the
    Unix epoch. *)
Definition zeroTime : Time := (-62135596800)%Z.

Definition Before (t u : Time) : bool := (t <? u)%Z.
Definition Equal (t u : Time) : bool := (t =? u)%Z.

(** [math.MaxFloat64] = 2^1023 * (2 - 2^-52). *)
Definition MaxFloat64 : Q := inject_Z (2 ^ 1024 - 2 ^ 971).

Definition MaxInt64 : Z := 2 ^ 63 - 1.

(** Two's complement wrap-around of a 64-bit signed integer. *)
Definition wrap64 (z : Z) : Z := (z + 2 ^ 63) mod 2 ^ 64 - 2 ^ 63.

(** Comparisons of the source, as booleans. *)
Definition ltb (x y : Q) : bool := negb (Qle_bool y x).
Definition leb (x y : Q) : bool := Qle_bool x y.
Definition gtb (x y : Q) : bool := ltb y x.
Definition geb (x y : Q) : bool := leb y x.
Definition eqb (x y : Q) : bool := Qeq_bool x y.

(** [math.Min], [math.Max], [math.Abs]. *)
Definition Min (x y : Q) : Q := if leb x y then x else y.
Definition Max (x y : Q) : Q := if leb x y then y else x.
Definition Abs (x : Q) : Q := Qabs x.

End Num.

Import Num.

(** ** Data model (package [model]) *)

Inductive SideType := SideTypeBuy | SideTypeSell.

Inductive OrderType :=
| OrderTypeLimit
| OrderTypeMarket
| OrderTypeLimitMaker
| OrderTypeStopLoss
| OrderTypeStopLossLimit
| OrderTypeTakeProfit
| OrderTypeTakeProfitLimit.

Inductive OrderStatusType :=
| OrderStatusTypeNew
| OrderStatusTypePartiallyFilled
| OrderStatusTypeFilled
| OrderStatusTypeCanceled
| OrderStatusTypePendingCancel
| OrderStatusTypeRejected
| OrderStatusTypeExpired.

#[global] Instance SideType_eq_dec : EqDecision SideType.
Proof. solve_decision. Defined.
#[global] Instance OrderType_eq_dec : EqDecision OrderType.
Proof. solve_decision. Defined.
#[global] Instance OrderStatusType_eq_dec : EqDecision OrderStatusType.
Proof. solve_decision. Defined.

(** [model.Order].  [Stop] and [GroupID] are pointers in the source
    ([*float64], [*int64]); [None] is [nil]. *)
Record Order := mkOrder {
  ID : Z;
  ExchangeID : Z;
  Pair : string;
  Side : SideType;
  Type_ : OrderType;
  Status : OrderStatusType;
  Price : Q;
  Quantity : Q;
  CreatedAt : Time;
  UpdatedAt : Time;
  Stop : option Q;
  GroupID : option Z;
  RefPrice : Q;
  Profit : Q
}.

Definition zeroOrder : Order :=
  mkOrder 0 0 "" SideTypeBuy OrderTypeLimit OrderStatusTypeNew 0 0
          zeroTime zeroTime None None 0 0.

Definition setStatus (s : OrderStatusType) (o : Order) : Order :=
  mkOrder (ID o) (ExchangeID o) (Pair o) (Side o) (Type_ o) s (Price o)
          (Quantity o) (CreatedAt o) (UpdatedAt o) (Stop o) (GroupID o)
          (RefPrice o) (Profit o).

Definition setUpdatedAt (t : Time) (o : Order) : Order :=
  mkOrder (ID o) (ExchangeID o) (Pair o) (Side o) (Type_ o) (Status o)
          (Price o) (Quantity o) (CreatedAt o) t (Stop o) (GroupID o)
          (RefPrice o) (Profit o).

Definition setID (i : Z) (o : Order) : Order :=
  mkOrder i (ExchangeID o) (Pair o) (Side o) (Type_ o) (Status o)
          (Price o) (Quantity o) (CreatedAt o) (UpdatedAt o) (Stop o)
          (GroupID o) (RefPrice o) (Profit o).

(** [model.Candle]. *)
Record Candle := mkCandle {
  cPair : string;
  cTime : Time;
  cOpen : Q;
  cClose : Q;
  cLow : Q;
  cHigh : Q;
  cVolume : Q;
  cComplete : bool;
  cMetadata : gmap string Q
}.

Definition zeroCandle : Candle :=
  mkCandle "" zeroTime 0 0 0 0 0 false ∅.

(** ** Paper wallet (package [exchange]) *)

Record assetInfo := mkAsset { Free : Q; Lock : Q }.

Definition zeroAsset : assetInfo := mkAsset 0 0.

Record AssetValue := mkAV { avTime : Time; avValue : Q }.

Definition zeroAV : AssetValue := mkAV zeroTime 0.

Module Drawdown.

(** Local variables of [MaxDrawdown]'s loop. *)
Record acc := mkAcc {
  localMin : Q;
  localMinBase : Q;
  localMinStart : Time;
  localMinEnd : Time;
  globalMin : Q;
  globalMinBase : Q;
  globalMinStart : Time;
  globalMinEnd : Time
}.

(** One iteration of [for i := 1; i < len(p.equityValues); i++]. *)
Definition body (ev : list AssetValue) (a : acc) (i : nat) : acc :=
  let cur := nth i ev zeroAV in
  let prev := nth (i - 1) ev zeroAV in
  let diff := (avValue cur - avValue prev)%Q in
  let a1 :=
    if gtb (localMin a) 0 then
      mkAcc diff (avValue prev) (avTime prev) (avTime cur)
            (globalMin a) (globalMinBase a) (globalMinStart a) (globalMinEnd a)
    else
      mkAcc (localMin a + diff)%Q (localMinBase a) (localMinStart a) (avTime cur)
            (globalMin a) (globalMinBase a) (globalMinStart a) (globalMinEnd a) in
  if ltb (localMin a1) (globalMin a1) then
    mkAcc (localMin a1) (localMinBase a1) (localMinStart a1) (localMinEnd a1)
          (localMin a1) (localMinBase a1) (localMinStart a1) (localMinEnd a1)
  else a1.

(** [PaperWallet.MaxDrawdown], on the wallet's [equityValues]. *)
Definition MaxDrawdown (ev : list AssetValue) : Q * Time * Time :=
  if (length ev <? 1)%nat then (0%Q, zeroTime, zeroTime)
  else
    let e0 := nth 0 ev zeroAV in
    let init := mkAcc MaxFloat64 (avValue e0) (avTime e0) (avTime e0)
                      MaxFloat64 (avValue e0) (avTime e0) (avTime e0) in
    let a := fold_left (body ev) (seq 1 (length ev - 1)) init in
    ((globalMin a / globalMinBase a)%Q, globalMinStart a, globalMinEnd a).

(** Each sample's value is above the one before it. *)
Fixpoint increasing (ev : list AssetValue) : bool :=
  match ev with
  | a :: (b :: _) as rest => ltb (avValue a) (avValue b) && increasing rest
  | _ => true
  end.

End Drawdown.

(** Errors returned by the order-placement operations:
    [ErrInvalidQuantity] and [&OrderError{Err: ErrInsufficientFunds, Pair,
    Quantity}]. *)
Inductive error :=
| ErrInvalidQuantity
| ErrInsufficientFunds (pair : string) (quantity : Q).

(** The wallet.  [logged] is not a field of the source: it records, oldest
    first, the (profitValue, percentage) pairs that [updateAveragePrice]
    writes with [log.Infof("PROFIT = ...")]. *)
Record PaperWallet := mkWallet {
  baseCoin : string;
  counter : Z;
  takerFee : Q;
  makerFee : Q;
  initialValue : Q;
  orders : list Order;
  assets : gmap string assetInfo;
  avgShortPrice : gmap string Q;
  avgLongPrice : gmap string Q;
  volume : gmap string Q;
  lastCandle : gmap string Candle;
  fistCandle : gmap string Candle;
  assetValues : gmap string (list AssetValue);
  equityValues : list AssetValue;
  logged : list (Q * Q)
}.

Module Wallet.

Definition set_counter (c : Z) (p : PaperWallet) : PaperWallet :=
  mkWallet (baseCoin p) c (takerFee p) (makerFee p) (initialValue p)
    (orders p) (assets p) (avgShortPrice p) (avgLongPrice p) (volume p)
    (lastCandle p) (fistCandle p) (assetValues p) (equityValues p) (logged p).

Definition set_orders (l : list Order) (p : PaperWallet) : PaperWallet :=
  mkWallet (baseCoin p) (counter p) (takerFee p) (makerFee p) (initialValue p)
    l (assets p) (avgShortPrice p) (avgLongPrice p) (volume p)
    (lastCandle p) (fistCandle p) (assetValues p) (equityValues p) (logged p).

Definition set_assets (m : gmap string assetInfo) (p : PaperWallet) : PaperWallet :=
  mkWallet (baseCoin p) (counter p) (takerFee p) (makerFee p) (initialValue p)
    (orders p) m (avgShortPrice p) (avgLongPrice p) (volume p)
    (lastCandle p) (fistCandle p) (assetValues p) (equityValues p) (logged p).

Definition set_avgShortPrice (m : gmap string Q) (p : PaperWallet) : PaperWallet :=
  mkWallet (baseCoin p) (counter p) (takerFee p) (makerFee p) (initialValue p)
    (orders p) (assets p) m (avgLongPrice p) (volume p)
    (lastCandle p) (fistCandle p) (assetValues p) (equityValues p) (logged p).

Definition set_avgLongPrice (m : gmap string Q) (p : PaperWallet) : PaperWallet :=
  mkWallet (baseCoin p) (counter p) (takerFee p) (makerFee p) (initialValue p)
    (orders p) (assets p) (avgShortPrice p) m (volume p)
    (lastCandle p) (fistCandle p) (assetValues p) (equityValues p) (logged p).

Definition set_volume (m : gmap string Q) (p : PaperWallet) : PaperWallet :=
  mkWallet (baseCoin p) (counter p) (takerFee p) (makerFee p) (initialValue p)
    (orders p) (assets p) (avgShortPrice p) (avgLongPrice p) m
    (lastCandle p) (fistCandle p) (assetValues p) (equityValues p) (logged p).

Definition set_lastCandle (m : gmap string Candle) (p : PaperWallet) : PaperWallet :=
  mkWallet (baseCoin p) (counter p) (takerFee p) (makerFee p) (initialValue p)
    (orders p) (assets p) (avgShortPrice p) (avgLongPrice p) (volume p)
    m (fistCandle p) (assetValues p) (equityValues p) (logged p).

Definition set_fistCandle (m : gmap string Candle) (p : PaperWallet) : PaperWallet :=
  mkWallet (baseCoin p) (counter p) (takerFee p) (makerFee p) (initialValue p)
    (orders p) (assets p) (avgShortPrice p) (avgLongPrice p) (volume p)
    (lastCandle p) m (assetValues p) (equityValues p) (logged p).

Definition set_assetValues (m : gmap string (list AssetValue)) (p : PaperWallet)
  : PaperWallet :=
  mkWallet (baseCoin p) (counter p) (takerFee p) (makerFee p) (initialValue p)
    (orders p) (assets p) (avgShortPrice p) (avgLongPrice p) (volume p)
    (lastCandle p) (fistCandle p) m (equityValues p) (logged p).

Definition set_equityValues (l : list AssetValue) (p : PaperWallet) : PaperWallet :=
  mkWallet (baseCoin p) (counter p) (takerFee p) (makerFee p) (initialValue p)
    (orders p) (assets p) (avgShortPrice p) (avgLongPrice p) (volume p)
    (lastCandle p) (fistCandle p) (assetValues p) l (logged p).

Definition set_logged (l : list (Q * Q)) (p : PaperWallet) : PaperWallet :=
  mkWallet (baseCoin p) (counter p) (takerFee p) (makerFee p) (initialValue p)
    (orders p) (assets p) (avgShortPrice p) (avgLongPrice p) (volume p)
    (lastCandle p) (fistCandle p) (assetValues p) (equityValues p) l.

(** Reads of Go maps: a missing key yields the zero value. *)
Definition priceAt (m : gmap string Q) (k : string) : Q := default 0%Q (m !! k).
Definition candleAt (m : gmap string Candle) (k : string) : Candle :=
  default zeroCandle (m !! k).
Definition valuesAt (m : gmap string (list AssetValue)) (k : string)
  : list AssetValue := default [] (m !! k).

(** [p.assets[k]] after the entry has been created: the default is never
    reached where the source has run [p.assets[k] = &assetInfo{}] first. *)
Definition assetAt (p : PaperWallet) (k : string) : assetInfo :=
  default zeroAsset (assets p !! k).

(** [if _, ok := p.assets[k]; !ok { p.assets[k] = &assetInfo{} }] *)
Definition ensureAsset (k : string) (p : PaperWallet) : PaperWallet :=
  match assets p !! k with
  | Some _ => p
  | None => set_assets (<[k := zeroAsset]> (assets p)) p
  end.

(** [if _, ok := p.volume[k]; !ok { p.volume[k] = 0 }] *)
Definition ensureVolume (k : string) (p : PaperWallet) : PaperWallet :=
  match volume p !! k with
  | Some _ => p
  | None => set_volume (<[k := 0%Q]> (volume p)) p
  end.

(** [p.assets[k].Free = v] and [p.assets[k].Lock = v] through the pointer
    stored in the map. *)
Definition setFree (k : string) (v : Q) (p : PaperWallet) : PaperWallet :=
  set_assets (<[k := mkAsset v (Lock (assetAt p k))]> (assets p)) p.
Definition setLock (k : string) (v : Q) (p : PaperWallet) : PaperWallet :=
  set_assets (<[k := mkAsset (Free (assetAt p k)) v]> (assets p)) p.

Definition addVolume (k : string) (v : Q) (p : PaperWallet) : PaperWallet :=
  set_volume (<[k := (priceAt (volume p) k + v)%Q]> (volume p)) p.

End Wallet.

(** ASCII part of [strings.ToUpper]. *)
Definition upperAscii (c : Ascii.ascii) : Ascii.ascii :=
  let n := Ascii.nat_of_ascii c in
  if ((97 <=? n) && (n <=? 122))%nat then Ascii.ascii_of_nat (n - 32) else c.

Fixpoint ToUpper (s : string) : string :=
  match s with
  | EmptyString => EmptyString
  | String c r => String (upperAscii c) (ToUpper r)
  end.

Module Engine.
Import Wallet.

(** [PaperWallet.ID] *)
Definition ID (p : PaperWallet) : PaperWallet * Z :=
  let p' := set_counter (wrap64 (counter p + 1)) p in
  (p', counter p').

Section WithPairs.

(** [SplitAssetQuote] is a lookup in the table of exchange pairs, which is
    not part of the sources at hand; it is taken as a parameter. *)
Variable SplitAssetQuote : string -> string * string.

(** [common.AmountToLotSize] of the go-binance library, a parameter. *)
Variable AmountToLotSize : Q -> Z -> Q -> Q.

Local Open Scope Q_scope.

(** [PaperWallet.updateAveragePrice] *)
Definition updateAveragePrice (side : SideType) (pair : string)
    (amount value : Q) (p : PaperWallet) : PaperWallet :=
  let '(asset, quote) := SplitAssetQuote pair in
  let actualQty :=
    match assets p !! asset with
    | Some info => Free info
    | None => 0
    end in
  (* without previous position *)
  if eqb actualQty 0 then
    match side with
    | SideTypeBuy => set_avgLongPrice (<[pair := value]> (avgLongPrice p)) p
    | SideTypeSell => set_avgShortPrice (<[pair := value]> (avgShortPrice p)) p
    end
  else if gtb actualQty 0 && bool_decide (side = SideTypeBuy) then
    (* actual long + order buy *)
    let positionValue := priceAt (avgLongPrice p) pair * actualQty in
    set_avgLongPrice
      (<[pair := (positionValue + amount * value) / (actualQty + amount)]>
         (avgLongPrice p)) p
  else if gtb actualQty 0 && bool_decide (side = SideTypeSell) then
    (* actual long + order sell *)
    let profitValue :=
      amount * value - Min amount actualQty * priceAt (avgLongPrice p) pair in
    let percentage := profitValue / (amount * priceAt (avgLongPrice p) pair) in
    let p := set_logged (logged p ++ [(profitValue, percentage)]) p in
    if leb amount actualQty then p
    else set_avgShortPrice (<[pair := value]> (avgShortPrice p)) p
  else if ltb actualQty 0 && bool_decide (side = SideTypeSell) then
    (* actual short + order sell *)
    let positionValue := priceAt (avgShortPrice p) pair * - actualQty in
    set_avgShortPrice
      (<[pair := (positionValue + amount * value) / (- actualQty + amount)]>
         (avgShortPrice p)) p
  else if ltb actualQty 0 && bool_decide (side = SideTypeBuy) then
    (* actual short + order buy *)
    let profitValue :=
      Min amount (- actualQty) * priceAt (avgShortPrice p) pair - amount * value in
    let percentage := profitValue / (amount * priceAt (avgShortPrice p) pair) in
    let p := set_logged (logged p ++ [(profitValue, percentage)]) p in
    if leb amount (- actualQty) then p
    else set_avgLongPrice (<[pair := value]> (avgLongPrice p)) p
  else p.

(** [PaperWallet.validateFunds].  The result is the wallet after the call
    and the returned error, [None] for [nil]. *)
Definition validateFunds (side : SideType) (pair : string) (amount value : Q)
    (fill : bool) (p : PaperWallet) : PaperWallet * option error :=
  let '(asset, quote) := SplitAssetQuote pair in
  let p := ensureAsset asset p in
  let p := ensureAsset quote p in
  let funds := Free (assetAt p quote) in
  match side with
  | SideTypeSell =>
    let funds :=
      if gtb (Free (assetAt p asset)) 0
      then funds + Free (assetAt p asset) * value else funds in
    if ltb funds (amount * value) then (p, Some (ErrInsufficientFunds pair amount))
    else
      let lockedAsset := Min (Max (Free (assetAt p asset)) 0) amount in
      let lockedQuote := (amount - lockedAsset) * value in
      let p := setFree asset (Free (assetAt p asset) - lockedAsset) p in
      let p := setFree quote (Free (assetAt p quote) - lockedQuote) p in
      let p :=
        if fill then
          let p := updateAveragePrice side pair amount value p in
          if gtb lockedQuote 0
          then setFree asset (Free (assetAt p asset) - amount) p
          else setFree quote (Free (assetAt p quote) + amount * value) p
        else
          let p := setLock asset (Lock (assetAt p asset) + lockedAsset) p in
          setLock quote (Lock (assetAt p quote) + lockedQuote) p in
      (p, None)
  | SideTypeBuy =>
    let liquidShortValue :=
      if ltb (Free (assetAt p asset)) 0 then
        let v := Abs (Free (assetAt p asset)) in
        2 * v * priceAt (avgShortPrice p) pair - v * value
      else 0 in
    let funds :=
      if ltb (Free (assetAt p asset)) 0 then funds + liquidShortValue else funds in
    let amountToBuy :=
      if ltb (Free (assetAt p asset)) 0
      then amount + Free (assetAt p asset) else amount in
    if ltb funds (amountToBuy * value)
    then (p, Some (ErrInsufficientFunds pair amount))
    else
      let lockedAsset := Min (- Min (Free (assetAt p asset)) 0) amount in
      let lockedQuote := (amount - lockedAsset) * value - liquidShortValue in
      let p := setFree asset (Free (assetAt p asset) + lockedAsset) p in
      let p := setFree quote (Free (assetAt p quote) - lockedQuote) p in
      let p :=
        if fill then
          let p := updateAveragePrice side pair amount value p in
          setFree asset (Free (assetAt p asset) + (amount - lockedAsset)) p
        else
          let p := setLock asset (Lock (assetAt p asset) + lockedAsset) p in
          setLock quote (Lock (assetAt p quote) + lockedQuote) p in
      (p, None)
  end.

(** The order literal shared by the placement operations; [ID], [Profit]
    and the fields a literal leaves out are zero. *)
Definition newOrder (exchangeID : Z) (p : PaperWallet) (pair : string)
    (side : SideType) (type : OrderType) (status : OrderStatusType)
    (price size : Q) (stop : option Q) (group : option Z) (ref : Q) : Order :=
  mkOrder 0 exchangeID pair side type status price size
          (cTime (candleAt (lastCandle p) pair))
          (cTime (candleAt (lastCandle p) pair)) stop group ref 0.

(** [PaperWallet.CreateOrderOCO] *)
Definition CreateOrderOCO (side : SideType) (pair : string)
    (size price stop stopLimit : Q) (p : PaperWallet)
  : PaperWallet * (list Order + error) :=
  if eqb size 0 then (p, inr ErrInvalidQuantity)
  else
    match validateFunds side pair size price false p with
    | (p, Some err) => (p, inr err)
    | (p, None) =>
      let '(p, groupID) := ID p in
      let '(p, id1) := ID p in
      let limitMaker :=
        newOrder id1 p pair side OrderTypeLimitMaker OrderStatusTypeNew
                 price size None (Some groupID)
                 (cClose (candleAt (lastCandle p) pair)) in
      let '(p, id2) := ID p in
      let stopOrder :=
        newOrder id2 p pair side OrderTypeStopLoss OrderStatusTypeNew
                 stopLimit size (Some stop) (Some groupID)
                 (cClose (candleAt (lastCandle p) pair)) in
      (set_orders (orders p ++ [limitMaker; stopOrder]) p,
       inl [limitMaker; stopOrder])
    end.

(** [PaperWallet.CreateOrderLimit] *)
Definition CreateOrderLimit (side : SideType) (pair : string) (size limit : Q)
    (p : PaperWallet) : PaperWallet * (Order + error) :=
  if eqb size 0 then (p, inr ErrInvalidQuantity)
  else
    match validateFunds side pair size limit false p with
    | (p, Some err) => (p, inr err)
    | (p, None) =>
      let '(p, id) := ID p in
      let order :=
        newOrder id p pair side OrderTypeLimit OrderStatusTypeNew
                 limit size None None 0 in
      (set_orders (orders p ++ [order]) p, inl order)
    end.

(** [PaperWallet.CreateOrderStop] *)
Definition CreateOrderStop (pair : string) (size limit : Q) (p : PaperWallet)
  : PaperWallet * (Order + error) :=
  if eqb size 0 then (p, inr ErrInvalidQuantity)
  else
    match validateFunds SideTypeSell pair size limit false p with
    | (p, Some err) => (p, inr err)
    | (p, None) =>
      let '(p, id) := ID p in
      let order :=
        newOrder id p pair SideTypeSell OrderTypeStopLossLimit
                 OrderStatusTypeNew limit size (Some limit) None 0 in
      (set_orders (orders p ++ [order]) p, inl order)
    end.

(** [PaperWallet.createOrderMarket] *)
Definition createOrderMarket (side : SideType) (pair : string) (size : Q)
    (p : PaperWallet) : PaperWallet * (Order + error) :=
  if eqb size 0 then (p, inr ErrInvalidQuantity)
  else
    match validateFunds side pair size
            (cClose (candleAt (lastCandle p) pair)) true p with
    | (p, Some err) => (p, inr err)
    | (p, None) =>
      let p := ensureVolume pair p in
      let p := addVolume pair (cClose (candleAt (lastCandle p) pair) * size) p in
      let '(p, id) := ID p in
      let order :=
        newOrder id p pair side OrderTypeMarket OrderStatusTypeFilled
                 (cClose (candleAt (lastCandle p) pair)) size None None 0 in
      (set_orders (orders p ++ [order]) p, inl order)
    end.

(** [PaperWallet.CreateOrderMarket] *)
Definition CreateOrderMarket := createOrderMarket.

(** [PaperWallet.CreateOrderMarketQuote]; [AssetsInfo] gives
    [StepSize = 0.00000001] and [BaseAssetPrecision = 8]. *)
Definition CreateOrderMarketQuote (side : SideType) (pair : string)
    (quoteQuantity : Q) (p : PaperWallet) : PaperWallet * (Order + error) :=
  let quantity :=
    AmountToLotSize (1 # 100000000) 8%Z
      (quoteQuantity / cClose (candleAt (lastCandle p) pair)) in
  createOrderMarket side pair quantity p.

(** [PaperWallet.Cancel]; the returned error is always [nil]. *)
Definition Cancel (order : Order) (p : PaperWallet) : PaperWallet :=
  set_orders
    (map (fun o => if (ExchangeID o =? ExchangeID order)%Z
                   then setStatus OrderStatusTypeCanceled o else o)
         (orders p)) p.

(** [PaperWallet.Order] *)
Definition Order_ (id : Z) (p : PaperWallet) : option Order :=
  List.find (fun o => (ExchangeID o =? id)%Z) (orders p).

(** The inner loop of [OnCandle]: the first order of the log that carries
    the group id [gid] and another exchange id than [exid] is canceled at
    time [t]; the loop stops there ([break]). *)
Fixpoint cancelGroup (gid exid : Z) (t : Time) (l : list Order) : list Order :=
  match l with
  | [] => []
  | groupOrder :: rest =>
    match GroupID groupOrder with
    | Some g =>
      if ((g =? gid) && negb (ExchangeID groupOrder =? exid))%Z
      then setUpdatedAt t (setStatus OrderStatusTypeCanceled groupOrder) :: rest
      else groupOrder :: cancelGroup gid exid t rest
    | None => groupOrder :: cancelGroup gid exid t rest
    end
  end.

Definition isLimitSell (t : OrderType) : bool :=
  match t with
  | OrderTypeLimit | OrderTypeLimitMaker
  | OrderTypeTakeProfit | OrderTypeTakeProfitLimit => true
  | _ => false
  end.

Definition isStopSell (t : OrderType) : bool :=
  match t with
  | OrderTypeStopLossLimit | OrderTypeStopLoss => true
  | _ => false
  end.

(** The price at which a pending sell fills on [candle].  The outer [None]
    is the nil dereference of [*order.Stop]; [Some None] is [continue]. *)
Definition sellPrice (order : Order) (candle : Candle) : option (option Q) :=
  if isLimitSell (Type_ order) && geb (cHigh candle) (Price order)
  then Some (Some (Price order))
  else if isStopSell (Type_ order) then
    match Stop order with
    | None => None
    | Some stop => if leb (cLow candle) stop then Some (Some stop) else Some None
    end
  else Some None.

Definition markFilled (t : Time) (i : nat) (p : PaperWallet) : PaperWallet :=
  set_orders
    (alter (fun o => setStatus OrderStatusTypeFilled (setUpdatedAt t o)) i
           (orders p)) p.

(** One iteration of [for i, order := range p.orders] in [OnCandle].
    [None] is a run-time panic (nil pointer dereference). *)
Definition onCandleOrder (candle : Candle) (i : nat) (p : PaperWallet)
  : option PaperWallet :=
  match orders p !! i with
  | None => Some p
  | Some order =>
    if negb (bool_decide (Pair order = cPair candle))
       || negb (bool_decide (Status order = OrderStatusTypeNew))
    then Some p
    else
      let p := ensureVolume (cPair candle) p in
      let '(asset, quote) := SplitAssetQuote (Pair order) in
      p ← (if bool_decide (Side order = SideTypeBuy)
               && geb (Price order) (cClose candle)
           then
             let p := ensureAsset asset p in
             let p := addVolume (cPair candle) (Price order * Quantity order) p in
             let p := markFilled (cTime candle) i p in
             (* update assets size *)
             let p := updateAveragePrice (Side order) (Pair order)
                        (Quantity order) (Price order) p in
             let p := setFree asset (Free (assetAt p asset) + Quantity order) p in
             match assets p !! quote with
             | None => None
             | Some q =>
               Some (setLock quote (Lock q - Price order * Quantity order) p)
             end
           else Some p);
      if bool_decide (Side order = SideTypeSell) then
        orderPrice ← sellPrice order candle;
        match orderPrice with
        | None => Some p
        | Some orderPrice =>
          (* Cancel other orders from same group *)
          let p :=
            match GroupID order with
            | Some gid =>
              set_orders
                (cancelGroup gid (ExchangeID order) (cTime candle) (orders p)) p
            | None => p
            end in
          let p := ensureAsset quote p in
          let orderVolume := Quantity order * orderPrice in
          let p := addVolume (cPair candle) orderVolume p in
          let p := markFilled (cTime candle) i p in
          (* update assets size *)
          let p := updateAveragePrice (Side order) (Pair order)
                     (Quantity order) orderPrice p in
          match assets p !! asset with
          | None => None
          | Some a =>
            let p := setLock asset (Lock a - Quantity order) p in
            Some (setFree quote
                    (Free (assetAt p quote) + Quantity order * orderPrice) p)
          end
        end
      else Some p
  end.

Fixpoint forEach (f : nat -> PaperWallet -> option PaperWallet)
    (l : list nat) (p : PaperWallet) : option PaperWallet :=
  match l with
  | [] => Some p
  | i :: r => p' ← f i p; forEach f r p'
  end.

(** The valuation of one asset in [if candle.Complete { for asset, info :=
    range p.assets ... }]; the accumulator is [total] and [p.assetValues]. *)
Definition valueAsset (p : PaperWallet) (candle : Candle) (asset : string)
    (info : assetInfo) (acc : Q * gmap string (list AssetValue))
  : Q * gmap string (list AssetValue) :=
  let '(total, values) := acc in
  let amount := Free info + Lock info in
  let pair := ToUpper (asset +:+ baseCoin p) in
  let close := cClose (candleAt (lastCandle p) pair) in
  let total :=
    if ltb amount 0 then
      let v := Abs amount in
      let liquid := 2 * v * priceAt (avgShortPrice p) pair - v * close in
      total + liquid
    else total + amount * close in
  (total,
   <[asset := valuesAt values asset ++ [mkAV (cTime candle) (amount * close)]]>
     values).

(** [PaperWallet.OnCandle].  [None] is a run-time panic. *)
Definition OnCandle (candle : Candle) (p : PaperWallet) : option PaperWallet :=
  let p := set_lastCandle (<[cPair candle := candle]> (lastCandle p)) p in
  let p :=
    match fistCandle p !! cPair candle with
    | Some _ => p
    | None => set_fistCandle (<[cPair candle := candle]> (fistCandle p)) p
    end in
  p ← forEach (onCandleOrder candle) (seq 0 (length (orders p))) p;
  if cComplete candle then
    let '(total, values) :=
      map_fold (valueAsset p candle) (0, assetValues p) (assets p) in
    let p := set_assetValues values p in
    baseCoinInfo ← assets p !! baseCoin p;
    Some (set_equityValues
            (equityValues p
               ++ [mkAV (cTime candle)
                        (total + Lock baseCoinInfo + Free baseCoinInfo)]) p)
  else Some p.

(** [PaperWallet.MaxDrawdown] *)
Definition MaxDrawdown (p : PaperWallet) : Q * Time * Time :=
  Drawdown.MaxDrawdown (equityValues p).

(** [WithPaperAsset] and [NewPaperWallet]; [None] is the nil dereference of
    [wallet.assets[wallet.baseCoin].Free] when the base coin got no amount. *)
Definition emptyWallet (baseCoin : string) : PaperWallet :=
  mkWallet baseCoin 0 0 0 0 [] ∅ ∅ ∅ ∅ ∅ ∅ ∅ [] [].

Definition WithPaperAsset (pair : string) (amount : Q) (p : PaperWallet)
  : PaperWallet :=
  set_assets (<[pair := mkAsset amount 0]> (assets p)) p.

Definition NewPaperWallet (baseCoin : string)
    (options : list (PaperWallet -> PaperWallet)) : option PaperWallet :=
  let wallet := fold_left (fun w option => option w) options
                          (emptyWallet baseCoin) in
  info ← assets wallet !! baseCoin;
  Some (mkWallet baseCoin (counter wallet) (takerFee wallet) (makerFee wallet)
          (Free info) (orders wallet) (assets wallet) (avgShortPrice wallet)
          (avgLongPrice wallet) (volume wallet) (lastCandle wallet)
          (fistCandle wallet) (assetValues wallet) (equityValues wallet)
          (logged wallet)).

End WithPairs.
End Engine.

(** ** Order controller (package [order]) *)

Module Storage.

(** Modelled from the spec: the storage capability
    ([CreateOrder], [Orders(filters...)] with the filters by status, by pair
    and by update-time upper bound) is implemented outside the sources at
    hand.  The log is kept in insertion order, [Orders] returns the orders
    that pass every filter in that order, and [CreateOrder] gives the order
    the next unused [ID]. *)
Definition Orders (filters : list (Order -> bool)) (log : list Order)
  : list Order :=
  filter (fun o => forallb (fun f => f o) filters) log.

Definition WithUpdateAtBeforeOrEqual (t : Time) (o : Order) : bool :=
  (UpdatedAt o <=? t)%Z.
Definition WithStatus (s : OrderStatusType) (o : Order) : bool :=
  bool_decide (Status o = s).
Definition WithPair (pair : string) (o : Order) : bool :=
  bool_decide (Pair o = pair).

Definition CreateOrder (o : Order) (log : list Order) : list Order * Order :=
  let o' := setID (Z.of_nat (length log) + 1) o in
  (log ++ [o'], o').

End Storage.

Module OrderCtl.

Local Open Scope Q_scope.

Record summary := mkSummary {
  sPair : string;
  WinLong : list Q;
  WinShort : list Q;
  LoseLong : list Q;
  LoseShort : list Q;
  Volume : Q
}.

(** The execution price both loops of [calculateProfit] use: [*order.Stop]
    for the stop-loss types, [order.Price] otherwise.  [None] is the nil
    dereference. *)
Definition execPrice (order : Order) : option Q :=
  match Type_ order with
  | OrderTypeStopLoss | OrderTypeStopLossLimit => Stop order
  | _ => Some (Price order)
  end.

(** Loop variables of [calculateProfit]. *)
Record replayState := mkReplay {
  quantity : Q;
  avgPriceLong : Q;
  avgPriceShort : Q
}.

(** One iteration of [for _, order := range orders]. *)
Definition replayOrder (o : Order) (st : replayState) (order : Order)
  : option replayState :=
  (* skip current order *)
  if (ID o =? ID order)%Z then Some st
  else
    (* calculate avg price *)
    price ← execPrice order;
    let diff :=
      match Side order with
      | SideTypeSell => - Quantity order
      | SideTypeBuy => Quantity order
      end in
    let st :=
      if bool_decide (Side order = SideTypeBuy) && geb (quantity st + diff) 0
      then
        mkReplay (quantity st)
          ((Quantity order * price + avgPriceLong st * Abs (quantity st))
             / (Quantity order + Abs (quantity st)))
          (avgPriceShort st)
      else if bool_decide (Side order = SideTypeSell)
                && leb (quantity st + diff) 0
      then
        mkReplay (quantity st) (avgPriceLong st)
          ((Quantity order * price + avgPriceShort st * Abs (quantity st))
             / (Quantity order + Abs (quantity st)))
      else st in
    Some
      match Side order with
      | SideTypeBuy =>
        mkReplay (quantity st + Quantity order) (avgPriceLong st)
                 (avgPriceShort st)
      | SideTypeSell =>
        mkReplay (quantity st - Quantity order) (avgPriceLong st)
                 (avgPriceShort st)
      end.

Fixpoint replay (o : Order) (orders : list Order) (st : replayState)
  : option replayState :=
  match orders with
  | [] => Some st
  | order :: rest => st' ← replayOrder o st order; replay o rest st'
  end.

(** [Controller.calculateProfit], on the orders that the storage query
    returned; the result is [(value, percent)], [None] a panic. *)
Definition calculateProfitOn (orders : list Order) (o : Order)
  : option (Q * Q) :=
  st ← replay o orders (mkReplay 0 0 0);
  if eqb (quantity st) 0 then Some (0, 0)
  else if bool_decide (Side o = SideTypeBuy) && ltb (quantity st) 0 then
    (* profit short *)
    price ← execPrice o;
    let profitValue := (avgPriceShort st - price) * Quantity o in
    Some (profitValue, profitValue / Quantity o / avgPriceShort st)
  else if bool_decide (Side o = SideTypeSell) && gtb (quantity st) 0 then
    (* profit long *)
    price ← execPrice o;
    let profitValue := (price - avgPriceLong st) * Quantity o in
    Some (profitValue, profitValue / Quantity o / avgPriceLong st)
  else Some (0, 0).

(** [Controller.calculateProfit] with its storage query. *)
Definition calculateProfit (log : list Order) (o : Order) : option (Q * Q) :=
  calculateProfitOn
    (Storage.Orders
       [Storage.WithUpdateAtBeforeOrEqual (UpdatedAt o);
        Storage.WithStatus OrderStatusTypeFilled;
        Storage.WithPair (Pair o)] log) o.

(** The part of the controller's state that the trading operations touch. *)
Record Controller := mkController {
  exchange : PaperWallet;
  storage : list Order;
  Results : gmap string summary
}.

Definition resultAt (m : gmap string summary) (pair : string) : summary :=
  default (mkSummary pair [] [] [] [] 0) (m !! pair).

Definition setProfit (v : Q) (o : Order) : Order :=
  mkOrder (ID o) (ExchangeID o) (Pair o) (Side o) (Type_ o) (Status o)
          (Price o) (Quantity o) (CreatedAt o) (UpdatedAt o) (Stop o)
          (GroupID o) (RefPrice o) v.

(** [Controller.processTrade]: the results map after the call and the order
    behind the pointer. *)
Definition processTrade (log : list Order) (order : Order)
    (results : gmap string summary) : option (gmap string summary * Order) :=
  if negb (bool_decide (Status order = OrderStatusTypeFilled))
  then Some (results, order)
  else
    let s := resultAt results (Pair order) in
    (* register order volume *)
    let s := mkSummary (sPair s) (WinLong s) (WinShort s) (LoseLong s)
                       (LoseShort s) (Volume s + Price order * Quantity order) in
    '(profitValue, profit) ← calculateProfit log order;
    let order := setProfit profit order in
    let s :=
      if eqb profitValue 0 then s
      else if gtb profitValue 0 then
        match Side order with
        | SideTypeBuy =>
          mkSummary (sPair s) (WinLong s ++ [profitValue]) (WinShort s)
                    (LoseLong s) (LoseShort s) (Volume s)
        | SideTypeSell =>
          mkSummary (sPair s) (WinLong s) (WinShort s ++ [profitValue])
                    (LoseLong s) (LoseShort s) (Volume s)
        end
      else
        match Side order with
        | SideTypeBuy =>
          mkSummary (sPair s) (WinLong s) (WinShort s)
                    (LoseLong s ++ [profitValue]) (LoseShort s) (Volume s)
        | SideTypeSell =>
          mkSummary (sPair s) (WinLong s) (WinShort s) (LoseLong s)
                    (LoseShort s ++ [profitValue]) (Volume s)
        end in
    Some (<[Pair order := s]> results, order).

Section WithPairs.

Variable SplitAssetQuote : string -> string * string.

(** [Controller.CreateOrderMarket] over the paper wallet. *)
Definition CreateOrderMarket (side : SideType) (pair : string) (size : Q)
    (c : Controller) : option (Controller * (Order + error)) :=
  match Engine.CreateOrderMarket SplitAssetQuote side pair size (exchange c) with
  | (w, inr err) => Some (mkController w (storage c) (Results c), inr err)
  | (w, inl order) =>
    let '(log, order) := Storage.CreateOrder order (storage c) in
    (* calculate profit *)
    '(results, order) ← processTrade log order (Results c);
    Some (mkController w log results, inl order)
  end.

End WithPairs.

End OrderCtl.

(** ** Strategy controller (package [strategy]) *)

Module StrategyCtl.

Record Dataframe := mkDataframe {
  dfPair : string;
  dfClose : list Q;
  dfOpen : list Q;
  dfHigh : list Q;
  dfLow : list Q;
  dfVolume : list Q;
  dfTime : list Time;
  dfLastUpdate : Time;
  dfMetadata : gmap string (list Q)
}.

(** [l[i] = x]; out of range is a run-time panic. *)
Definition store {A} (i : nat) (x : A) (l : list A) : option (list A) :=
  if (i <? length l)%nat then Some (<[i := x]> l) else None.

Section WithStrategy.

(** The [Strategy] interface, over an abstract broker state [B]. *)
Variable B : Type.
Variable WarmupPeriod : nat.
Variable Indicators : Dataframe -> Dataframe.
Variable strategyOnCandle : Dataframe -> B -> Dataframe * B.

(** [errorLog] is not a field of the source: it records the bars that
    [OnCandle] reports with [log.Errorf], in order. *)
Record Controller := mkController {
  dataframe : Dataframe;
  broker : B;
  started : bool;
  errorLog : list Candle
}.

Definition lastTime (df : Dataframe) : option Time :=
  last (dfTime df).

(** [for k, v := range candle.Metadata { s.dataframe.Metadata[k][last] = v }] *)
Definition storeMetadata (i : nat) (k : string) (v : Q)
    (acc : option (gmap string (list Q))) : option (gmap string (list Q)) :=
  m ← acc;
  l ← store i v (default [] (m !! k));
  Some (<[k := l]> m).

(** [Controller.updateDataFrame]; [None] is an index-out-of-range panic. *)
Definition updateDataFrame (candle : Candle) (df : Dataframe)
  : option Dataframe :=
  if match lastTime df with
     | Some t => Equal (cTime candle) t
     | None => false
     end
  then
    let i := (length (dfTime df) - 1)%nat in
    close ← store i (cClose candle) (dfClose df);
    open ← store i (cOpen candle) (dfOpen df);
    high ← store i (cHigh candle) (dfHigh df);
    low ← store i (cLow candle) (dfLow df);
    vol ← store i (cVolume candle) (dfVolume df);
    time ← store i (cTime candle) (dfTime df);
    meta ← map_fold (storeMetadata i) (Some (dfMetadata df)) (cMetadata candle);
    Some (mkDataframe (dfPair df) close open high low vol time
                      (dfLastUpdate df) meta)
  else
    Some (mkDataframe (dfPair df)
            (dfClose df ++ [cClose candle]) (dfOpen df ++ [cOpen candle])
            (dfHigh df ++ [cHigh candle]) (dfLow df ++ [cLow candle])
            (dfVolume df ++ [cVolume candle]) (dfTime df ++ [cTime candle])
            (cTime candle)
            (map_fold (fun k v m => <[k := default [] (m !! k) ++ [v]]> m)
                      (dfMetadata df) (cMetadata candle))).

(** [len(s.dataframe.Time) > 0 &&
     candle.Time.Before(s.dataframe.Time[len(s.dataframe.Time)-1])] *)
Definition late (candle : Candle) (df : Dataframe) : bool :=
  match lastTime df with
  | Some t => Before (cTime candle) t
  | None => false
  end.

(** [Controller.OnCandle].  The late-candle branch writes a log line with
    [log.Errorf("late candle received: %#v", candle)] and returns; the
    method has no result value. *)
Definition OnCandle (candle : Candle) (s : Controller) : option Controller :=
  if late candle (dataframe s)
  then Some (mkController (dataframe s) (broker s) (started s)
                          (errorLog s ++ [candle]))
  else
    df ← updateDataFrame candle (dataframe s);
    if (WarmupPeriod <=? length (dfClose df))%nat then
      let df := Indicators df in
      if started s then
        let '(df, b) := strategyOnCandle df (broker s) in
        Some (mkController df b (started s) (errorLog s))
      else Some (mkController df (broker s) (started s) (errorLog s))
    else Some (mkController df (broker s) (started s) (errorLog s)).

End WithStrategy.
End StrategyCtl.

(** ** Operations as data

    The operations a caller can invoke on the wallet, so that properties of
    "every operation" can be stated once. *)

Module Ops.
Import Wallet.

Inductive request :=
| ReqOCO (side : SideType) (pair : string) (size price stop stopLimit : Q)
| ReqLimit (side : SideType) (pair : string) (size limit : Q)
| ReqMarket (side : SideType) (pair : string) (size : Q)
| ReqMarketQuote (side : SideType) (pair : string) (quoteQuantity : Q)
| ReqStop (pair : string) (size limit : Q).

Inductive op :=
| OpPlace (r : request)
| OpCandle (candle : Candle)
| OpCancel (order : Order).

Section WithPairs.

Variable SplitAssetQuote : string -> string * string.
Variable AmountToLotSize : Q -> Z -> Q -> Q.

Definition single (r : PaperWallet * (Order + error))
  : PaperWallet * (list Order + error) :=
  match r with
  | (p, inl o) => (p, inl [o])
  | (p, inr e) => (p, inr e)
  end.

(** An order-placement call: the wallet after it, and the created orders or
    the error. *)
Definition place (r : request) (p : PaperWallet)
  : PaperWallet * (list Order + error) :=
  match r with
  | ReqOCO side pr size price stop stopLimit =>
    Engine.CreateOrderOCO SplitAssetQuote side pr size price stop stopLimit p
  | ReqLimit side pr size limit =>
    single (Engine.CreateOrderLimit SplitAssetQuote side pr size limit p)
  | ReqMarket side pr size =>
    single (Engine.CreateOrderMarket SplitAssetQuote side pr size p)
  | ReqMarketQuote side pr quoteQuantity =>
    single (Engine.CreateOrderMarketQuote SplitAssetQuote AmountToLotSize
              side pr quoteQuantity p)
  | ReqStop pr size limit =>
    single (Engine.CreateOrderStop SplitAssetQuote pr size limit p)
  end.

(** One call on the wallet; [None] is a panic. *)
Definition exec (o : op) (p : PaperWallet) : option PaperWallet :=
  match o with
  | OpPlace r => Some (fst (place r p))
  | OpCandle candle => Engine.OnCandle SplitAssetQuote candle p
  | OpCancel order => Some (Engine.Cancel order p)
  end.

Fixpoint run (l : list op) (p : PaperWallet) : option PaperWallet :=
  match l with
  | [] => Some p
  | o :: rest => p' ← exec o p; run rest p'
  end.

End WithPairs.

(** A wallet on which no id has been drawn yet, as [NewPaperWallet] builds
    it. *)
Definition fresh (p : PaperWallet) : Prop :=
  counter p = 0%Z /\ orders p = [].

(** The balance of an asset as [Position] reports it: zero for an asset
    without an entry. *)
Definition balance (p : PaperWallet) (a : string) : assetInfo := assetAt p a.


(** Two wallets that differ in the order log at most, and in the balances
    at most. *)
Definition sameButOrders (p p' : PaperWallet) : Prop :=
  baseCoin p' = baseCoin p /\ counter p' = counter p /\
  takerFee p' = takerFee p /\ makerFee p' = makerFee p /\
  initialValue p' = initialValue p /\ assets p' = assets p /\
  avgShortPrice p' = avgShortPrice p /\ avgLongPrice p' = avgLongPrice p /\
  volume p' = volume p /\ lastCandle p' = lastCandle p /\
  fistCandle p' = fistCandle p /\ assetValues p' = assetValues p /\
  equityValues p' = equityValues p /\ logged p' = logged p.

Definition sameButAssets (p p' : PaperWallet) : Prop :=
  baseCoin p' = baseCoin p /\ counter p' = counter p /\
  takerFee p' = takerFee p /\ makerFee p' = makerFee p /\
  initialValue p' = initialValue p /\ orders p' = orders p /\
  avgShortPrice p' = avgShortPrice p /\ avgLongPrice p' = avgLongPrice p /\
  volume p' = volume p /\ lastCandle p' = lastCandle p /\
  fistCandle p' = fistCandle p /\ assetValues p' = assetValues p /\
  equityValues p' = equityValues p /\ logged p' = logged p.

(** The exchange ids of the log, in the order of creation. *)
Definition ids (p : PaperWallet) : list Z := map ExchangeID (orders p).

(** The ids of the log increase strictly and none exceeds the counter. *)
Definition IdsInv (p : PaperWallet) : Prop :=
  (0 <= counter p)%Z /\
  StronglySorted Z.lt (ids p) /\
  Forall (fun i => (i <= counter p)%Z) (ids p).

(** A step that leaves the ids of the log and the counter alone. *)
Definition keeps (f : PaperWallet -> PaperWallet) : Prop :=
  forall p, ids (f p) = ids p /\ counter (f p) = counter p.

End Ops.

(** ** Trading without short positions *)

Module LongOnly.
Import Wallet Ops.
Local Open Scope Q_scope.

Abbreviation freeOf p k := (Free (assetAt p k)).
Abbreviation lockOf p k := (Lock (assetAt p k)).

(** Every balance of the wallet is non-negative. *)
Definition nonneg (p : PaperWallet) : Prop :=
  forall k info, assets p !! k = Some info -> 0 <= Free info /\ 0 <= Lock info.

Definition isNew (o : Order) : bool :=
  bool_decide (Status o = OrderStatusTypeNew).

Definition inGroup (g : Z) (o : Order) : bool :=
  bool_decide (GroupID o = Some g).

(** The orders of the log that carry the group id [g]. *)
Definition legs (g : Z) (l : list Order) : list Order :=
  List.filter (inGroup g) l.

(** Some leg of the group [g] is still pending. *)
Definition live (l : list Order) (g : Z) : bool :=
  existsb (fun o => inGroup g o && isNew o) l.

(** The order stands for a reservation that is still locked: a pending
    order without group, or the limit leg of a group with a pending leg (the
    two legs of an OCO group share one reservation). *)
Definition holds (l : list Order) (o : Order) : bool :=
  match GroupID o with
  | None => isNew o
  | Some g => bool_decide (Type_ o = OrderTypeLimitMaker) && live l g
  end.

Definition sumOn (f : Order -> Q) (l : list Order) : Q :=
  fold_right (fun o acc => f o + acc) 0 l.

(** The status and update time are the only fields in which [o'] differs
    from [o], and [o'] is pending only if [o] is. *)
Definition settles (o o' : Order) : Prop :=
  setUpdatedAt (UpdatedAt o) (setStatus (Status o) o') = o /\
  (isNew o' = true -> isNew o = true).

(** The orders the inner loop of [OnCandle] looks for, and what it does to
    the first of them. *)
Definition sibling (gid exid : Z) (o : Order) : bool :=
  inGroup gid o && negb (ExchangeID o =? exid)%Z.

Definition canceledAt (t : Time) (o : Order) : Order :=
  setUpdatedAt t (setStatus OrderStatusTypeCanceled o).

(** What [OnCandle] does to the log when the order with exchange id [exid],
    of group [group], fills at time [t]: that order is filled and the other
    orders of its group are canceled. *)
Definition settle (t : Time) (exid : Z) (group : option Z) (o : Order) : Order :=
  if (ExchangeID o =? exid)%Z
  then setStatus OrderStatusTypeFilled (setUpdatedAt t o)
  else
    match group, GroupID o with
    | Some g, Some g' => if (g' =? g)%Z then canceledAt t o else o
    | _, _ => o
    end.

(** Orders as the admissible placements build them. *)
Definition wfOrder (o : Order) : Prop :=
  0 <= Quantity o /\ 0 <= Price o /\
  (GroupID o <> None -> Side o = SideTypeSell) /\
  (Engine.isStopSell (Type_ o) = true -> exists s, Stop o = Some s /\ 0 <= s).

(** A group is a limit leg followed by a leg for the same pair and
    quantity. *)
Definition groupOk (l : list Order) (g : Z) : Prop :=
  legs g l = [] \/
  exists lim stp,
    legs g l = [lim; stp] /\ Type_ lim = OrderTypeLimitMaker /\
    Pair lim = Pair stp /\ Quantity lim = Quantity stp.

Section WithPairs.
Variable SplitAssetQuote : string -> string * string.
Variable AmountToLotSize : Q -> Z -> Q -> Q.

(** What an order locks of asset [k] when it is reserved: the quantity of a
    sell in the pair's asset, price times quantity of a buy in the pair's
    quote. *)
Definition amount (k : string) (o : Order) : Q :=
  match Side o with
  | SideTypeSell =>
    if bool_decide ((SplitAssetQuote (Pair o)).1 = k) then Quantity o else 0
  | SideTypeBuy =>
    if bool_decide ((SplitAssetQuote (Pair o)).2 = k)
    then Price o * Quantity o else 0
  end.

Definition reservedIn (l : list Order) (k : string) (o : Order) : Q :=
  if holds l o then amount k o else 0.

(** What the orders of the log keep locked of asset [k]. *)
Definition reservedSum (k : string) (l : list Order) : Q :=
  sumOn (reservedIn l k) l.

(** The size a request by quote quantity asks for. *)
Definition marketQuantity (pr : string) (quoteQuantity : Q) (p : PaperWallet) : Q :=
  AmountToLotSize (1 # 100000000) 8%Z
    (quoteQuantity / cClose (candleAt (lastCandle p) pr)).

(** Requests that open no short position: positive sizes, non-negative
    prices, sells within the free quantity of the asset; OCO groups on the
    sell side only.  A request by quote quantity divides by the close of
    the last bar, which has to be positive. *)
Definition covered (r : request) (p : PaperWallet) : Prop :=
  match r with
  | ReqOCO SideTypeBuy _ _ _ _ _ => False
  | ReqOCO SideTypeSell pr size price stop stopLimit =>
    0 < size /\ 0 <= price /\ 0 <= stop /\ 0 <= stopLimit /\
    size <= freeOf p (SplitAssetQuote pr).1
  | ReqLimit SideTypeBuy pr size limit => 0 < size /\ 0 <= limit
  | ReqLimit SideTypeSell pr size limit =>
    0 < size /\ 0 <= limit /\ size <= freeOf p (SplitAssetQuote pr).1
  | ReqMarket SideTypeBuy pr size => 0 < size
  | ReqMarket SideTypeSell pr size =>
    0 < size /\ size <= freeOf p (SplitAssetQuote pr).1
  | ReqMarketQuote SideTypeBuy pr quoteQuantity =>
    0 < cClose (candleAt (lastCandle p) pr) /\
    0 < marketQuantity pr quoteQuantity p
  | ReqMarketQuote SideTypeSell pr quoteQuantity =>
    0 < cClose (candleAt (lastCandle p) pr) /\
    0 < marketQuantity pr quoteQuantity p /\
    marketQuantity pr quoteQuantity p <= freeOf p (SplitAssetQuote pr).1
  | ReqStop pr size limit =>
    0 < size /\ 0 <= limit /\ size <= freeOf p (SplitAssetQuote pr).1
  end.

(** A placement is admissible while the id counter cannot wrap around. *)
Definition admissible (o : op) (p : PaperWallet) : Prop :=
  match o with
  | OpPlace r => (counter p + 3 <= MaxInt64)%Z /\ covered r p
  | OpCandle candle => 0 <= cClose candle
  | OpCancel _ => True
  end.

(** The wallets reached from [p] by admissible operations. *)
Inductive reaches (p : PaperWallet) : PaperWallet -> Prop :=
| reaches_refl : reaches p p
| reaches_step o p1 p2 :
    reaches p p1 -> admissible o p1 ->
    exec SplitAssetQuote AmountToLotSize o p1 = Some p2 ->
    reaches p p2.

(** Every operation of [l] is admissible in the state it is run in. *)
Fixpoint admissibleRun (l : list op) (p : PaperWallet) : Prop :=
  match l with
  | [] => True
  | o :: rest =>
    admissible o p /\
    match exec SplitAssetQuote AmountToLotSize o p with
    | Some p' => admissibleRun rest p'
    | None => False
    end
  end.

Record Inv (p : PaperWallet) : Prop := mkInv {
  inv_free : forall k, 0 <= freeOf p k;
  inv_lock : forall k, reservedSum k (orders p) <= lockOf p k;
  inv_orders : Forall wfOrder (orders p);
  inv_groups : forall g, groupOk (orders p) g;
  inv_ids : IdsInv p;
  inv_gids :
    Forall (fun o => forall g, GroupID o = Some g -> (g <= counter p)%Z)
           (orders p);
  inv_close : forall pr, 0 <= cClose (candleAt (lastCandle p) pr)
}.

(** The state after a pending buy has filled. *)
Definition buyFilled (candle : Candle) (i : nat) (order : Order)
    (asset quote : string) (p0 : PaperWallet) : PaperWallet :=
  let p := ensureAsset asset p0 in
  let p := addVolume (cPair candle) (Price order * Quantity order) p in
  let p := Engine.markFilled (cTime candle) i p in
  let p := Engine.updateAveragePrice SplitAssetQuote (Side order) (Pair order)
             (Quantity order) (Price order) p in
  let p := setFree asset (freeOf p asset + Quantity order) p in
  setLock quote (lockOf p quote - Price order * Quantity order) p.

(** The state after a pending sell has filled at [orderPrice]. *)
Definition sellFilled (candle : Candle) (i : nat) (order : Order)
    (orderPrice : Q) (asset quote : string) (p0 : PaperWallet) : PaperWallet :=
  let p :=
    match GroupID order with
    | Some gid =>
      set_orders
        (Engine.cancelGroup gid (ExchangeID order) (cTime candle) (orders p0)) p0
    | None => p0
    end in
  let p := ensureAsset quote p in
  let p := addVolume (cPair candle) (Quantity order * orderPrice) p in
  let p := Engine.markFilled (cTime candle) i p in
  let p := Engine.updateAveragePrice SplitAssetQuote (Side order) (Pair order)
             (Quantity order) orderPrice p in
  let p := setLock asset (lockOf p asset - Quantity order) p in
  setFree quote (freeOf p quote + Quantity order * orderPrice) p.

End WithPairs.
End LongOnly.

(** ** The locked amount of a pending buy in binary64

    The statements of [validateFunds] and [OnCandle] that move the locked
    quote amount of a pending buy, on the kernel's binary64 numbers with
    the rounding of the source's [float64]. *)

Module Binary64.
Local Open Scope float_scope.

(** [math.Min], away from NaN. *)
Definition Min (x y : float) : float := if PrimFloat.ltb x y then x else y.

(** [validateFunds] for a buy with [fill = false] while the asset is not
    held short ([liquidShortValue] keeps its zero value): the locked quote
    amount after [p.assets[quote].Lock += lockedQuote]. *)
Definition reserveBuy (assetFree amount value quoteLock : float) : float :=
  let liquidShortValue := 0 in
  let lockedAsset := Min (- Min assetFree 0) amount in
  let lockedQuote := (amount - lockedAsset) * value - liquidShortValue in
  quoteLock + lockedQuote.

(** [OnCandle] for a filled buy:
    [p.assets[quote].Lock -= order.Price * order.Quantity]. *)
Definition fillBuy (price quantity quoteLock : float) : float :=
  quoteLock - price * quantity.

(** Two limit buys of one unit, at 0.2 and at 0.5, placed with nothing
    locked, then filled in the order of the log. *)
Definition lockAfterTwoBuys : float :=
  fillBuy 0x1p-1 1
    (fillBuy 0x1.999999999999ap-3 1
       (reserveBuy 0 1 0x1p-1 (reserveBuy 0 1 0x1.999999999999ap-3 0))).

End Binary64.

(** ** Concrete scenarios *)

Module Scenario.
Import Wallet.
Local Open Scope Q_scope.

(** A pair table with the single pair X/USDT. *)
Definition split (pair : string) : string * string :=
  if String.eqb pair "XUSDT" then ("X", "USDT")%string else (pair, ""%string).

Definition bar (t : Time) (close : Q) : Candle :=
  mkCandle "XUSDT" t close close close close 0 true ∅.
Arguments bar t%_Z close%_Q.

Definition start : option PaperWallet :=
  Engine.NewPaperWallet "USDT" [Engine.WithPaperAsset "USDT" 10000].

(** Closes 10, 12, 8; a market buy of 50 on the first bar and a market sell
    of 50 on the third, placed through the order controller. *)
Definition afterBuy : option (OrderCtl.Controller * (Order + error)) :=
  w ← start;
  w ← Engine.OnCandle split (bar 1 10) w;
  OrderCtl.CreateOrderMarket split SideTypeBuy "XUSDT" 50
    (OrderCtl.mkController w [] ∅).

Definition afterSell : option (OrderCtl.Controller * (Order + error)) :=
  '(c, _) ← afterBuy;
  w ← Engine.OnCandle split (bar 2 12) (OrderCtl.exchange c);
  w ← Engine.OnCandle split (bar 3 8) w;
  OrderCtl.CreateOrderMarket split SideTypeSell "XUSDT" 50
    (OrderCtl.mkController w (OrderCtl.storage c) (OrderCtl.Results c)).

(** The same run on the wallet alone: the state after the buy, the state
    on the third bar before the sell, and the state after the sell. *)
Definition walletBought : option (PaperWallet * (Order + error)) :=
  w ← start;
  w ← Engine.OnCandle split (bar 1 10) w;
  Some (Engine.CreateOrderMarket split SideTypeBuy "XUSDT" 50 w).

Definition walletBeforeSell : option PaperWallet :=
  '(w, _) ← walletBought;
  w ← Engine.OnCandle split (bar 2 12) w;
  Engine.OnCandle split (bar 3 8) w.

Definition walletSold : option (PaperWallet * (Order + error)) :=
  w ← walletBeforeSell;
  Some (Engine.CreateOrderMarket split SideTypeSell "XUSDT" 50 w).

(** A buy-side OCO group: limit leg at 9, stop leg at 11 with limit 12,
    placed on a bar closing at 10 and followed by a bar closing at 9. *)
Definition ocoBuyPlaced : option (PaperWallet * (list Order + error)) :=
  w ← start;
  w ← Engine.OnCandle split (bar 1 10) w;
  Some (Engine.CreateOrderOCO split SideTypeBuy "XUSDT" 10 9 11 12 w).

Definition ocoBuyFilled : option PaperWallet :=
  '(w, _) ← ocoBuyPlaced;
  Engine.OnCandle split (bar 2 9) w.

(** The same group on the sell side: 10 units bought at 10, then a limit leg
    at 12 and a stop leg at 9; the next bar reaches 13. *)
Definition ocoSellPlaced : option (PaperWallet * (list Order + error)) :=
  w ← start;
  w ← Engine.OnCandle split (bar 1 10) w;
  let '(w, _) := Engine.CreateOrderMarket split SideTypeBuy "XUSDT" 10 w in
  Some (Engine.CreateOrderOCO split SideTypeSell "XUSDT" 10 12 9 9 w).

Definition ocoSellFilled : option PaperWallet :=
  '(w, _) ← ocoSellPlaced;
  Engine.OnCandle split
    (mkCandle "XUSDT" 2%Z 10 11 10 13 0 true ∅) w.

(** A bar at time 2 followed by a bar at time 1. *)
Definition afterBar2 : option PaperWallet :=
  w ← start;
  Engine.OnCandle split (bar 2 10) w.

Definition afterStaleBar : option PaperWallet :=
  w ← afterBar2;
  Engine.OnCandle split (bar 1 9) w.

(** A filled market order, then [Cancel] on it. *)
Definition filledThenCanceled : option (Order * PaperWallet) :=
  w ← start;
  w ← Engine.OnCandle split (bar 1 10) w;
  match Engine.CreateOrderMarket split SideTypeBuy "XUSDT" 50 w with
  | (w, inl o) => Some (o, Engine.Cancel o w)
  | (_, inr _) => None
  end.

(** A market sell of 50 with no X held. *)
Definition shortSale : option PaperWallet :=
  w ← start;
  w ← Engine.OnCandle split (bar 1 10) w;
  Some (fst (Engine.CreateOrderMarket split SideTypeSell "XUSDT" 50 w)).

(** The wallet after the first bar, closing at 10. *)
Definition afterBar1 : PaperWallet :=
  default (Engine.emptyWallet "USDT")
          (w ← start; Engine.OnCandle split (bar 1 10) w).

(** [common.AmountToLotSize] taken as the identity on the amount. *)
Definition lot (step : Q) (precision : Z) (amount : Q) : Q := amount.

(** One unit bought at 10, then two units sold at 12: the sale crosses
    from long to short. *)
Definition flipBuyOrder : Order :=
  mkOrder 1 1 "XUSDT" SideTypeBuy OrderTypeMarket OrderStatusTypeFilled
          10 1 1%Z 1%Z None None 0 0.
Definition flipSellOrder : Order :=
  mkOrder 2 2 "XUSDT" SideTypeSell OrderTypeMarket OrderStatusTypeFilled
          12 2 2%Z 2%Z None None 0 0.

(** Two units bought at 10, then one unit sold at 12. *)
Definition partBuyOrder : Order :=
  mkOrder 1 1 "XUSDT" SideTypeBuy OrderTypeMarket OrderStatusTypeFilled
          10 2 1%Z 1%Z None None 0 0.
Definition partSellOrder : Order :=
  mkOrder 2 2 "XUSDT" SideTypeSell OrderTypeMarket OrderStatusTypeFilled
          12 1 2%Z 2%Z None None 0 0.

(** Three units bought at market on a bar closing at 10, two of them sold at
    market on a bar closing at 12, through the order controller. *)
Definition partialSale : option (OrderCtl.Controller * (Order + error)) :=
  w ← start;
  w ← Engine.OnCandle split (bar 1 10) w;
  '(c, _) ← OrderCtl.CreateOrderMarket split SideTypeBuy "XUSDT" 3
              (OrderCtl.mkController w [] ∅);
  w ← Engine.OnCandle split (bar 2 12) (OrderCtl.exchange c);
  OrderCtl.CreateOrderMarket split SideTypeSell "XUSDT" 2
    (OrderCtl.mkController w (OrderCtl.storage c) (OrderCtl.Results c)).

(** {USDT: 10000} before any bar. *)
Definition funded : PaperWallet :=
  Engine.WithPaperAsset "USDT" 10000 (Engine.emptyWallet "USDT").

(** A run without short positions: 50 units bought at market, a limit sell
    for 20 of them at 12 and an OCO sell for the other 30 (limit 13, stop 8),
    a limit buy at 9, a bar that reaches 13 (both limit sells fill, the stop
    leg is canceled, the buy stays pending), and a cancellation. *)
Definition longOnlyOps : list Ops.op :=
  [Ops.OpCandle (bar 1 10);
   Ops.OpPlace (Ops.ReqMarket SideTypeBuy "XUSDT" 50);
   Ops.OpPlace (Ops.ReqLimit SideTypeSell "XUSDT" 20 12);
   Ops.OpPlace (Ops.ReqOCO SideTypeSell "XUSDT" 30 13 8 8);
   Ops.OpPlace (Ops.ReqLimit SideTypeBuy "XUSDT" 10 9);
   Ops.OpCandle (mkCandle "XUSDT" 2%Z 10 11 10 13 0 true ∅);
   Ops.OpCancel flipBuyOrder].

Definition longOnlyEnd : PaperWallet :=
  default funded (Ops.run split lot longOnlyOps funded).

(** A bar, a market buy, then an OCO sell. *)
Definition twoOps : list Ops.op :=
  [Ops.OpCandle (bar 1 10);
   Ops.OpPlace (Ops.ReqMarket SideTypeBuy "XUSDT" 50)].

Definition afterTwoOps : PaperWallet :=
  default funded (Ops.run split lot twoOps funded).

Definition ocoRequest : Ops.request :=
  Ops.ReqOCO SideTypeSell "XUSDT" 10 12 9 9.

Definition ocoCreated : list Order :=
  match snd (Ops.place split lot ocoRequest afterTwoOps) with
  | inl created => created
  | inr _ => []
  end.

(** A market buy the wallet cannot pay. *)
Definition tooLarge : Ops.request := Ops.ReqMarket SideTypeBuy "XUSDT" 2000.

(** A strategy controller that has seen one bar, at time 2. *)
Definition seenBar2 : StrategyCtl.Controller unit :=
  StrategyCtl.mkController unit
    (StrategyCtl.mkDataframe "XUSDT" [10] [10] [10] [10] [0] [2%Z] 2%Z ∅)
    tt true [].

End Scenario.

(** ** Trailing stop (package [tools]) *)

Module Trailing.
Local Open Scope Q_scope.

Record TrailingStop := mkTrailing {
  current : Q;
  stop : Q;
  active : bool
}.

(** [NewTrailingStop] *)
Definition NewTrailingStop : TrailingStop := mkTrailing 0 0 false.

(** [TrailingStop.Start] *)
Definition Start (current stop : Q) (t : TrailingStop) : TrailingStop :=
  mkTrailing current stop true.

(** [TrailingStop.Stop] *)
Definition Stop (t : TrailingStop) : TrailingStop :=
  mkTrailing (current t) (stop t) false.

(** [TrailingStop.Active] *)
Definition Active (t : TrailingStop) : bool := active t.

(** [TrailingStop.Update]: the state after the call and the returned
    flag. *)
Definition Update (cur : Q) (t : TrailingStop) : TrailingStop * bool :=
  if negb (active t) then (t, false)
  else if gtb cur (current t) then
    (mkTrailing cur (stop t + (cur - current t)) (active t), false)
  else (mkTrailing cur (stop t) (active t), leb cur (stop t)).

(** A sequence of [Update] calls: the final state and the flags returned,
    in order. *)
Fixpoint updates (prices : list Q) (t : TrailingStop)
  : TrailingStop * list bool :=
  match prices with
  | [] => (t, [])
  | cur :: rest =>
    let '(t1, hit) := Update cur t in
    let '(t2, hits) := updates rest t1 in
    (t2, hit :: hits)
  end.

(** The sum of the upward moves of a price path that starts at [from]. *)
Fixpoint rises (from : Q) (prices : list Q) : Q :=
  match prices with
  | [] => 0
  | cur :: rest => (if gtb cur from then cur - from else 0) + rises cur rest
  end.

End Trailing.

(** ** Scheduled orders (package [tools]) *)

Module Scheduler.

Section WithBroker.

(** The dataframe and the broker ([service.Broker]) are used through a
    condition and [CreateOrderMarket] only; [B] is the broker's state and
    [E] its errors. *)
Variable Dataframe : Type.
Variable B : Type.
Variable E : Type.
Variable CreateOrderMarket : SideType -> string -> Q -> B -> B * (Order + E).

Record OrderCondition := mkCondition {
  Condition : Dataframe -> bool;
  Size : Q;
  Side : SideType
}.

Record Scheduler := mkScheduler {
  pair : string;
  orderConditions : list OrderCondition
}.

(** [NewScheduler] *)
Definition NewScheduler (pair : string) : Scheduler := mkScheduler pair [].

(** [Scheduler.SellWhen] and [Scheduler.BuyWhen] *)
Definition SellWhen (size : Q) (condition : Dataframe -> bool)
    (s : Scheduler) : Scheduler :=
  mkScheduler (pair s)
    (orderConditions s ++ [mkCondition condition size SideTypeSell]).

Definition BuyWhen (size : Q) (condition : Dataframe -> bool)
    (s : Scheduler) : Scheduler :=
  mkScheduler (pair s)
    (orderConditions s ++ [mkCondition condition size SideTypeBuy]).

(** The callback of [lo.Filter] in [Update]: whether the condition is kept,
    and the broker after the call. *)
Definition keep (df : Dataframe) (pair : string) (oc : OrderCondition)
    (b : B) : bool * B :=
  if Condition oc df then
    match CreateOrderMarket (Side oc) pair (Size oc) b with
    | (b, inr err) => (true, b)
    | (b, inl _) => (false, b)
    end
  else (true, b).

(** [lo.Filter]: the callback runs once on every element, in order, and the
    elements it answers [true] for are kept, in order. *)
Fixpoint Filter (df : Dataframe) (pair : string) (l : list OrderCondition)
    (b : B) : list OrderCondition * B :=
  match l with
  | [] => ([], b)
  | oc :: rest =>
    let '(k, b) := keep df pair oc b in
    let '(kept, b) := Filter df pair rest b in
    (if k then oc :: kept else kept, b)
  end.

(** [Scheduler.Update] *)
Definition Update (df : Dataframe) (s : Scheduler) (b : B) : Scheduler * B :=
  let '(kept, b) := Filter df (pair s) (orderConditions s) b in
  (mkScheduler (pair s) kept, b).

(** The conditions of a list that hold on [df]. *)
Definition due (df : Dataframe) (l : list OrderCondition)
  : list OrderCondition :=
  List.filter (fun oc => Condition oc df) l.

End WithBroker.

End Scheduler.

(** ** Trade statistics (package [order]) *)

Module Stats.
Import OrderCtl.
Local Open Scope Q_scope.

(** [summary.Win] and [summary.Lose] *)
Definition Win (s : summary) : list Q := WinLong s ++ WinShort s.
Definition Lose (s : summary) : list Q := LoseLong s ++ LoseShort s.

(** [for _, value := range l { acc += value }] *)
Definition sum (l : list Q) : Q := fold_left Qplus l 0.

(** [summary.Profit] *)
Definition Profit (s : summary) : Q := sum (Win s ++ Lose s).

(** [float64(len(l))] *)
Definition len (l : list Q) : Q := inject_Z (Z.of_nat (length l)).

(** [summary.Payoff] *)
Definition Payoff (s : summary) : Q :=
  let avgWin := sum (Win s) in
  let avgLose := sum (Lose s) in
  if (length (Win s) =? 0)%nat || (length (Lose s) =? 0)%nat || eqb avgLose 0
  then 0
  else (avgWin / len (Win s)) / Abs (avgLose / len (Lose s)).

(** [summary.WinPercentage] *)
Definition WinPercentage (s : summary) : Q :=
  if (length (Win s) + length (Lose s) =? 0)%nat then 0
  else len (Win s) / inject_Z (Z.of_nat (length (Win s) + length (Lose s)))
       * 100.

(** Wins are positive and losses negative, in every list of the summary. *)
Definition signed (s : summary) : Prop :=
  Forall (fun v => 0 < v) (Win s) /\ Forall (fun v => v < 0) (Lose s).

(** The quantity bought by a list of orders, the amount paid for it and the
    volume-weighted average price. *)
Definition bought (orders : list Order) : Q :=
  fold_right (fun b acc => Quantity b + acc) 0 orders.
Definition paid (orders : list Order) : Q :=
  fold_right (fun b acc => Quantity b * Price b + acc) 0 orders.
Definition averagePrice (orders : list Order) : Q :=
  paid orders / bought orders.

(** A buy of positive quantity, executed at its price, which is positive,
    other than [o]. *)
Definition plainBuy (o b : Order) : Prop :=
  Side b = SideTypeBuy /\ 0 < Quantity b /\ execPrice b = Some (Price b) /\
  ID b <> ID o /\ 0 < Price b.

End Stats.

(** ** The wallet over its life time *)

Module Life.
Import Wallet Ops.

(** [WithPaperFee] *)
Definition WithPaperFee (maker taker : Q) (wallet : PaperWallet) : PaperWallet :=
  mkWallet (baseCoin wallet) (counter wallet) taker maker
    (initialValue wallet) (orders wallet) (assets wallet)
    (avgShortPrice wallet) (avgLongPrice wallet) (volume wallet)
    (lastCandle wallet) (fistCandle wallet) (assetValues wallet)
    (equityValues wallet) (logged wallet).

(** The options of the package that act on the wallet's state. *)
Inductive paperOption : (PaperWallet -> PaperWallet) -> Prop :=
| paperAsset pair amount : paperOption (Engine.WithPaperAsset pair amount)
| paperFee maker taker : paperOption (WithPaperFee maker taker).

(** [p.assets[k]] is not nil. *)
Definition keyed (p : PaperWallet) (k : string) : Prop :=
  is_Some (assets p !! k).

(** A step that leaves the configuration, the bars and the histories alone
    and removes no asset entry. *)
Definition steady (p p' : PaperWallet) : Prop :=
  baseCoin p' = baseCoin p /\ takerFee p' = takerFee p /\
  makerFee p' = makerFee p /\ initialValue p' = initialValue p /\
  lastCandle p' = lastCandle p /\ fistCandle p' = fistCandle p /\
  assetValues p' = assetValues p /\ equityValues p' = equityValues p /\
  forall k, keyed p k -> keyed p' k.

(** How a log entry can change: in its status and update time only, and the
    status moves forward, from [New] to [Filled] or from any status to
    [Canceled]. *)
Definition ages (o o' : Order) : Prop :=
  setUpdatedAt (UpdatedAt o) (setStatus (Status o) o') = o /\
  (Status o' = Status o \/ Status o' = OrderStatusTypeCanceled \/
   (Status o = OrderStatusTypeNew /\ Status o' = OrderStatusTypeFilled)).

(** The times of the complete bars among the operations, in order. *)
Definition barTimes (l : list op) : list Time :=
  flat_map (fun o => match o with
                     | OpCandle candle =>
                       if cComplete candle then [cTime candle] else []
                     | _ => []
                     end) l.

Section WithPairs.
Variable SplitAssetQuote : string -> string * string.

(** What [OnCandle] dereferences for an order: the entries of the pair's
    asset and quote, and the stop price of a stop order. *)
Definition runnable (p : PaperWallet) (o : Order) : Prop :=
  keyed p (SplitAssetQuote (Pair o)).1 /\
  keyed p (SplitAssetQuote (Pair o)).2 /\
  (Engine.isStopSell (Type_ o) = true -> is_Some (Stop o)).

Definition Safe (p : PaperWallet) : Prop :=
  keyed p (baseCoin p) /\ Forall (runnable p) (orders p).

End WithPairs.
End Life.

(** ** Reservations and executions *)

Module Funds.
Import Wallet Ops LongOnly.
Local Open Scope Q_scope.

Section WithPairs.
Variable SplitAssetQuote : string -> string * string.

(** Requests for a pending order (limit, stop, OCO); a buy is of positive
    size and placed while the asset is not held short. *)
Definition reserving (r : request) (p : PaperWallet) : Prop :=
  match r with
  | ReqLimit SideTypeBuy pr size _ | ReqOCO SideTypeBuy pr size _ _ _ =>
    0 < size /\ 0 <= freeOf p (SplitAssetQuote pr).1
  | ReqLimit SideTypeSell _ _ _ | ReqOCO SideTypeSell _ _ _ _ _
  | ReqStop _ _ _ => True
  | ReqMarket _ _ _ | ReqMarketQuote _ _ _ => False
  end.

(** An execution of [size] at [price] that opens no short position: a sell
    within the free quantity of the asset, a buy while the asset is not
    held short. *)
Definition plain (side : SideType) (pr : string) (size price : Q)
    (p : PaperWallet) : Prop :=
  0 < size /\ 0 <= price /\
  match side with
  | SideTypeSell => size <= freeOf p (SplitAssetQuote pr).1
  | SideTypeBuy => 0 <= freeOf p (SplitAssetQuote pr).1
  end.

(** The asset quantity and the quote amount an execution moves, signed as
    the wallet sees them. *)
Definition assetDelta (side : SideType) (size : Q) : Q :=
  match side with SideTypeBuy => size | SideTypeSell => - size end.
Definition quoteDelta (side : SideType) (size price : Q) : Q :=
  match side with
  | SideTypeBuy => - (size * price)
  | SideTypeSell => size * price
  end.

(** The bar fills a pending limit order of this side and limit. *)
Definition reaches (candle : Candle) (side : SideType) (limit : Q) : bool :=
  match side with
  | SideTypeBuy => geb limit (cClose candle)
  | SideTypeSell => geb (cHigh candle) limit
  end.

End WithPairs.
End Funds.

(** ** The loop of [MaxDrawdown] *)

Module Drops.
Import Drawdown.
Local Open Scope Q_scope.

Local Abbreviation value ev i := (avValue (nth i ev zeroAV)).
Local Abbreviation time ev i := (avTime (nth i ev zeroAV)).

(** The loop after the iteration for index [i]: the running minimum is the
    drop from the highest earlier sample to sample [i], the global minimum
    is the largest drop between two samples up to [i]. *)
Definition dropInv (ev : list AssetValue) (i : nat) (a : acc) : Prop :=
  (exists b, (b < i)%nat /\
     localMin a == value ev i - value ev b /\
     localMinBase a = value ev b /\ localMinStart a = time ev b /\
     localMinEnd a = time ev i /\
     forall k, (k < i)%nat -> value ev k <= value ev b) /\
  (exists gi gj, (gi < gj <= i)%nat /\
     globalMin a == value ev gj - value ev gi /\
     globalMinBase a = value ev gi /\ globalMinStart a = time ev gi /\
     globalMinEnd a = time ev gj /\
     forall i' j', (i' < j' <= i)%nat ->
       globalMin a <= value ev j' - value ev i').

End Drops.

(** ** The dataframe of a strategy *)

Module Dataframes.
Import StrategyCtl.

Definition rows (df : Dataframe) : nat := length (dfTime df).

(** The price and volume columns have one entry per row, so has the column
    of every metadata key of [K] (a missing column is the nil slice), and
    the times increase. *)
Definition shaped (K : gset string) (df : Dataframe) : Prop :=
  length (dfClose df) = rows df /\ length (dfOpen df) = rows df /\
  length (dfHigh df) = rows df /\ length (dfLow df) = rows df /\
  length (dfVolume df) = rows df /\
  (forall k, k ∈ K -> length (default [] (dfMetadata df !! k)) = rows df) /\
  StronglySorted Z.lt (dfTime df).

(** [df'] has the columns of [df] that the controller fills. *)
Definition raw (K : gset string) (df df' : Dataframe) : Prop :=
  dfClose df' = dfClose df /\ dfOpen df' = dfOpen df /\
  dfHigh df' = dfHigh df /\ dfLow df' = dfLow df /\
  dfVolume df' = dfVolume df /\ dfTime df' = dfTime df /\
  forall k, k ∈ K -> dfMetadata df' !! k = dfMetadata df !! k.

(** The first six clauses of [shaped]: one entry per row in every column
    that the controller fills. *)
Definition aligned (K : gset string) (df : Dataframe) : Prop :=
  length (dfClose df) = rows df /\ length (dfOpen df) = rows df /\
  length (dfHigh df) = rows df /\ length (dfLow df) = rows df /\
  length (dfVolume df) = rows df /\
  (forall k, k ∈ K -> length (default [] (dfMetadata df !! k)) = rows df).

(** What a controller receives: a bar through [OnCandle], a bar through
    [OnPartialCandle], or [Start]. *)
Inductive event :=
| Bar (candle : Candle)
| Partial (candle : Candle)
| Started.

Definition isPartial (e : event) : bool :=
  match e with Partial _ => true | _ => false end.

Section WithStrategy.
Variable B : Type.
Variable WarmupPeriod : nat.
Variable Indicators : Dataframe -> Dataframe.
Variable strategyOnCandle : Dataframe -> B -> Dataframe * B.

(** [s.strategy.(HighFrequencyStrategy)]: the strategy's [OnPartialCandle]
    when it has one, [None] when the type assertion fails. *)
Variable strategyOnPartialCandle : option (Dataframe -> B -> Dataframe * B).

(** [NewStrategyController] *)
Definition NewStrategyController (pair : string) (broker : B) : Controller B :=
  mkController B (mkDataframe pair [] [] [] [] [] [] zeroTime ∅) broker false
               [].

(** [Controller.Start] *)
Definition Start (s : Controller B) : Controller B :=
  mkController B (dataframe B s) (broker B s) true (errorLog B s).

(** [Controller.OnPartialCandle]: no comparison of times, and no look at
    the started flag. *)
Definition OnPartialCandle (candle : Candle) (s : Controller B)
  : option (Controller B) :=
  if negb (cComplete candle)
     && (WarmupPeriod <=? length (dfClose (dataframe B s)))%nat
  then
    match strategyOnPartialCandle with
    | Some strategyOnPartial =>
      df ← updateDataFrame candle (dataframe B s);
      let df := Indicators df in
      let '(df, b) := strategyOnPartial df (broker B s) in
      Some (mkController B df b (started B s) (errorLog B s))
    | None => Some s
    end
  else Some s.

Definition handle (e : event) (s : Controller B) : option (Controller B) :=
  match e with
  | Bar candle => OnCandle B WarmupPeriod Indicators strategyOnCandle candle s
  | Partial candle => OnPartialCandle candle s
  | Started => Some (Start s)
  end.

Fixpoint feed (events : list event) (s : Controller B)
  : option (Controller B) :=
  match events with
  | [] => Some s
  | e :: rest => s ← handle e s; feed rest s
  end.

End WithStrategy.
End Dataframes.

(** ** More concrete scenarios *)

Module Examples.
Import Wallet Ops.
Local Open Scope Q_scope.

(** A trailing stop started at price 10 with its level at 9. *)
Definition trailing : Trailing.TrailingStop :=
  Trailing.Start 10 9 Trailing.NewTrailingStop.

(** Two winning trades and one losing trade. *)
Definition twoWins : OrderCtl.summary :=
  OrderCtl.mkSummary "XUSDT" [4; 6] [] [-2] [] 0.

(** The wallet that [NewPaperWallet] builds from 10000 USDT. *)
Definition opened : PaperWallet :=
  default Scenario.funded Scenario.start.

(** A limit buy of 10 at 9 placed after the first bar, the bar closing at 9
    that fills it, and the cancellation of the order instead. *)
Definition limitBuy : PaperWallet * (list Order + error) :=
  place Scenario.split Scenario.lot (ReqLimit SideTypeBuy "XUSDT" 10 9)
        Scenario.afterBar1.

Definition limitBuyCreated : list Order :=
  match snd limitBuy with inl created => created | inr _ => [] end.

Definition limitBuyFilled : PaperWallet :=
  default Scenario.funded
    (Engine.OnCandle Scenario.split (Scenario.bar 2 9) (fst limitBuy)).

Definition limitBuyCanceled : PaperWallet :=
  default Scenario.funded
    (run Scenario.split Scenario.lot
       (map OpCandle [Scenario.bar 2 9; Scenario.bar 3 8])
       (Engine.Cancel (nth 0 limitBuyCreated zeroOrder) (fst limitBuy))).

(** A market buy of 50 after the first bar. *)
Definition marketBuy : PaperWallet * (list Order + error) :=
  place Scenario.split Scenario.lot (ReqMarket SideTypeBuy "XUSDT" 50)
        Scenario.afterBar1.

Definition marketBuyCreated : list Order :=
  match snd marketBuy with inl created => created | inr _ => [] end.

(** An equity history that falls from 100 to 80, recovers to 120 and falls
    to 90. *)
Definition history : list AssetValue :=
  [mkAV 1%Z 100; mkAV 2%Z 80; mkAV 3%Z 120; mkAV 4%Z 90].

(** A feed of complete bars with a late bar and a repeated time, and the
    same feed followed by a late incomplete bar. *)
Definition completeBars : list Dataframes.event :=
  [Dataframes.Bar (Scenario.bar 1 10); Dataframes.Started;
   Dataframes.Bar (Scenario.bar 2 12); Dataframes.Bar (Scenario.bar 1 9);
   Dataframes.Bar (Scenario.bar 2 11)].

Definition events : list Dataframes.event :=
  completeBars
  ++ [Dataframes.Partial (mkCandle "XUSDT" 1%Z 9 9 9 9 0 false ∅)].

End Examples.

(** * Properties *)

(** ** Comparisons *)

Module NumFacts.

Lemma ltb_lt x y : ltb x y = true <-> (x < y)%Q.
Proof.
  unfold ltb. rewrite negb_true_iff. split; intros H.
  - apply Qnot_le_lt. intros L. apply Qle_bool_iff in L. congruence.
  - destruct (Qle_bool y x) eqn:E; [|reflexivity].
    apply Qle_bool_iff in E. exfalso. apply (Qlt_not_le _ _ H E).
Qed.

Lemma ltb_ge x y : ltb x y = false <-> (y <= x)%Q.
Proof.
  unfold ltb. rewrite negb_false_iff. apply Qle_bool_iff.
Qed.

Lemma leb_le x y : leb x y = true <-> (x <= y)%Q.
Proof. apply Qle_bool_iff. Qed.

Lemma leb_gt x y : leb x y = false <-> (y < x)%Q.
Proof.
  unfold leb. split; intros H.
  - apply Qnot_le_lt. intros L. apply Qle_bool_iff in L. congruence.
  - destruct (Qle_bool x y) eqn:E; [|reflexivity].
    apply Qle_bool_iff in E. exfalso. apply (Qlt_not_le _ _ H E).
Qed.

Lemma gtb_gt x y : gtb x y = true <-> (y < x)%Q.
Proof. apply ltb_lt. Qed.

Lemma gtb_le x y : gtb x y = false <-> (x <= y)%Q.
Proof. apply ltb_ge. Qed.

Lemma geb_ge x y : geb x y = true <-> (y <= x)%Q.
Proof. apply leb_le. Qed.

Lemma geb_lt x y : geb x y = false <-> (x < y)%Q.
Proof. apply leb_gt. Qed.

Lemma eqb_eq x y : eqb x y = true <-> (x == y)%Q.
Proof. apply Qeq_bool_iff. Qed.

Lemma eqb_neq x y : eqb x y = false <-> ~ (x == y)%Q.
Proof.
  unfold eqb. split; intros H.
  - intros E. apply Qeq_bool_iff in E. congruence.
  - destruct (Qeq_bool x y) eqn:E; [|reflexivity].
    apply Qeq_bool_iff in E. contradiction.
Qed.

Lemma Min_le_l x y : (x <= y)%Q -> Min x y = x.
Proof. intros H. unfold Min. apply leb_le in H. now rewrite H. Qed.

Lemma Min_gt_r x y : (y < x)%Q -> Min x y = y.
Proof. intros H. unfold Min. apply leb_gt in H. now rewrite H. Qed.

Lemma Max_le_r x y : (x <= y)%Q -> Max x y = y.
Proof. intros H. unfold Max. apply leb_le in H. now rewrite H. Qed.

Lemma Max_gt_l x y : (y < x)%Q -> Max x y = x.
Proof. intros H. unfold Max. apply leb_gt in H. now rewrite H. Qed.

End NumFacts.

(** ** What the operations leave alone *)

Module FrameFacts.
Import Wallet Ops.

Section WithPairs.
Variable SplitAssetQuote : string -> string * string.
Variable AmountToLotSize : Q -> Z -> Q -> Q.

Lemma updateAveragePrice_frame side pair amount value p :
  let p' := Engine.updateAveragePrice SplitAssetQuote side pair amount value p in
  orders p' = orders p /\ counter p' = counter p /\ assets p' = assets p /\
  lastCandle p' = lastCandle p /\ volume p' = volume p.
Proof.
  unfold Engine.updateAveragePrice.
  destruct (SplitAssetQuote pair) as [asset quote].
  repeat case_match; simpl; auto.
Qed.

Lemma validateFunds_err side pair amount value fill p p' e :
  Engine.validateFunds SplitAssetQuote side pair amount value fill p = (p', Some e) ->
  e = ErrInsufficientFunds pair amount /\
  p' = ensureAsset (SplitAssetQuote pair).2 (ensureAsset (SplitAssetQuote pair).1 p).
Proof.
  unfold Engine.validateFunds.
  destruct (SplitAssetQuote pair) as [asset quote]. simpl.
  destruct side; repeat case_match; intros Hv; inversion Hv; auto.
Qed.

Lemma validateFunds_ids side pair amount value fill p :
  let p' := (Engine.validateFunds SplitAssetQuote side pair amount value fill p).1 in
  orders p' = orders p /\ counter p' = counter p /\ lastCandle p' = lastCandle p.
Proof.
  unfold Engine.validateFunds.
  destruct (SplitAssetQuote pair) as [asset quote].
  assert (E : forall k q, orders (ensureAsset k q) = orders q /\ counter (ensureAsset k q) = counter q /\ lastCandle (ensureAsset k q) = lastCandle q).
  { intros k q. unfold ensureAsset. case_match; simpl; auto. }
  destruct (E asset p) as (E1 & E2 & E3).
  destruct (E quote (ensureAsset asset p)) as (F1 & F2 & F3).
  pose proof (updateAveragePrice_frame) as U.
  destruct side; repeat case_match; simpl;
    repeat match goal with
    | |- context [Engine.updateAveragePrice _ ?s ?pr ?a ?v ?q] =>
      destruct (U s pr a v q) as (-> & -> & _ & -> & _)
    end; simpl; rewrite ?F1, ?F2, ?F3, ?E1, ?E2, ?E3; auto.
Qed.

Lemma ensureAsset_frame k p :
  let p' := ensureAsset k p in
  (forall a, balance p' a = balance p a) /\
  (forall a info, assets p !! a = Some info -> assets p' !! a = Some info) /\
  (forall a, assets p !! a = None ->
             assets p' !! a = None \/ assets p' !! a = Some zeroAsset) /\
  sameButAssets p p'.
Proof.
  unfold ensureAsset. destruct (assets p !! k) eqn:E; simpl.
  - repeat split; auto.
  - repeat split; simpl; auto.
    + intros a. unfold balance, assetAt. simpl.
      destruct (decide (k = a)) as [->|N].
      * now rewrite lookup_insert_eq, E.
      * now rewrite lookup_insert_ne.
    + intros a info Ha. rewrite lookup_insert_ne; [exact Ha | congruence].
    + intros a Ha. destruct (decide (k = a)) as [->|N].
      * right. apply lookup_insert_eq.
      * left. now rewrite lookup_insert_ne.
Qed.

Lemma place_error r p p' e :
  place SplitAssetQuote AmountToLotSize r p = (p', inr e) ->
  (e = ErrInvalidQuantity /\ p' = p) \/
  exists asset quote pr q,
    e = ErrInsufficientFunds pr q /\
    p' = ensureAsset quote (ensureAsset asset p).
Proof.
  assert (V := validateFunds_err).
  destruct r; simpl; unfold single, Engine.CreateOrderOCO,
    Engine.CreateOrderLimit, Engine.CreateOrderMarket,
    Engine.CreateOrderMarketQuote, Engine.createOrderMarket,
    Engine.CreateOrderStop;
    (destruct (eqb _ 0);
     [intros Hv; inversion Hv; left; split; reflexivity|]);
    match goal with
    | |- context [Engine.validateFunds ?S ?s ?pr ?a ?v ?f ?q] =>
      destruct (Engine.validateFunds S s pr a v f q) as [w [err|]] eqn:Ev
    end; simpl; intros Hv; inversion Hv; subst;
    apply V in Ev as [-> ->]; right; eauto 10.
Qed.

(** C7.  When an order-placement call returns [InsufficientFunds], no
    balance has been touched: every asset reads the same free and locked
    quantities as before, an existing entry is the same entry, the only
    entries the call can have added are zero entries for the pair's asset and
    quote, and the rest of the wallet (log, counter, averages, volume, bars,
    histories) is unchanged.  The error is the result of the call itself. *)
Theorem insufficient_funds_reserves_nothing r p p' pr q :
  place SplitAssetQuote AmountToLotSize r p
    = (p', inr (ErrInsufficientFunds pr q)) ->
  (forall a, balance p' a = balance p a) /\
  (forall a info, assets p !! a = Some info -> assets p' !! a = Some info) /\
  (forall a, assets p !! a = None ->
             assets p' !! a = None \/ assets p' !! a = Some zeroAsset) /\
  sameButAssets p p'.
Proof.
  intros H. apply place_error in H as [[E _]|(asset & quote & pr' & q' & _ & ->)].
  - discriminate E.
  - destruct (ensureAsset_frame asset p) as (A1 & A2 & A3 & A4).
    destruct (ensureAsset_frame quote (ensureAsset asset p)) as (B1 & B2 & B3 & B4).
    cbv zeta in *. split; [|split; [|split]].
    + intros a. now rewrite B1, A1.
    + intros a info Ha. auto.
    + intros a Ha. destruct (A3 a Ha) as [N|S]; [auto|]. right. auto.
    + unfold sameButAssets in *. intuition congruence.
Qed.


(** C6, amended.  [Cancel] has no result but [nil] and does not look at the
    status: every log entry with the order's exchange id gets the status
    [Canceled], a [Filled] one included; no other field of any order
    changes, orders with another exchange id are untouched, and so is the
    rest of the wallet. *)
Theorem Cancel_marks_canceled order p :
  let p' := Engine.Cancel order p in
  sameButOrders p p' /\
  length (orders p') = length (orders p) /\
  forall i o, orders p !! i = Some o ->
    exists o', orders p' !! i = Some o' /\
      setStatus (Status o) o' = o /\
      (ExchangeID o = ExchangeID order -> Status o' = OrderStatusTypeCanceled) /\
      (ExchangeID o <> ExchangeID order -> o' = o).
Proof.
  unfold Engine.Cancel. simpl. split; [|split].
  - unfold sameButOrders. simpl. tauto.
  - apply length_map.
  - intros i o Ho. rewrite list_lookup_fmap, Ho. simpl.
    eexists. split; [reflexivity|].
    destruct (Z.eqb_spec (ExchangeID o) (ExchangeID order)) as [E|N].
    + repeat split; [now destruct o | congruence].
    + repeat split; [now destruct o | congruence].
Qed.

End WithPairs.

End FrameFacts.

(** ** Late candles *)

Module StrategyFacts.

Section Strategy.
Import StrategyCtl.
Variable B : Type.
Variable WarmupPeriod : nat.
Variable Indicators : Dataframe -> Dataframe.
Variable strategyOnCandle : Dataframe -> B -> Dataframe * B.

(** C5, amended.  The strategy controller drops a bar that is older than
    the last time of its dataframe: [Controller.OnCandle] reports the bar
    with one line of the error log and returns, with the dataframe, the
    broker state and the started flag unchanged and the strategy not
    called.  The method has no error result. *)
Theorem late_candle_dropped candle (s : Controller B) t :
  lastTime (dataframe B s) = Some t ->
  (cTime candle < t)%Z ->
  OnCandle B WarmupPeriod Indicators strategyOnCandle candle s
  = Some (mkController B (dataframe B s) (broker B s) (started B s)
                       (errorLog B s ++ [candle])).
Proof.
  intros Ht Hlt. unfold OnCandle, late. rewrite Ht.
  unfold Before. apply Z.ltb_lt in Hlt. now rewrite Hlt.
Qed.
End Strategy.

End StrategyFacts.

(** ** Exchange ids *)

Module IdFacts.
Import Wallet Ops FrameFacts.

Lemma wrap64_small z : - 2 ^ 63 <= z < 2 ^ 63 -> wrap64 z = z.
Proof.
  intros H. unfold wrap64. rewrite Z.mod_small; lia.
Qed.

Lemma ids_alter f i l :
  (forall o, ExchangeID (f o) = ExchangeID o) ->
  map ExchangeID (alter f i l) = map ExchangeID l.
Proof.
  intros Hf. revert i. induction l as [|o l IH]; intros [|i]; simpl; auto.
  - now rewrite Hf.
  - f_equal. apply IH.
Qed.

Lemma ids_cancelGroup gid exid t l :
  map ExchangeID (Engine.cancelGroup gid exid t l) = map ExchangeID l.
Proof.
  induction l as [|o l IH]; simpl; auto.
  destruct (GroupID o) as [g|]; [destruct (_ && _)|]; simpl; congruence.
Qed.

Section WithPairs.
Variable SplitAssetQuote : string -> string * string.
Variable AmountToLotSize : Q -> Z -> Q -> Q.

Lemma keeps_ensureAsset k : keeps (ensureAsset k).
Proof. intros p. unfold ensureAsset. now case_match. Qed.
Lemma keeps_ensureVolume k : keeps (ensureVolume k).
Proof. intros p. unfold ensureVolume. now case_match. Qed.
Lemma keeps_markFilled t i : keeps (Engine.markFilled t i).
Proof.
  intros p. split; [|reflexivity]. unfold ids, Engine.markFilled. simpl.
  now apply ids_alter.
Qed.
Lemma keeps_updateAveragePrice s pr a v :
  keeps (Engine.updateAveragePrice SplitAssetQuote s pr a v).
Proof.
  intros p. destruct (updateAveragePrice_frame SplitAssetQuote s pr a v p) as (E1 & E2 & _).
  unfold ids. now rewrite E1, E2.
Qed.

Lemma onCandleOrder_keeps candle i p p' :
  Engine.onCandleOrder SplitAssetQuote candle i p = Some p' ->
  ids p' = ids p /\ counter p' = counter p.
Proof.
  unfold Engine.onCandleOrder.
  destruct (orders p !! i) as [order|]; [|intros [= <-]; auto].
  destruct (_ || _); [intros [= <-]; auto|].
  destruct (SplitAssetQuote (Pair order)) as [asset quote].
  destruct (keeps_ensureVolume (cPair candle) p) as [V1 V2].
  set (p0 := ensureVolume (cPair candle) p) in *.
  assert (Hbuy : forall q,
    (if bool_decide (Side order = SideTypeBuy) && geb (Price order) (cClose candle)
     then
       let p := ensureAsset asset p0 in
       let p := addVolume (cPair candle) (Price order * Quantity order) p in
       let p := Engine.markFilled (cTime candle) i p in
       let p := Engine.updateAveragePrice SplitAssetQuote (Side order) (Pair order)
                  (Quantity order) (Price order) p in
       let p := setFree asset (Free (assetAt p asset) + Quantity order) p in
       match assets p !! quote with
       | None => None
       | Some q0 => Some (setLock quote (Lock q0 - Price order * Quantity order) p)
       end
     else Some p0) = Some q -> ids q = ids p /\ counter q = counter p).
  { intros q. destruct (_ && _); [|intros [= <-]; auto].
    cbv zeta. case_match; [|discriminate]. intros [= <-].
    unfold ids in *. simpl.
    match goal with
    | |- context [Engine.updateAveragePrice ?S ?s ?pr ?a ?v ?w] =>
      destruct (keeps_updateAveragePrice s pr a v w) as [U1 U2]
    end.
    unfold ids in *. rewrite U1, U2.
    destruct (keeps_markFilled (cTime candle) i
      (addVolume (cPair candle) (Price order * Quantity order) (ensureAsset asset p0))) as [M1 M2].
    unfold ids in *; rewrite M1, M2. simpl.
    destruct (keeps_ensureAsset asset p0) as [A1 A2].
    unfold ids in *; rewrite A1, A2. auto. }
  intros H. apply bind_Some in H as (p1 & H1 & H).
  apply Hbuy in H1 as [B1 B2]. clear Hbuy.
  destruct (bool_decide (Side order = SideTypeSell)); [|injection H as <-; auto].
  apply bind_Some in H as (op & _ & H).
  destruct op as [orderPrice|]; [|injection H as <-; auto].
  cbv zeta in H. case_match; [|discriminate]. injection H as <-.
  unfold ids in *. simpl.
  match goal with
  | |- context [Engine.updateAveragePrice ?S ?s ?pr ?a ?v ?w] =>
    destruct (keeps_updateAveragePrice s pr a v w) as [U1 U2]
  end.
  unfold ids in *. rewrite U1, U2.
  match goal with
  | |- context [Engine.markFilled ?t ?j ?w] =>
    destruct (keeps_markFilled t j w) as [M1 M2]
  end.
  unfold ids in *; rewrite M1, M2. simpl.
  match goal with
  | |- context [ensureAsset ?k ?w] =>
    destruct (keeps_ensureAsset k w) as [A1 A2]
  end.
  unfold ids in *; rewrite A1, A2.
  destruct (GroupID order); simpl; rewrite ?ids_cancelGroup; auto.
Qed.

Lemma forEach_keeps candle l p p' :
  Engine.forEach (Engine.onCandleOrder SplitAssetQuote candle) l p = Some p' ->
  ids p' = ids p /\ counter p' = counter p.
Proof.
  revert p. induction l as [|i l IH]; simpl; intros p H.
  - injection H as <-. auto.
  - apply bind_Some in H as (q & Hq & H).
    apply onCandleOrder_keeps in Hq as [Q1 Q2].
    apply IH in H as [H1 H2]. split; congruence.
Qed.

Lemma OnCandle_keeps candle p p' :
  Engine.OnCandle SplitAssetQuote candle p = Some p' ->
  ids p' = ids p /\ counter p' = counter p.
Proof.
  unfold Engine.OnCandle. cbv zeta. intros H.
  apply bind_Some in H as (q & Hq & H).
  apply forEach_keeps in Hq as [Q1 Q2].
  assert (ids q = ids p /\ counter q = counter p) as [R1 R2].
  { rewrite Q1, Q2. destruct (fistCandle _ !! _); split; reflexivity. }
  destruct (cComplete candle); [|injection H as <-; auto].
  destruct (map_fold _ _ _) as [total values].
  apply bind_Some in H as (b & _ & H). injection H as <-. auto.
Qed.

Lemma Cancel_keeps order p :
  ids (Engine.Cancel order p) = ids p /\
  counter (Engine.Cancel order p) = counter p.
Proof.
  split; [|reflexivity]. unfold ids, Engine.Cancel. simpl.
  rewrite map_map. apply map_ext. intros o. now destruct (_ =? _).
Qed.

Lemma ID_small p :
  0 <= counter p -> counter p + 1 <= MaxInt64 ->
  Engine.ID p = (set_counter (counter p + 1) p, counter p + 1).
Proof.
  intros H0 H1. unfold Engine.ID. simpl.
  rewrite wrap64_small; [reflexivity|]. unfold MaxInt64 in H1. lia.
Qed.

(** What a successful placement does to the log and the counter. *)
Lemma place_created r p p' created :
  0 <= counter p -> counter p + 3 <= MaxInt64 ->
  place SplitAssetQuote AmountToLotSize r p = (p', inl created) ->
  orders p' = orders p ++ created /\
  counter p < counter p' <= counter p + 3 /\
  StronglySorted Z.lt (map ExchangeID created) /\
  Forall (fun i => counter p < i <= counter p') (map ExchangeID created).
Proof.
  intros H0 H3.
  assert (V := validateFunds_ids SplitAssetQuote).
  destruct r; simpl; unfold single, Engine.CreateOrderOCO,
    Engine.CreateOrderLimit, Engine.CreateOrderMarket,
    Engine.CreateOrderMarketQuote, Engine.createOrderMarket,
    Engine.CreateOrderStop;
    (destruct (eqb _ 0); [intros Hv; discriminate Hv|]);
    match goal with
    | |- context [Engine.validateFunds ?S ?s ?pr ?a ?v ?f ?q] =>
      specialize (V s pr a v f q);
      destruct (Engine.validateFunds S s pr a v f q) as [w [err|]] eqn:Ev
    end; simpl in V; destruct V as (V1 & V2 & V3);
    try (intros Hv; discriminate Hv).
  - (* OCO *)
    rewrite (ID_small w) by lia. cbv beta iota zeta.
    rewrite (ID_small (set_counter _ w)) by (simpl; lia). cbv beta iota zeta.
    rewrite (ID_small (set_counter _ (set_counter _ w))) by (simpl; lia).
    cbv beta iota zeta. intros [= <- <-]. simpl. rewrite V1, V2.
    repeat split; try lia.
    + repeat constructor; lia.
    + repeat constructor; lia.
  - (* limit *)
    rewrite (ID_small w) by lia. simpl. intros [= <- <-]. simpl.
    rewrite V1, V2. repeat split; try lia; repeat constructor; lia.
  - (* market *)
    destruct (keeps_ensureVolume pair w) as [_ K].
    rewrite (ID_small (addVolume _ _ _)) by (simpl; lia).
    simpl. intros [= <- <-]. simpl.
    assert (O : orders (ensureVolume pair w) = orders w)
      by (unfold ensureVolume; now case_match).
    rewrite O, K, V1, V2. repeat split; try lia; repeat constructor; lia.
  - (* market, by quote quantity *)
    destruct (keeps_ensureVolume pair w) as [_ K].
    rewrite (ID_small (addVolume _ _ _)) by (simpl; lia).
    simpl. intros [= <- <-]. simpl.
    assert (O : orders (ensureVolume pair w) = orders w)
      by (unfold ensureVolume; now case_match).
    rewrite O, K, V1, V2. repeat split; try lia; repeat constructor; lia.
  - (* stop *)
    rewrite (ID_small w) by lia. simpl. intros [= <- <-]. simpl.
    rewrite V1, V2. repeat split; try lia; repeat constructor; lia.
Qed.

Lemma place_failed r p p' e :
  place SplitAssetQuote AmountToLotSize r p = (p', inr e) ->
  orders p' = orders p /\ counter p' = counter p.
Proof.
  intros H. apply place_error in H as [[_ ->]|(asset & quote & pr & q & _ & ->)];
    [auto|].
  unfold ensureAsset. repeat case_match; auto.
Qed.

Lemma IdsInv_append p p' created :
  IdsInv p ->
  orders p' = orders p ++ created ->
  counter p <= counter p' ->
  StronglySorted Z.lt (map ExchangeID created) ->
  Forall (fun i => counter p < i <= counter p') (map ExchangeID created) ->
  IdsInv p'.
Proof.
  intros (I0 & I1 & I2) Ho Hc Hs Hf. unfold IdsInv, ids in *.
  rewrite Ho, map_app. split; [lia|]. split.
  - apply StronglySorted_app. split; [|auto].
    intros x y Hx Hy.
    rewrite Forall_forall in I2, Hf.
    specialize (I2 x Hx). specialize (Hf y Hy). lia.
  - apply Forall_app. split.
    + eapply Forall_impl; [exact I2|]. intros; simpl in *; lia.
    + eapply Forall_impl; [exact Hf|]. intros; simpl in *; lia.
Qed.

Lemma exec_IdsInv o p p' :
  IdsInv p -> counter p + 3 <= MaxInt64 ->
  exec SplitAssetQuote AmountToLotSize o p = Some p' ->
  IdsInv p' /\ counter p' <= counter p + 3.
Proof.
  intros I H3. destruct o as [r|candle|order]; simpl.
  - destruct (place SplitAssetQuote AmountToLotSize r p) as [w [created|e]] eqn:E;
      simpl; intros [= <-].
    + destruct I as (I0 & I1 & I2).
      apply place_created in E as (Eo & Ec & Es & Ef); [|lia|lia].
      split; [|lia].
      apply (IdsInv_append p w created); auto; [now repeat split | lia].
    + apply place_failed in E as [Eo Ec]. unfold IdsInv, ids in *.
      rewrite Eo, Ec. split; [auto | lia].
  - intros H. apply OnCandle_keeps in H as [Ei Ec].
    unfold IdsInv in *. rewrite Ei, Ec. split; [auto | lia].
  - intros [= <-]. destruct (Cancel_keeps order p) as [Ei Ec].
    unfold IdsInv in *. rewrite Ei, Ec. split; [auto | lia].
Qed.

Lemma run_IdsInv l p p' :
  IdsInv p ->
  counter p + 3 * Z.of_nat (length l) <= MaxInt64 ->
  run SplitAssetQuote AmountToLotSize l p = Some p' ->
  IdsInv p' /\ counter p' <= counter p + 3 * Z.of_nat (length l).
Proof.
  revert p. induction l as [|o l IH]; intros p I Hb; simpl.
  - intros [= <-]. split; [auto | lia].
  - intros H. apply bind_Some in H as (q & Hq & H).
    simpl length in Hb. rewrite Nat2Z.inj_succ in Hb.
    apply exec_IdsInv in Hq as [Iq Cq]; [|auto|lia].
    apply IH in H as [I' C']; [|auto|lia].
    split; [auto|]. simpl length. lia.
Qed.

Lemma fresh_IdsInv p : fresh p -> IdsInv p.
Proof.
  intros [Hc Ho]. unfold IdsInv, ids. rewrite Hc, Ho. simpl.
  repeat split; [lia | constructor | constructor].
Qed.

(** C10.  From a fresh wallet, after any sequence [l] of operations that
    cannot have exhausted the 64-bit counter, every order a placement call
    creates (market, limit, stop, both OCO legs) carries an exchange id
    greater than the counter, hence than every id drawn before, and greater
    than the id of every order of the log; the ids of the log increase
    strictly and are pairwise distinct. *)
Theorem ExchangeID_strictly_increasing l w0 p r p' created :
  fresh w0 ->
  run SplitAssetQuote AmountToLotSize l w0 = Some p ->
  3 * (Z.of_nat (length l) + 1) <= MaxInt64 ->
  place SplitAssetQuote AmountToLotSize r p = (p', inl created) ->
  orders p' = orders p ++ created /\
  Forall (fun o => counter p < ExchangeID o /\
                   Forall (fun old => ExchangeID old < ExchangeID o) (orders p))
         created /\
  Forall (fun old => ExchangeID old <= counter p) (orders p) /\
  StronglySorted Z.lt (map ExchangeID (orders p')) /\
  NoDup (map ExchangeID (orders p')).
Proof.
  intros Hf Hr Hb Hp.
  assert (Hc0 : counter w0 = 0) by apply Hf.
  apply fresh_IdsInv in Hf.
  apply run_IdsInv in Hr as [I C]; [|auto|lia].
  destruct I as (I0 & I1 & I2).
  apply place_created in Hp as (Eo & Ec & Es & Ef); [|lia|lia].
  assert (I' : IdsInv p').
  { apply (IdsInv_append p p' created); auto; [now repeat split | lia]. }
  destruct I' as (_ & S' & _). unfold ids in *.
  split; [exact Eo|]. split; [|split; [|split]].
  - rewrite List.Forall_forall in I2, Ef. apply List.Forall_forall. intros o Ho.
    assert (Hi : In (ExchangeID o) (map ExchangeID created))
      by (apply in_map; exact Ho).
    apply Ef in Hi. split; [lia|].
    apply List.Forall_forall. intros old Hold.
    assert (Hj : In (ExchangeID old) (map ExchangeID (orders p)))
      by (apply in_map; exact Hold).
    apply I2 in Hj. lia.
  - rewrite List.Forall_forall in I2. apply List.Forall_forall. intros old Hold.
    apply I2. apply in_map. exact Hold.
  - exact S'.
  - clear -S'. induction S' as [|x xs _ IH Hx]; constructor; [|exact IH].
    intros Hin. apply list_elem_of_In in Hin.
    rewrite List.Forall_forall in Hx. apply Hx in Hin. lia.
Qed.

End WithPairs.

End IdFacts.

(** ** Balances without short positions *)

Module LongOnlyFacts.
Import Wallet Ops NumFacts FrameFacts IdFacts LongOnly.
Local Open Scope Q_scope.

Lemma freeOf_setFree k v p k' :
  freeOf (setFree k v p) k' = if decide (k = k') then v else freeOf p k'.
Proof.
  unfold assetAt, setFree. simpl.
  destruct (decide (k = k')) as [->|N].
  - now rewrite lookup_insert_eq.
  - now rewrite lookup_insert_ne.
Qed.

Lemma lockOf_setFree k v p k' : lockOf (setFree k v p) k' = lockOf p k'.
Proof.
  unfold assetAt, setFree. simpl.
  destruct (decide (k = k')) as [->|N].
  - now rewrite lookup_insert_eq.
  - now rewrite lookup_insert_ne.
Qed.

Lemma freeOf_setLock k v p k' : freeOf (setLock k v p) k' = freeOf p k'.
Proof.
  unfold assetAt, setLock. simpl.
  destruct (decide (k = k')) as [->|N].
  - now rewrite lookup_insert_eq.
  - now rewrite lookup_insert_ne.
Qed.

Lemma lockOf_setLock k v p k' :
  lockOf (setLock k v p) k' = if decide (k = k') then v else lockOf p k'.
Proof.
  unfold assetAt, setLock. simpl.
  destruct (decide (k = k')) as [->|N].
  - now rewrite lookup_insert_eq.
  - now rewrite lookup_insert_ne.
Qed.

Lemma assetAt_ensureAsset k p k' : assetAt (ensureAsset k p) k' = assetAt p k'.
Proof. destruct (ensureAsset_frame k p) as (B & _). apply B. Qed.

Lemma Min_cases x y :
  (x <= y /\ Min x y = x) \/ (y < x /\ Min x y = y).
Proof.
  unfold Min. destruct (leb x y) eqn:E.
  - left. apply leb_le in E. auto.
  - right. apply leb_gt in E. auto.
Qed.

Lemma Max_cases x y :
  (x <= y /\ Max x y = y) \/ (y < x /\ Max x y = x).
Proof.
  unfold Max. destruct (leb x y) eqn:E.
  - left. apply leb_le in E. auto.
  - right. apply leb_gt in E. auto.
Qed.

(** *** Sums over the log *)

Lemma sumOn_app f l l' : sumOn f (l ++ l') == sumOn f l + sumOn f l'.
Proof.
  induction l as [|o l IH]; simpl; [ring|]. rewrite IH. ring.
Qed.

Lemma sumOn_map f (h : Order -> Order) l :
  sumOn f (map h l) = sumOn (fun o => f (h o)) l.
Proof.
  induction l as [|o l IH]; simpl; [reflexivity|]. now rewrite IH.
Qed.

Lemma sumOn_ext f g l :
  (forall o, In o l -> f o == g o) -> sumOn f l == sumOn g l.
Proof.
  induction l as [|o l IH]; simpl; intros H; [reflexivity|].
  rewrite (H o) by auto. rewrite IH by auto. reflexivity.
Qed.

Lemma sumOn_le f g l :
  (forall o, In o l -> g o <= f o) -> sumOn g l <= sumOn f l.
Proof.
  induction l as [|o l IH]; simpl; intros H; [lra|].
  pose proof (H o (or_introl eq_refl)). specialize (IH ltac:(auto)). lra.
Qed.

(** If [g] is below [f] everywhere and below it by [c] at one order of the
    list, the sums differ by [c] at least. *)
Lemma sumOn_drop f g l o c :
  In o l -> (forall x, In x l -> g x <= f x) -> g o <= f o - c ->
  sumOn g l <= sumOn f l - c.
Proof.
  induction l as [|x l IH]; simpl; intros Hin Hle Hc; [contradiction|].
  destruct Hin as [->|Hin].
  - pose proof (sumOn_le f g l ltac:(auto)). lra.
  - pose proof (Hle x (or_introl eq_refl)). specialize (IH Hin ltac:(auto) Hc).
    lra.
Qed.

(** *** Orders that only change status *)

Lemma settles_fields o o' :
  settles o o' ->
  ExchangeID o' = ExchangeID o /\ Pair o' = Pair o /\ Side o' = Side o /\
  Type_ o' = Type_ o /\ Price o' = Price o /\ Quantity o' = Quantity o /\
  Stop o' = Stop o /\ GroupID o' = GroupID o.
Proof.
  intros [E _]. rewrite <- E. simpl. repeat split.
Qed.

Lemma settles_refl o : settles o o.
Proof. split; [now destruct o | auto]. Qed.

Lemma settles_inGroup g o o' : settles o o' -> inGroup g o' = inGroup g o.
Proof.
  intros H. apply settles_fields in H as (_ & _ & _ & _ & _ & _ & _ & E).
  unfold inGroup. now rewrite E.
Qed.

Section Settling.
Variable h : Order -> Order.
Hypothesis Hh : forall o, settles o (h o).

Lemma live_settled l g : live (map h l) g = true -> live l g = true.
Proof.
  unfold live. rewrite !existsb_exists. intros (x & Hx & Hc).
  apply in_map_iff in Hx as (o & <- & Ho). exists o. split; [exact Ho|].
  apply andb_true_iff in Hc as [Hg Hn]. apply andb_true_iff. split.
  - now rewrite <- (settles_inGroup g o (h o) (Hh o)).
  - now apply (Hh o).
Qed.

Lemma holds_settled l o : holds (map h l) (h o) = true -> holds l o = true.
Proof.
  unfold holds.
  destruct (settles_fields o (h o) (Hh o)) as (_ & _ & _ & Et & _ & _ & _ & Eg).
  rewrite Eg, Et. destruct (GroupID o) as [g|].
  - intros H. apply andb_true_iff in H as [H1 H2]. apply andb_true_iff.
    split; [exact H1|]. now apply live_settled.
  - apply (Hh o).
Qed.

Lemma legs_settled g l : legs g (map h l) = map h (legs g l).
Proof.
  unfold legs. induction l as [|o l IH]; simpl; [reflexivity|].
  rewrite (settles_inGroup g o (h o) (Hh o)).
  destruct (inGroup g o); simpl; now rewrite IH.
Qed.

Lemma ids_settled l : map ExchangeID (map h l) = map ExchangeID l.
Proof.
  rewrite map_map. apply map_ext. intros o.
  apply (settles_fields o (h o) (Hh o)).
Qed.

End Settling.


Lemma wfOrder_settled o o' : settles o o' -> wfOrder o -> wfOrder o'.
Proof.
  intros H (Hq & Hp & Hg & Hs).
  destruct (settles_fields o o' H) as (_ & _ & Es & Et & Ep & Eq & Est & Eg).
  unfold wfOrder. rewrite Eq, Ep, Eg, Es, Et, Est. auto.
Qed.

Lemma groupOk_settled h l g :
  (forall o, settles o (h o)) -> groupOk l g -> groupOk (map h l) g.
Proof.
  intros Hh [E|(lim & stp & E & Ht & Hp & Hq)]; unfold groupOk;
    rewrite (legs_settled h Hh), E; simpl; [now left|].
  right. exists (h lim), (h stp). split; [reflexivity|].
  destruct (settles_fields lim (h lim) (Hh lim)) as (_ & Ep & _ & Et & _ & Eq & _).
  destruct (settles_fields stp (h stp) (Hh stp)) as (_ & Ep' & _ & _ & _ & Eq' & _).
  rewrite Et, Ep, Ep', Eq, Eq'. auto.
Qed.

(** *** The log after a fill *)

Lemma settle_settles t exid group o : settles o (settle t exid group o).
Proof.
  unfold settle, settles.
  destruct (ExchangeID o =? exid)%Z; [split; [now destruct o | discriminate]|].
  destruct group as [g|]; [|apply settles_refl].
  destruct (GroupID o) as [g'|]; [|apply settles_refl].
  destruct (g' =? g)%Z; [|apply settles_refl].
  split; [now destruct o | discriminate].
Qed.

Lemma sorted_ids_head x l :
  StronglySorted Z.lt (map ExchangeID (x :: l)) ->
  StronglySorted Z.lt (map ExchangeID l) /\
  forall y, In y l -> (ExchangeID x < ExchangeID y)%Z.
Proof.
  simpl. intros H. apply StronglySorted_inv in H as [Hs Hf]. split; [exact Hs|].
  intros y Hy. rewrite List.Forall_forall in Hf. apply Hf.
  now apply in_map.
Qed.

(** With distinct exchange ids, updating the order at index [i] is updating
    the order with its id. *)
Lemma alter_by_id f l : forall i o,
  StronglySorted Z.lt (map ExchangeID l) -> l !! i = Some o ->
  alter f i l
  = map (fun x => if (ExchangeID x =? ExchangeID o)%Z then f x else x) l.
Proof.
  induction l as [|x l IH]; intros [|i] o Hs Hi; try discriminate.
  - injection Hi as ->. apply sorted_ids_head in Hs as [_ Hlt].
    simpl. rewrite Z.eqb_refl. f_equal.
    rewrite <- (map_id l) at 1. apply map_ext_in. intros y Hy.
    specialize (Hlt y Hy). now rewrite (proj2 (Z.eqb_neq _ _)) by lia.
  - apply sorted_ids_head in Hs as [Hs Hlt]. simpl in Hi.
    assert (Ho : In o l).
    { apply list_elem_of_In. eapply list_elem_of_lookup_2. exact Hi. }
    specialize (Hlt o Ho). simpl.
    rewrite (proj2 (Z.eqb_neq _ _)) by lia. f_equal. now apply IH.
Qed.

Lemma cancelGroup_step gid exid t o rest :
  Engine.cancelGroup gid exid t (o :: rest)
  = if sibling gid exid o then canceledAt t o :: rest
    else o :: Engine.cancelGroup gid exid t rest.
Proof.
  simpl. unfold sibling, inGroup. destruct (GroupID o) as [g|].
  - destruct (Z.eqb_spec g gid) as [->|N].
    + now rewrite bool_decide_eq_true_2.
    + rewrite bool_decide_eq_false_2 by congruence. reflexivity.
  - now rewrite bool_decide_eq_false_2.
Qed.

(** [cancelGroup] stops at the first sibling; when there is one sibling at
    most, that cancels every sibling. *)
Lemma cancelGroup_by_group gid exid t l :
  (length (List.filter (sibling gid exid) l) <= 1)%nat ->
  Engine.cancelGroup gid exid t l
  = map (fun o => if sibling gid exid o then canceledAt t o else o) l.
Proof.
  induction l as [|o l IH]; intros H; [reflexivity|].
  rewrite cancelGroup_step. cbn [map List.filter] in *.
  destruct (sibling gid exid o).
  - f_equal. simpl in H.
    assert (E : List.filter (sibling gid exid) l = [])
      by (destruct (List.filter _ l); [reflexivity | simpl in H; lia]).
    rewrite <- (map_id l) at 1. apply map_ext_in. intros y Hy.
    destruct (sibling gid exid y) eqn:Ey; [|reflexivity].
    assert (Hin : In y (List.filter (sibling gid exid) l))
      by (apply filter_In; auto).
    rewrite E in Hin. contradiction.
  - f_equal. now apply IH.
Qed.

Lemma siblings_of_leg l g o :
  groupOk l g -> In o l -> GroupID o = Some g ->
  (length (List.filter (sibling g (ExchangeID o)) l) <= 1)%nat.
Proof.
  intros Hg Ho Hgo.
  assert (E : List.filter (sibling g (ExchangeID o)) l
              = List.filter (fun x => negb (ExchangeID x =? ExchangeID o)%Z)
                            (legs g l)).
  { unfold legs, sibling. clear. induction l as [|x l IH]; simpl; [reflexivity|].
    destruct (inGroup g x); simpl; rewrite IH; reflexivity. }
  assert (Hl : In o (legs g l)).
  { apply filter_In. split; [exact Ho|]. unfold inGroup.
    now apply bool_decide_eq_true_2. }
  rewrite E. destruct Hg as [E0|(lim & stp & E2 & _)].
  - rewrite E0 in Hl. contradiction.
  - rewrite E2 in Hl |- *. simpl in Hl. destruct Hl as [->|[->|[]]]; simpl;
      rewrite Z.eqb_refl; simpl.
    + destruct (negb _); simpl; lia.
    + destruct (negb _); simpl; lia.
Qed.

(** The log after the order at index [i] has filled. *)
Lemma filled_log t l i o :
  StronglySorted Z.lt (map ExchangeID l) -> l !! i = Some o ->
  (forall g, groupOk l g) ->
  alter (fun x => setStatus OrderStatusTypeFilled (setUpdatedAt t x)) i
        match GroupID o with
        | Some gid => Engine.cancelGroup gid (ExchangeID o) t l
        | None => l
        end
  = map (settle t (ExchangeID o) (GroupID o)) l.
Proof.
  intros Hs Hi Hg.
  assert (Ho : In o l).
  { apply list_elem_of_In. eapply list_elem_of_lookup_2. exact Hi. }
  destruct (GroupID o) as [g|] eqn:Eg.
  - rewrite (cancelGroup_by_group g (ExchangeID o) t l)
      by (apply siblings_of_leg; auto).
    set (c := fun x => if sibling g (ExchangeID o) x then canceledAt t x else x).
    assert (Hc : forall x, ExchangeID (c x) = ExchangeID x)
      by (intros x; unfold c; now destruct (sibling _ _ x)).
    assert (Hco : c o = o).
    { unfold c, sibling. rewrite Z.eqb_refl. simpl. now rewrite andb_false_r. }
    rewrite (alter_by_id _ (map c l) i o).
    + rewrite map_map. apply map_ext. intros x. rewrite Hc.
      unfold settle, c, sibling, inGroup.
      destruct (ExchangeID x =? ExchangeID o)%Z; simpl.
      * now rewrite andb_false_r.
      * rewrite andb_true_r. destruct (GroupID x) as [g'|].
        -- destruct (Z.eqb_spec g' g) as [->|N].
           ++ now rewrite bool_decide_eq_true_2.
           ++ rewrite bool_decide_eq_false_2 by congruence. reflexivity.
        -- now rewrite bool_decide_eq_false_2.
    + rewrite map_map. erewrite map_ext; [exact Hs|]. intros x. apply Hc.
    + rewrite list_lookup_fmap, Hi. simpl. now rewrite Hco.
  - rewrite (alter_by_id _ l i o Hs Hi). apply map_ext. intros x.
    unfold settle. destruct (ExchangeID x =? ExchangeID o)%Z; reflexivity.
Qed.

Lemma live_after_fill t exid g l :
  live (map (settle t exid (Some g)) l) g = false.
Proof.
  unfold live. apply not_true_is_false. rewrite existsb_exists.
  intros (x & Hx & Hc). apply in_map_iff in Hx as (o & <- & _).
  apply andb_true_iff in Hc as [Hg Hn].
  rewrite (settles_inGroup g o _ (settle_settles t exid (Some g) o)) in Hg.
  unfold inGroup in Hg. apply bool_decide_eq_true in Hg.
  unfold settle in Hn. rewrite Hg, Z.eqb_refl in Hn.
  destruct (_ =? exid)%Z; discriminate Hn.
Qed.

Section WithPairs.
Variable SplitAssetQuote : string -> string * string.
Variable AmountToLotSize : Q -> Z -> Q -> Q.

Local Abbreviation validateFunds := (Engine.validateFunds SplitAssetQuote).
Local Abbreviation updateAveragePrice := (Engine.updateAveragePrice SplitAssetQuote).

Lemma assetAt_updateAveragePrice s pr a v p k :
  assetAt (updateAveragePrice s pr a v p) k = assetAt p k.
Proof.
  unfold assetAt.
  destruct (updateAveragePrice_frame SplitAssetQuote s pr a v p) as (_ & _ & -> & _).
  reflexivity.
Qed.

Create Rewrite HintDb balances.
Hint Rewrite freeOf_setFree lockOf_setFree freeOf_setLock lockOf_setLock
  assetAt_ensureAsset assetAt_updateAveragePrice : balances.

Ltac balances :=
  autorewrite with balances; repeat case_decide; simplify_eq; try lra.

(** The effect on the balances of a successful [validateFunds] for a sell
    within the free quantity of the asset. *)
Lemma validateFunds_sell_covered pr amount value fill p w :
  0 < amount -> 0 <= value ->
  amount <= freeOf p (SplitAssetQuote pr).1 ->
  validateFunds SideTypeSell pr amount value fill p = (w, None) ->
  forall k,
    freeOf w k ==
      freeOf p k
      - (if decide ((SplitAssetQuote pr).1 = k) then amount else 0)
      + (if fill then if decide ((SplitAssetQuote pr).2 = k)
                      then amount * value else 0 else 0) /\
    lockOf w k ==
      lockOf p k
      + (if fill then 0
         else if decide ((SplitAssetQuote pr).1 = k) then amount else 0).
Proof.
  intros Ha Hv Hc. unfold Engine.validateFunds.
  destruct (SplitAssetQuote pr) as [asset quote]. simpl in Hc |- *.
  set (p0 := ensureAsset quote (ensureAsset asset p)).
  assert (B0 : forall k, assetAt p0 k = assetAt p k).
  { intros k. unfold p0. now rewrite !assetAt_ensureAsset. }
  destruct (ltb _ (amount * value)); [discriminate|].
  set (lA := Min (Max (freeOf p0 asset) 0) amount).
  assert (HlA : lA == amount).
  { unfold lA. rewrite B0.
    destruct (Max_cases (freeOf p asset) 0) as [[? ->]|[? ->]];
      destruct (Min_cases 0 amount) as [[? ?]|[? ?]];
      destruct (Min_cases (freeOf p asset) amount) as [[? ?]|[? ?]];
      try lra; try (rewrite H1; lra); try (rewrite H3; lra). }
  set (lQ := (amount - lA) * value).
  assert (HlQ : lQ == 0) by (unfold lQ; rewrite HlA; ring).
  assert (G : gtb lQ 0 = false) by (apply gtb_le; lra).
  rewrite G. clearbody lA lQ.
  destruct fill; intros [= <-] k; split; balances; rewrite ?B0; balances.
Qed.


(** The same for a buy while the asset is not held short. *)
Lemma validateFunds_buy_long pr amount value fill p w :
  0 < amount ->
  0 <= freeOf p (SplitAssetQuote pr).1 ->
  validateFunds SideTypeBuy pr amount value fill p = (w, None) ->
  amount * value <= freeOf p (SplitAssetQuote pr).2 /\
  forall k,
    freeOf w k ==
      freeOf p k
      + (if fill then if decide ((SplitAssetQuote pr).1 = k)
                      then amount else 0 else 0)
      - (if decide ((SplitAssetQuote pr).2 = k) then amount * value else 0) /\
    lockOf w k ==
      lockOf p k
      + (if fill then 0
         else if decide ((SplitAssetQuote pr).2 = k) then amount * value else 0).
Proof.
  intros Ha Hc. unfold Engine.validateFunds.
  destruct (SplitAssetQuote pr) as [asset quote]. simpl in Hc |- *.
  set (p0 := ensureAsset quote (ensureAsset asset p)).
  assert (B0 : forall k, assetAt p0 k = assetAt p k).
  { intros k. unfold p0. now rewrite !assetAt_ensureAsset. }
  assert (Hn : ltb (freeOf p0 asset) 0 = false)
    by (apply ltb_ge; rewrite B0; lra).
  rewrite Hn.
  destruct (ltb _ (amount * value)) eqn:Hf; [discriminate|].
  apply ltb_ge in Hf. rewrite B0 in Hf.
  set (lA := Min (- Min (freeOf p0 asset) 0) amount).
  assert (HlA : lA == 0).
  { unfold lA. rewrite B0.
    destruct (Min_cases (freeOf p asset) 0) as [[? ->]|[? ->]];
      [destruct (Min_cases (- freeOf p asset) amount) as [[? ->]|[? ->]]
      |destruct (Min_cases (- 0) amount) as [[? ->]|[? ->]]]; lra. }
  set (lQ := (amount - lA) * value - 0).
  assert (HlQ : lQ == amount * value) by (unfold lQ; rewrite HlA; ring).
  clearbody lA lQ.
  destruct fill; intros [= <-]; (split; [exact Hf|]); intros k; split;
    balances; rewrite ?B0; balances.
Qed.

(** *** Reservations *)

Local Abbreviation amount := (amount SplitAssetQuote).
Local Abbreviation reservedIn := (reservedIn SplitAssetQuote).
Local Abbreviation reservedSum := (reservedSum SplitAssetQuote).
Local Abbreviation Inv := (Inv SplitAssetQuote).

Lemma amount_nonneg k o : wfOrder o -> 0 <= amount k o.
Proof.
  intros (Hq & Hp & _). unfold LongOnly.amount.
  destruct (Side o); destruct (bool_decide _); try lra.
  apply Qmult_le_0_compat; assumption.
Qed.

Lemma amount_settled k o o' : settles o o' -> amount k o' = amount k o.
Proof.
  intros H.
  destruct (settles_fields o o' H) as (_ & Epr & Es & _ & Ep & Eq & _).
  unfold LongOnly.amount. now rewrite Es, Epr, Ep, Eq.
Qed.

Lemma reservedIn_nonneg l k o : wfOrder o -> 0 <= reservedIn l k o.
Proof.
  intros W. unfold LongOnly.reservedIn. destruct (holds l o); [|lra].
  now apply amount_nonneg.
Qed.

Lemma reservedSum_nonneg k l : Forall wfOrder l -> 0 <= reservedSum k l.
Proof.
  intros W. unfold LongOnly.reservedSum.
  assert (H : sumOn (fun _ => 0) l <= sumOn (reservedIn l k) l).
  { apply sumOn_le. intros o Ho. apply reservedIn_nonneg.
    rewrite List.Forall_forall in W. auto. }
  assert (Z0 : sumOn (fun _ => 0) l == 0).
  { clear. induction l as [|o l IH]; simpl; [reflexivity|]. rewrite IH. ring. }
  lra.
Qed.

Lemma reservedIn_settled h l k o :
  (forall o, settles o (h o)) -> wfOrder o ->
  reservedIn (map h l) k (h o) <= reservedIn l k o.
Proof.
  intros Hh W. unfold LongOnly.reservedIn.
  rewrite (amount_settled k o (h o) (Hh o)).
  pose proof (amount_nonneg k o W).
  destruct (holds (map h l) (h o)) eqn:E.
  - rewrite (holds_settled h Hh l o E). lra.
  - destruct (holds l o); lra.
Qed.

(** Settling orders never raises the reservations. *)
Lemma reservedSum_settled h l k :
  (forall o, settles o (h o)) -> Forall wfOrder l ->
  reservedSum k (map h l) <= reservedSum k l.
Proof.
  intros Hh W. unfold LongOnly.reservedSum. rewrite sumOn_map.
  apply sumOn_le. intros o Ho. apply reservedIn_settled; [exact Hh|].
  rewrite List.Forall_forall in W. auto.
Qed.

(** If moreover the order [o] held a reservation before and none does for
    it after, the reservations drop by its amount. *)
Lemma reservedSum_released h l k o :
  (forall o, settles o (h o)) -> Forall wfOrder l ->
  In o l -> holds l o = true -> holds (map h l) (h o) = false ->
  reservedSum k (map h l) <= reservedSum k l - amount k o.
Proof.
  intros Hh W Ho H1 H2. unfold LongOnly.reservedSum. rewrite sumOn_map.
  apply (sumOn_drop _ _ l o); [exact Ho| |].
  - intros x Hx. apply reservedIn_settled; [exact Hh|].
    rewrite List.Forall_forall in W. auto.
  - unfold LongOnly.reservedIn. rewrite H1, H2. lra.
Qed.


Lemma In_legs g l o : In o (legs g l) <-> In o l /\ GroupID o = Some g.
Proof.
  unfold legs. rewrite filter_In. unfold inGroup.
  now rewrite bool_decide_eq_true.
Qed.

(** A fill releases what the filled order had reserved: its own
    reservation, or the one it shares with the other leg of its group. *)
Lemma reservedSum_filled t l o k :
  Forall wfOrder l -> (forall g, groupOk l g) -> In o l -> isNew o = true ->
  reservedSum k (map (settle t (ExchangeID o) (GroupID o)) l)
  <= reservedSum k l - amount k o.
Proof.
  intros W G Ho Hn.
  assert (Hh : forall x, settles x (settle t (ExchangeID o) (GroupID o) x))
    by (intros x; apply settle_settles).
  destruct (GroupID o) as [g|] eqn:Eg.
  - assert (Hol : In o (legs g l)) by (apply In_legs; auto).
    destruct (G g) as [E0|(lim & stp & E2 & Ht & Hp & Hq)];
      [rewrite E0 in Hol; contradiction|].
    assert (Hlim : In lim l /\ GroupID lim = Some g)
      by (apply In_legs; rewrite E2; simpl; auto).
    assert (Hstp : In stp l /\ GroupID stp = Some g)
      by (apply In_legs; rewrite E2; simpl; auto).
    rewrite List.Forall_forall in W.
    assert (Ha : amount k lim = amount k o).
    { rewrite E2 in Hol. destruct Hol as [->|[<-|[]]]; [reflexivity|].
      destruct (W lim (proj1 Hlim)) as (_ & _ & Sl & _).
      destruct (W stp (proj1 Hstp)) as (_ & _ & Ss & _).
      unfold LongOnly.amount. rewrite Sl, Ss, Hp, Hq; [reflexivity|..];
        destruct Hlim as [_ ->] || destruct Hstp as [_ ->]; discriminate. }
    rewrite <- Ha. apply reservedSum_released; auto.
    + now apply List.Forall_forall.
    + tauto.
    + unfold holds. destruct Hlim as [_ ->]. rewrite Ht.
      rewrite bool_decide_eq_true_2 by reflexivity. simpl.
      unfold live. apply existsb_exists. exists o. split; [exact Ho|].
      rewrite Hn, andb_true_r. unfold inGroup. now apply bool_decide_eq_true_2.
    + unfold holds.
      destruct (settles_fields lim _ (Hh lim)) as (_ & _ & _ & _ & _ & _ & _ & ->).
      destruct Hlim as [_ ->]. rewrite live_after_fill. apply andb_false_r.
  - apply reservedSum_released; auto.
    + unfold holds. now rewrite Eg.
    + unfold holds.
      destruct (settles_fields o _ (Hh o)) as (_ & _ & _ & _ & _ & _ & _ & ->).
      rewrite Eg. unfold settle. now rewrite Z.eqb_refl.
Qed.

(** *** Appending orders to the log *)

Lemma live_app l l' g : live (l ++ l') g = live l g || live l' g.
Proof. apply existsb_app. Qed.

Lemma legs_app g l l' : legs g (l ++ l') = legs g l ++ legs g l'.
Proof. apply List.filter_app. Qed.

(** Orders appended with groups of their own leave the reservations of the
    log alone. *)
Lemma reservedSum_app k l new :
  (forall o g, In o l -> GroupID o = Some g -> live new g = false) ->
  reservedSum k (l ++ new)
  == reservedSum k l + sumOn (reservedIn (l ++ new) k) new.
Proof.
  intros Hd. unfold LongOnly.reservedSum. rewrite sumOn_app.
  apply Qplus_inj_r. apply sumOn_ext. intros o Ho.
  unfold LongOnly.reservedIn, holds.
  destruct (GroupID o) as [g|] eqn:Eg; [|reflexivity].
  now rewrite live_app, (Hd o g Ho Eg), orb_false_r.
Qed.

Lemma reservedSum_append_single k l o :
  GroupID o = None ->
  reservedSum k (l ++ [o])
  == reservedSum k l + (if isNew o then amount k o else 0).
Proof.
  intros Eg. rewrite reservedSum_app.
  - simpl. unfold LongOnly.reservedIn, holds. rewrite Eg. ring.
  - intros x g _ _. unfold live, inGroup. simpl. rewrite Eg.
    now rewrite bool_decide_eq_false_2.
Qed.

Lemma groupOk_append_single l o g :
  GroupID o = None -> groupOk l g -> groupOk (l ++ [o]) g.
Proof.
  intros Eg H. unfold groupOk. rewrite legs_app.
  assert (E : legs g [o] = []).
  { unfold legs, inGroup. simpl. rewrite Eg.
    now rewrite bool_decide_eq_false_2. }
  rewrite E, app_nil_r. exact H.
Qed.

Lemma legs_fresh g l :
  (forall o, In o l -> GroupID o <> Some g) -> legs g l = [].
Proof.
  intros H. destruct (legs g l) as [|x r] eqn:E; [reflexivity|].
  assert (Hx : In x (legs g l)) by (rewrite E; simpl; auto).
  apply In_legs in Hx as [Hx Hg]. now destruct (H x Hx).
Qed.

Lemma reservedSum_append_group k l lim stp g :
  GroupID lim = Some g -> GroupID stp = Some g ->
  (forall o, In o l -> GroupID o <> Some g) ->
  Type_ lim = OrderTypeLimitMaker -> Type_ stp <> OrderTypeLimitMaker ->
  isNew lim = true ->
  reservedSum k (l ++ [lim; stp]) == reservedSum k l + amount k lim.
Proof.
  intros El Es Hf Tl Ts Nl. rewrite reservedSum_app.
  - simpl. unfold LongOnly.reservedIn, holds. rewrite El, Es, Tl.
    rewrite (bool_decide_eq_true_2 (OrderTypeLimitMaker = OrderTypeLimitMaker))
      by reflexivity.
    rewrite (bool_decide_eq_false_2 _ Ts). cbn [andb].
    assert (L : live (l ++ [lim; stp]) g = true).
    { rewrite live_app. apply orb_true_iff. right. unfold live. simpl.
      unfold inGroup. rewrite El, Nl.
      now rewrite bool_decide_eq_true_2. }
    rewrite L. ring.
  - intros o g' Ho Eg. unfold live, inGroup. simpl. rewrite El, Es.
    assert (N : Some g <> Some g') by (intros [= ->]; now apply (Hf o Ho)).
    now rewrite (bool_decide_eq_false_2 _ N).
Qed.

Lemma groupOk_append_group l lim stp g g' :
  GroupID lim = Some g -> GroupID stp = Some g ->
  (forall o, In o l -> GroupID o <> Some g) ->
  Type_ lim = OrderTypeLimitMaker ->
  Pair lim = Pair stp -> Quantity lim = Quantity stp ->
  groupOk l g' -> groupOk (l ++ [lim; stp]) g'.
Proof.
  intros El Es Hf Tl Hp Hq H. unfold groupOk. rewrite legs_app.
  destruct (decide (g' = g)) as [->|N].
  - rewrite (legs_fresh g l Hf). right. exists lim, stp.
    split; [|auto]. unfold legs, inGroup. simpl. rewrite El, Es.
    now rewrite bool_decide_eq_true_2.
  - assert (E : legs g' [lim; stp] = []).
    { unfold legs, inGroup. simpl. rewrite El, Es.
      rewrite bool_decide_eq_false_2 by congruence. reflexivity. }
    rewrite E, app_nil_r. exact H.
Qed.

(** *** The invariant *)

Local Abbreviation buyFilled := (buyFilled SplitAssetQuote).
Local Abbreviation sellFilled := (sellFilled SplitAssetQuote).

Lemma Inv_nonneg p : Inv p -> nonneg p.
Proof.
  intros I k info Hk.
  assert (E : assetAt p k = info) by (unfold assetAt; now rewrite Hk).
  pose proof (inv_free _ p I k) as Hf. pose proof (inv_lock _ p I k) as Hl.
  rewrite E in Hf, Hl.
  pose proof (reservedSum_nonneg k _ (inv_orders _ p I)). split; lra.
Qed.

(** [Inv] looks at the balances, the log, the counter and the last bars
    only. *)
Lemma Inv_frame p p' :
  Inv p ->
  (forall k, assetAt p' k = assetAt p k) ->
  orders p' = orders p -> counter p' = counter p ->
  (forall pr, 0 <= cClose (candleAt (lastCandle p') pr)) ->
  Inv p'.
Proof.
  intros [Hf Hl Ho Hg Hi Hgi Hc] Ea Eo Ec Hc'. split.
  - intros k. rewrite Ea. apply Hf.
  - intros k. rewrite Ea, Eo. apply Hl.
  - now rewrite Eo.
  - intros g. rewrite Eo. apply Hg.
  - unfold IdsInv, ids in *. now rewrite Eo, Ec.
  - now rewrite Eo, Ec.
  - exact Hc'.
Qed.

Lemma Inv_ext p p' :
  Inv p ->
  (forall k, assetAt p' k = assetAt p k) ->
  orders p' = orders p -> counter p' = counter p ->
  lastCandle p' = lastCandle p ->
  Inv p'.
Proof.
  intros I Ea Eo Ec El. apply (Inv_frame p); auto.
  intros pr. rewrite El. apply (inv_close _ p I).
Qed.

(** Settling orders keeps the invariant when the balances allow it. *)
Lemma Inv_settled p p' h :
  Inv p -> (forall o, settles o (h o)) ->
  orders p' = map h (orders p) -> counter p' = counter p ->
  lastCandle p' = lastCandle p ->
  (forall k, 0 <= freeOf p' k) ->
  (forall k, reservedSum k (orders p') <= lockOf p' k) ->
  Inv p'.
Proof.
  intros [Hf Hl Ho Hg Hi Hgi Hc] Hh Eo Ec El Hf' Hl'. split; auto.
  - rewrite Eo. apply List.Forall_forall. intros x Hx.
    apply in_map_iff in Hx as (o & <- & Hin).
    apply (wfOrder_settled o); [apply Hh|].
    rewrite List.Forall_forall in Ho. auto.
  - intros g. rewrite Eo. now apply groupOk_settled.
  - unfold IdsInv, ids in *. now rewrite Eo, Ec, (ids_settled h Hh).
  - rewrite Eo, Ec. apply List.Forall_forall. intros x Hx.
    apply in_map_iff in Hx as (o & <- & Hin).
    destruct (settles_fields o (h o) (Hh o)) as (_ & _ & _ & _ & _ & _ & _ & ->).
    rewrite List.Forall_forall in Hgi. intros g Eg. exact (Hgi o Hin g Eg).
  - intros pr. rewrite El. apply Hc.
Qed.

(** A successful reservation or immediate fill that opens no short keeps the
    invariant, whatever orders [new] are appended to record it. *)
Lemma Inv_after_validate p w side pr amt value fill new p' :
  Inv p -> 0 < amt -> 0 <= value ->
  (side = SideTypeSell -> amt <= freeOf p (SplitAssetQuote pr).1) ->
  validateFunds side pr amt value fill p = (w, None) ->
  (forall k, assetAt p' k = assetAt w k) ->
  lastCandle p' = lastCandle p ->
  orders p' = orders p ++ new ->
  IdsInv p' -> (counter p <= counter p')%Z ->
  Forall wfOrder new ->
  (forall g, groupOk (orders p ++ new) g) ->
  Forall (fun o => forall g, GroupID o = Some g -> (g <= counter p')%Z) new ->
  (forall k, reservedSum k (orders p ++ new)
             == reservedSum k (orders p)
                + if fill then 0
                  else match side with
                       | SideTypeSell =>
                         if decide ((SplitAssetQuote pr).1 = k) then amt else 0
                       | SideTypeBuy =>
                         if decide ((SplitAssetQuote pr).2 = k)
                         then value * amt else 0
                       end) ->
  Inv p'.
Proof.
  intros [Hf Hl Ho Hg Hi Hgi Hc] Ha Hv Hcov Hvf Ea Ec Eo Hi' Hcnt Wn Gn Gi Hr.
  assert (Hav : 0 <= amt * value)
    by (apply Qmult_le_0_compat; lra).
  assert (Hbuy : side = SideTypeBuy ->
    amt * value <= freeOf p (SplitAssetQuote pr).2 /\
    forall k,
      freeOf w k ==
        freeOf p k
        + (if fill then if decide ((SplitAssetQuote pr).1 = k)
                        then amt else 0 else 0)
        - (if decide ((SplitAssetQuote pr).2 = k) then amt * value else 0) /\
      lockOf w k ==
        lockOf p k
        + (if fill then 0
           else if decide ((SplitAssetQuote pr).2 = k)
                then amt * value else 0)).
  { intros ->. apply validateFunds_buy_long; auto. }
  assert (Hsell : side = SideTypeSell ->
    forall k,
      freeOf w k ==
        freeOf p k
        - (if decide ((SplitAssetQuote pr).1 = k) then amt else 0)
        + (if fill then if decide ((SplitAssetQuote pr).2 = k)
                        then amt * value else 0 else 0) /\
      lockOf w k ==
        lockOf p k
        + (if fill then 0
           else if decide ((SplitAssetQuote pr).1 = k) then amt else 0)).
  { intros ->. apply validateFunds_sell_covered; auto. }
  clear Hvf. destruct (SplitAssetQuote pr) as [asset quote]. simpl in *.
  split.
  - intros k. rewrite Ea. destruct side.
    + destruct (Hbuy eq_refl) as (Hle & E). destruct (E k) as [-> _].
      pose proof (Hf k). pose proof (Hf quote).
      destruct fill; repeat case_decide; subst; lra.
    + destruct (Hsell eq_refl k) as [-> _].
      specialize (Hcov eq_refl).
      pose proof (Hf k). pose proof (Hf asset).
      destruct fill; repeat case_decide; subst; lra.
  - intros k. rewrite Ea, Eo, (Hr k).
    specialize (Hl k). destruct side.
    + destruct (Hbuy eq_refl) as (Hle & E). destruct (E k) as [_ ->].
      destruct fill; repeat case_decide; lra.
    + destruct (Hsell eq_refl k) as [_ ->].
      destruct fill; repeat case_decide; lra.
  - rewrite Eo. apply Forall_app. split; [exact Ho | exact Wn].
  - intros g. rewrite Eo. apply Gn.
  - exact Hi'.
  - rewrite Eo. apply Forall_app. split; [|exact Gi].
    eapply Forall_impl; [exact Hgi|]. intros o H g Eg. specialize (H g Eg). lia.
  - intros pr'. rewrite Ec. apply Hc.
Qed.

(** The same for one order without group. *)
Lemma Inv_after_single p w side pr amt value fill o p' :
  Inv p -> 0 < amt -> 0 <= value ->
  (side = SideTypeSell -> amt <= freeOf p (SplitAssetQuote pr).1) ->
  validateFunds side pr amt value fill p = (w, None) ->
  (forall k, assetAt p' k = assetAt w k) ->
  lastCandle p' = lastCandle p ->
  orders p' = orders p ++ [o] ->
  IdsInv p' -> (counter p <= counter p')%Z ->
  Side o = side -> Pair o = pr -> Quantity o = amt -> Price o = value ->
  GroupID o = None ->
  Status o = (if fill then OrderStatusTypeFilled else OrderStatusTypeNew) ->
  (Engine.isStopSell (Type_ o) = true -> Stop o = Some value) ->
  Inv p'.
Proof.
  intros I Ha Hv Hcov Hvf Ea Ec Eo Hi' Hcnt Os Op Oq Opr Og Ost Ostop.
  apply (Inv_after_validate p w side pr amt value fill [o] p'); auto.
  - constructor; [|constructor].
    repeat split; try (rewrite ?Oq, ?Opr; lra).
    + rewrite Og. congruence.
    + intros Hs. exists value. split; [auto | exact Hv].
  - intros g. apply groupOk_append_single; [exact Og|].
    apply (inv_groups _ p I).
  - constructor; [|constructor]. intros g. rewrite Og. discriminate.
  - intros k. rewrite (reservedSum_append_single k _ o Og).
    apply Qplus_inj_l. unfold isNew, LongOnly.amount.
    rewrite Ost, Os, Op, Oq, Opr.
    destruct fill; simpl; [reflexivity|].
    destruct side; simpl; unfold bool_decide;
      destruct (decide_rel _ _ _); case_decide; try reflexivity; congruence.
Qed.

Lemma ensureVolume_frame k p :
  assets (ensureVolume k p) = assets p /\
  orders (ensureVolume k p) = orders p /\
  lastCandle (ensureVolume k p) = lastCandle p /\
  counter (ensureVolume k p) = counter p.
Proof. unfold ensureVolume. now destruct (volume p !! k). Qed.

(** Group ids come from the counter: the next one is not in the log. *)
Lemma next_group_fresh p :
  Inv p -> forall o, In o (orders p) -> GroupID o <> Some (counter p + 1)%Z.
Proof.
  intros I o Ho Eg. pose proof (inv_gids _ p I) as H.
  rewrite List.Forall_forall in H. specialize (H o Ho _ Eg). lia.
Qed.

(** An OCO group on the sell side, within the free quantity of the asset. *)
Lemma CreateOrderOCO_Inv pr size price stop stopLimit p p' created :
  Inv p -> (counter p + 3 <= MaxInt64)%Z ->
  0 < size -> 0 <= price -> 0 <= stop -> 0 <= stopLimit ->
  size <= freeOf p (SplitAssetQuote pr).1 ->
  Engine.CreateOrderOCO SplitAssetQuote SideTypeSell pr size price stop
    stopLimit p = (p', inl created) ->
  IdsInv p' -> (counter p <= counter p')%Z ->
  Inv p'.
Proof.
  intros I H3 Hs Hp Hst Hsl Hcov Hpl J1 J2.
  pose proof (inv_ids _ p I) as (I0 & _).
  pose proof (next_group_fresh p I) as Hfresh.
  assert (V := validateFunds_ids SplitAssetQuote SideTypeSell pr size price
                 false p).
  unfold Engine.CreateOrderOCO in Hpl.
  destruct (eqb size 0); [discriminate|].
  destruct (Engine.validateFunds _ _ _ _ _ _ _) as [w [err|]] eqn:Ev;
    [discriminate|].
  simpl in V. destruct V as (V1 & V2 & V3).
  rewrite (ID_small w) in Hpl by lia. cbv beta iota zeta in Hpl.
  rewrite (ID_small (set_counter _ w)) in Hpl by (simpl; lia).
  cbv beta iota zeta in Hpl.
  rewrite (ID_small (set_counter _ (set_counter _ w))) in Hpl by (simpl; lia).
  cbv beta iota zeta in Hpl. injection Hpl as <- <-.
  rewrite <- V2 in Hfresh.
  eapply (Inv_after_validate p w SideTypeSell pr size price false);
    [ exact I | exact Hs | exact Hp | intros _; exact Hcov | exact Ev
    | intros k; reflexivity | exact V3 | simpl; rewrite V1; reflexivity
    | exact J1 | exact J2 | | | | ].
  - constructor; [|constructor; [|constructor]].
    + split; [|split; [|split]]; simpl; [lra | exact Hp | reflexivity |].
      discriminate.
    + split; [|split; [|split]]; simpl; [lra | exact Hsl | reflexivity |].
      intros _. exists stop. split; [reflexivity | exact Hst].
  - intros g.
    apply (groupOk_append_group _ _ _ (counter w + 1)%Z); try reflexivity;
      [exact Hfresh | apply (inv_groups _ p I)].
  - constructor; [|constructor; [|constructor]]; intros g [= <-]; simpl; lia.
  - intros k.
    rewrite (reservedSum_append_group k _ _ _ (counter w + 1)%Z);
      try reflexivity; [|exact Hfresh|discriminate].
    apply Qplus_inj_l. unfold LongOnly.amount. simpl.
    unfold bool_decide. destruct (decide_rel _ _ _); case_decide;
      try reflexivity; congruence.
Qed.

Lemma place_Inv r p p' res :
  Inv p -> (counter p + 3 <= MaxInt64)%Z ->
  covered SplitAssetQuote AmountToLotSize r p ->
  place SplitAssetQuote AmountToLotSize r p = (p', res) ->
  Inv p'.
Proof.
  intros I H3 Hcov Hpl. destruct res as [created|e].
  2:{ apply place_error in Hpl
        as [[_ ->]|(asset & quote & pr & q & _ & ->)]; [exact I|].
      apply (Inv_ext p); auto.
      - intros k. now rewrite !assetAt_ensureAsset.
      - unfold ensureAsset. now repeat case_match.
      - unfold ensureAsset. now repeat case_match.
      - unfold ensureAsset. now repeat case_match. }
  pose proof (inv_close SplitAssetQuote p I) as Hclose.
  pose proof (inv_free SplitAssetQuote p I) as Hfree.
  assert (J : IdsInv p' /\ (counter p <= counter p')%Z).
  { pose proof (inv_ids _ p I) as Hids. pose proof Hids as (I0 & I1 & I2).
    pose proof Hpl as Hc.
    apply place_created in Hc as (Eo & Ec & Es & Ef); [|lia|lia].
    split; [|lia]. apply (IdsInv_append p p' created); auto. lia. }
  destruct J as [J1 J2].
  assert (V := validateFunds_ids SplitAssetQuote).
  destruct r as [side pr size price stop stopLimit | side pr size limit
                | side pr size | side pr qq | pr size limit];
    simpl in Hcov, Hpl;
    [ destruct side; [contradiction|];
      destruct Hcov as (? & ? & ? & ? & ?);
      apply (CreateOrderOCO_Inv pr size price stop stopLimit p p' created);
      assumption
    | | | | ];
    unfold single, Engine.CreateOrderLimit, Engine.CreateOrderMarket,
      Engine.CreateOrderMarketQuote, Engine.createOrderMarket,
      Engine.CreateOrderStop in Hpl;
    (destruct (eqb _ 0); [discriminate Hpl|]);
    match type of Hpl with
    | context [Engine.validateFunds ?S ?s ?pr ?a ?v ?f ?q] =>
      specialize (V s pr a v f q);
      destruct (Engine.validateFunds S s pr a v f q) as [w [err|]] eqn:Ev
    end; simpl in V; destruct V as (V1 & V2 & V3);
    try discriminate Hpl; simpl in Hpl; injection Hpl as <- <-.
  - (* limit *)
    eapply (Inv_after_single p w side pr size limit false);
      [exact I | | | | exact Ev | | | | exact J1 | exact J2 | | | | | | | ];
      [ | | | intros k; reflexivity | exact V3 | simpl; rewrite V1; reflexivity
        | reflexivity .. | simpl; discriminate ].
    + destruct side; tauto.
    + destruct side; tauto.
    + intros ->. tauto.
  - (* market *)
    destruct (ensureVolume_frame pr w) as (A1 & A2 & A3 & A4).
    eapply (Inv_after_single p w side pr size _ true);
      [exact I | | | | exact Ev | | | | exact J1 | exact J2 | | | | | | | ];
      [ | | | intros k; unfold assetAt; simpl; now rewrite A1
        | simpl; now rewrite A3
        | simpl; rewrite A2, V1; reflexivity
        | try reflexivity .. | simpl; discriminate ].
    + destruct side; tauto.
    + apply Hclose.
    + intros ->. tauto.
    + simpl. now rewrite A3, V3.
  - (* market, by quote quantity *)
    destruct (ensureVolume_frame pr w) as (A1 & A2 & A3 & A4).
    fold (marketQuantity AmountToLotSize pr qq p) in Ev |- *.
    eapply (Inv_after_single p w side pr _ _ true);
      [exact I | | | | exact Ev | | | | exact J1 | exact J2 | | | | | | | ];
      [ | | | intros k; unfold assetAt; simpl; now rewrite A1
        | simpl; now rewrite A3
        | simpl; rewrite A2, V1; reflexivity
        | try reflexivity .. | simpl; discriminate ].
    + destruct side; tauto.
    + apply Hclose.
    + intros ->. tauto.
    + simpl. now rewrite A3, V3.
  - (* stop *)
    eapply (Inv_after_single p w SideTypeSell pr size limit false);
      [exact I | | | | exact Ev | | | | exact J1 | exact J2 | | | | | | | ];
      [ | | | intros k; reflexivity | exact V3 | simpl; rewrite V1; reflexivity
        | reflexivity .. | simpl; intros _; reflexivity ]; tauto.
Qed.

(** *** Cancellation and bar arrival *)

Lemma Cancel_Inv order p : Inv p -> Inv (Engine.Cancel order p).
Proof.
  intros I.
  set (h := fun o => if (ExchangeID o =? ExchangeID order)%Z
                     then setStatus OrderStatusTypeCanceled o else o).
  assert (Hh : forall o, settles o (h o)).
  { intros o. unfold h. destruct (_ =? _)%Z; [|apply settles_refl].
    split; [now destruct o | discriminate]. }
  apply (Inv_settled p _ h); try reflexivity; [exact I | exact Hh | |].
  - apply (inv_free _ p I).
  - intros k.
    pose proof (reservedSum_settled h (orders p) k Hh (inv_orders _ p I)) as R.
    pose proof (inv_lock _ p I k) as L.
    change (reservedSum k (map h (orders p)) <= lockOf p k). lra.
Qed.

Lemma lookup_assetAt p k info : assets p !! k = Some info -> info = assetAt p k.
Proof. intros H. unfold assetAt. now rewrite H. Qed.

Lemma assetAt_ensureVolume k p k' : assetAt (ensureVolume k p) k' = assetAt p k'.
Proof.
  unfold assetAt. now destruct (ensureVolume_frame k p) as (-> & _).
Qed.

Lemma orders_ensureVolume k p : orders (ensureVolume k p) = orders p.
Proof. apply ensureVolume_frame. Qed.

Lemma orders_ensureAsset k p : orders (ensureAsset k p) = orders p.
Proof. unfold ensureAsset. now destruct (assets p !! k). Qed.

Lemma orders_updateAveragePrice s pr a v p :
  orders (updateAveragePrice s pr a v p) = orders p.
Proof. apply (updateAveragePrice_frame SplitAssetQuote). Qed.

Lemma lastCandle_ensureVolume k p : lastCandle (ensureVolume k p) = lastCandle p.
Proof. apply ensureVolume_frame. Qed.

Lemma lastCandle_ensureAsset k p : lastCandle (ensureAsset k p) = lastCandle p.
Proof. unfold ensureAsset. now destruct (assets p !! k). Qed.

Lemma lastCandle_updateAveragePrice s pr a v p :
  lastCandle (updateAveragePrice s pr a v p) = lastCandle p.
Proof. apply (updateAveragePrice_frame SplitAssetQuote). Qed.

Lemma assetAt_markFilled t i p k : assetAt (Engine.markFilled t i p) k = assetAt p k.
Proof. reflexivity. Qed.

Lemma assetAt_addVolume k v p k' : assetAt (addVolume k v p) k' = assetAt p k'.
Proof. reflexivity. Qed.

Lemma orders_markFilled t i p :
  orders (Engine.markFilled t i p)
  = alter (fun o => setStatus OrderStatusTypeFilled (setUpdatedAt t o)) i
          (orders p).
Proof. reflexivity. Qed.

Lemma orders_setFree k v p : orders (setFree k v p) = orders p.
Proof. reflexivity. Qed.
Lemma orders_setLock k v p : orders (setLock k v p) = orders p.
Proof. reflexivity. Qed.
Lemma orders_addVolume k v p : orders (addVolume k v p) = orders p.
Proof. reflexivity. Qed.
Lemma lastCandle_setFree k v p : lastCandle (setFree k v p) = lastCandle p.
Proof. reflexivity. Qed.
Lemma lastCandle_setLock k v p : lastCandle (setLock k v p) = lastCandle p.
Proof. reflexivity. Qed.
Lemma lastCandle_addVolume k v p : lastCandle (addVolume k v p) = lastCandle p.
Proof. reflexivity. Qed.
Lemma lastCandle_markFilled t i p :
  lastCandle (Engine.markFilled t i p) = lastCandle p.
Proof. reflexivity. Qed.

Hint Rewrite assetAt_markFilled assetAt_addVolume orders_markFilled
  orders_setFree orders_setLock orders_addVolume lastCandle_setFree
  lastCandle_setLock lastCandle_addVolume lastCandle_markFilled : balances.
Hint Rewrite assetAt_ensureVolume orders_ensureVolume orders_ensureAsset
  orders_updateAveragePrice lastCandle_ensureVolume lastCandle_ensureAsset
  lastCandle_updateAveragePrice : balances.

Lemma counter_ensureVolume k p : counter (ensureVolume k p) = counter p.
Proof. apply ensureVolume_frame. Qed.
Lemma counter_ensureAsset k p : counter (ensureAsset k p) = counter p.
Proof. unfold ensureAsset. now destruct (assets p !! k). Qed.
Lemma counter_updateAveragePrice s pr a v p :
  counter (updateAveragePrice s pr a v p) = counter p.
Proof. apply (updateAveragePrice_frame SplitAssetQuote). Qed.
Lemma counter_markFilled t i p : counter (Engine.markFilled t i p) = counter p.
Proof. reflexivity. Qed.
Lemma counter_setFree k v p : counter (setFree k v p) = counter p.
Proof. reflexivity. Qed.
Lemma counter_setLock k v p : counter (setLock k v p) = counter p.
Proof. reflexivity. Qed.
Lemma counter_addVolume k v p : counter (addVolume k v p) = counter p.
Proof. reflexivity. Qed.
Lemma orders_set_orders l p : orders (set_orders l p) = l.
Proof. reflexivity. Qed.
Lemma counter_set_orders l p : counter (set_orders l p) = counter p.
Proof. reflexivity. Qed.
Lemma assetAt_set_orders l p k : assetAt (set_orders l p) k = assetAt p k.
Proof. reflexivity. Qed.
Lemma lastCandle_set_orders l p : lastCandle (set_orders l p) = lastCandle p.
Proof. reflexivity. Qed.

Hint Rewrite counter_ensureVolume counter_ensureAsset
  counter_updateAveragePrice counter_markFilled counter_setFree
  counter_setLock counter_addVolume orders_set_orders counter_set_orders
  assetAt_set_orders lastCandle_set_orders : balances.

Lemma lookup_In (l : list Order) i o : l !! i = Some o -> In o l.
Proof.
  intros H. apply list_elem_of_In. eapply list_elem_of_lookup_2. exact H.
Qed.

Lemma buyFilled_Inv candle i order asset quote p :
  Inv p -> orders p !! i = Some order ->
  Status order = OrderStatusTypeNew -> Side order = SideTypeBuy ->
  SplitAssetQuote (Pair order) = (asset, quote) ->
  Inv (buyFilled candle i order asset quote p).
Proof.
  intros I Hi Hst Hside Hsp.
  pose proof I as [Hf Hl Ho Hg Hids Hgi Hc].
  assert (Wo : wfOrder order) by (eapply Forall_lookup_1; eauto).
  assert (Hin : In order (orders p)) by (eapply lookup_In; eauto).
  assert (Eg : GroupID order = None).
  { destruct Wo as (_ & _ & Wg & _).
    destruct (GroupID order); [|reflexivity].
    assert (Side order = SideTypeSell) by (apply Wg; discriminate).
    congruence. }
  assert (Elog : orders (buyFilled candle i order asset quote p)
                 = map (settle (cTime candle) (ExchangeID order) None)
                       (orders p)).
  { unfold LongOnly.buyFilled. autorewrite with balances.
    pose proof (filled_log (cTime candle) (orders p) i order
                  (proj1 (proj2 Hids)) Hi Hg) as E.
    rewrite Eg in E. exact E. }
  assert (Hr : forall k, amount k order ==
                         if decide (quote = k) then Price order * Quantity order
                         else 0).
  { intros k. unfold LongOnly.amount. rewrite Hside, Hsp. simpl.
    unfold bool_decide. destruct (decide_rel _ _ _); case_decide;
      try reflexivity; congruence. }
  apply (Inv_settled p _ (settle (cTime candle) (ExchangeID order) None));
    [exact I | intros o; apply settle_settles | exact Elog | | | |].
  - unfold LongOnly.buyFilled. now autorewrite with balances.
  - unfold LongOnly.buyFilled. now autorewrite with balances.
  - intros k. unfold LongOnly.buyFilled. balances; try apply Hf.
    pose proof (Hf k); destruct Wo as (? & _); lra.
  - intros k. rewrite Elog.
    pose proof (reservedSum_filled (cTime candle) (orders p) order k Ho Hg Hin)
      as R.
    rewrite Eg in R. unfold isNew in R. rewrite Hst in R.
    specialize (R eq_refl). rewrite (Hr k) in R. specialize (Hl k).
    unfold LongOnly.buyFilled. autorewrite with balances.
    repeat case_decide; simplify_eq; lra.
Qed.

Lemma sellFilled_Inv candle i order orderPrice asset quote p :
  Inv p -> orders p !! i = Some order ->
  Status order = OrderStatusTypeNew -> Side order = SideTypeSell ->
  SplitAssetQuote (Pair order) = (asset, quote) ->
  0 <= orderPrice ->
  Inv (sellFilled candle i order orderPrice asset quote p).
Proof.
  intros I Hi Hst Hside Hsp Hop.
  pose proof I as [Hf Hl Ho Hg Hids Hgi Hc].
  assert (Wo : wfOrder order) by (eapply Forall_lookup_1; eauto).
  assert (Hin : In order (orders p)) by (eapply lookup_In; eauto).
  assert (Elog : orders (sellFilled candle i order orderPrice asset quote p)
                 = map (settle (cTime candle) (ExchangeID order)
                               (GroupID order))
                       (orders p)).
  { pose proof (filled_log (cTime candle) (orders p) i order
                  (proj1 (proj2 Hids)) Hi Hg) as E.
    unfold LongOnly.sellFilled.
    destruct (GroupID order); autorewrite with balances; exact E. }
  assert (Hr : forall k, amount k order ==
                         if decide (asset = k) then Quantity order else 0).
  { intros k. unfold LongOnly.amount. rewrite Hside, Hsp. simpl.
    unfold bool_decide. destruct (decide_rel _ _ _); case_decide;
      try reflexivity; congruence. }
  assert (Hqp : 0 <= Quantity order * orderPrice).
  { destruct Wo as (? & _). apply Qmult_le_0_compat; assumption. }
  pose proof (fun k =>
    reservedSum_filled (cTime candle) (orders p) order k Ho Hg Hin) as R.
  unfold isNew in R. rewrite Hst in R.
  apply (Inv_settled p _ (settle (cTime candle) (ExchangeID order)
                                 (GroupID order)));
    [exact I | intros o; apply settle_settles | exact Elog | | | |].
  - unfold LongOnly.sellFilled.
    destruct (GroupID order); now autorewrite with balances.
  - unfold LongOnly.sellFilled.
    destruct (GroupID order); now autorewrite with balances.
  - intros k. unfold LongOnly.sellFilled.
    destruct (GroupID order); balances; try apply Hf;
      pose proof (Hf k); lra.
  - intros k. rewrite Elog.
    specialize (R k eq_refl). rewrite (Hr k) in R. specialize (Hl k).
    unfold LongOnly.sellFilled.
    destruct (GroupID order); autorewrite with balances;
      repeat case_decide; simplify_eq; lra.
Qed.

Lemma sellPrice_nonneg order candle orderPrice :
  wfOrder order ->
  Engine.sellPrice order candle = Some (Some orderPrice) ->
  0 <= orderPrice.
Proof.
  intros (_ & Hp & _ & Hs). unfold Engine.sellPrice.
  destruct (_ && _); [intros [= <-]; exact Hp|].
  destruct (Engine.isStopSell (Type_ order)); [|discriminate].
  destruct (Hs eq_refl) as (s & -> & Hs0).
  destruct (leb _ s); [|discriminate]. intros [= <-]. exact Hs0.
Qed.

Lemma onCandleOrder_Inv candle i p p' :
  Inv p ->
  Engine.onCandleOrder SplitAssetQuote candle i p = Some p' ->
  Inv p'.
Proof.
  intros I. unfold Engine.onCandleOrder.
  destruct (orders p !! i) as [order|] eqn:Hi; [|intros [= <-]; exact I].
  destruct (negb (bool_decide (Pair order = cPair candle))
            || negb (bool_decide (Status order = OrderStatusTypeNew))) eqn:Hskip;
    [intros [= <-]; exact I|].
  apply orb_false_elim in Hskip as [_ Hst].
  apply negb_false_iff, bool_decide_eq_true in Hst.
  assert (I0 : Inv (ensureVolume (cPair candle) p)).
  { apply (Inv_ext p); auto; [intros k|..]; now autorewrite with balances. }
  assert (Hi0 : orders (ensureVolume (cPair candle) p) !! i = Some order)
    by now autorewrite with balances.
  assert (Wo : wfOrder order).
  { eapply Forall_lookup_1; [apply (inv_orders SplitAssetQuote p I)|exact Hi]. }
  set (p0 := ensureVolume (cPair candle) p) in *. clearbody p0.
  destruct (SplitAssetQuote (Pair order)) as [asset quote] eqn:Hsp.
  destruct (Side order) eqn:Hside.
  - (* buy *)
    rewrite (bool_decide_eq_true_2 (SideTypeBuy = SideTypeBuy)) by reflexivity.
    rewrite (bool_decide_eq_false_2 (SideTypeBuy = SideTypeSell)) by discriminate.
    cbn [andb]. intros H. apply bind_Some in H as (p1 & H1 & H).
    cbv beta iota in H. injection H as <-.
    destruct (geb (Price order) (cClose candle)).
    + cbv zeta in H1.
      match type of H1 with
      | context [assets ?x !! quote] =>
        destruct (assets x !! quote) as [q|] eqn:Hq; [|discriminate]
      end.
      apply lookup_assetAt in Hq. subst q. injection H1 as <-.
      rewrite <- Hside.
      apply (buyFilled_Inv candle i order asset quote p0); auto.
    + injection H1 as <-. exact I0.
  - (* sell *)
    rewrite (bool_decide_eq_false_2 (SideTypeSell = SideTypeBuy)) by discriminate.
    rewrite (bool_decide_eq_true_2 (SideTypeSell = SideTypeSell)) by reflexivity.
    cbn [andb]. intros H. apply bind_Some in H as (p1 & H1 & H).
    injection H1 as <-. cbv beta iota in H.
    apply bind_Some in H as (op & Hsell & H).
    destruct op as [orderPrice|]; [|injection H as <-; exact I0].
    cbv zeta in H.
    match type of H with
    | context [assets ?x !! asset] =>
      destruct (assets x !! asset) as [a|] eqn:Hq; [|discriminate]
    end.
    apply lookup_assetAt in Hq. subst a. injection H as <-.
    rewrite <- Hside.
    apply (sellFilled_Inv candle i order orderPrice asset quote p0); auto.
    apply (sellPrice_nonneg order candle); [exact Wo | exact Hsell].
Qed.

Lemma forEach_Inv candle l : forall p p',
  Inv p ->
  Engine.forEach (Engine.onCandleOrder SplitAssetQuote candle) l p = Some p' ->
  Inv p'.
Proof.
  induction l as [|i l IH]; simpl; intros p p' I H.
  - injection H as <-. exact I.
  - apply bind_Some in H as (q & Hq & H).
    apply (IH q); [|exact H]. apply (onCandleOrder_Inv candle i p); auto.
Qed.

Lemma candleAt_insert m k c k' :
  candleAt (<[k := c]> m) k' = if decide (k = k') then c else candleAt m k'.
Proof.
  unfold candleAt. case_decide; subst.
  - now rewrite lookup_insert_eq.
  - now rewrite lookup_insert_ne.
Qed.

Lemma OnCandle_Inv candle p p' :
  Inv p -> 0 <= cClose candle ->
  Engine.OnCandle SplitAssetQuote candle p = Some p' ->
  Inv p'.
Proof.
  intros I Hc. unfold Engine.OnCandle. cbv zeta. intros H.
  apply bind_Some in H as (q & Hq & H).
  assert (Iq : Inv q).
  { apply forEach_Inv in Hq; [exact Hq|].
    destruct (fistCandle _ !! _);
      (apply (Inv_frame p);
       [ exact I | intros k; reflexivity | reflexivity | reflexivity
       | intros pr; simpl; rewrite candleAt_insert; case_decide;
         [exact Hc | apply (inv_close _ p I)] ]). }
  destruct (cComplete candle); [|injection H as <-; exact Iq].
  destruct (map_fold _ _ _) as [total values].
  apply bind_Some in H as (b & _ & H). injection H as <-.
  apply (Inv_ext q); auto.
Qed.

Lemma exec_Inv o p p' :
  Inv p -> admissible SplitAssetQuote AmountToLotSize o p ->
  exec SplitAssetQuote AmountToLotSize o p = Some p' ->
  Inv p'.
Proof.
  intros I Ha. destruct o as [r|candle|order]; simpl in *.
  - destruct (place SplitAssetQuote AmountToLotSize r p) as [w res] eqn:E.
    simpl. intros [= <-]. destruct Ha as [H3 Hcov].
    apply (place_Inv r p w res); auto.
  - apply OnCandle_Inv; auto.
  - intros [= <-]. apply Cancel_Inv; auto.
Qed.

Lemma reaches_trans p q r :
  reaches SplitAssetQuote AmountToLotSize p q ->
  reaches SplitAssetQuote AmountToLotSize q r ->
  reaches SplitAssetQuote AmountToLotSize p r.
Proof.
  intros Hpq Hqr. induction Hqr as [|o q1 q2 _ IH Ha He]; [exact Hpq|].
  eapply reaches_step; eauto.
Qed.

Lemma run_reaches l : forall p p',
  admissibleRun SplitAssetQuote AmountToLotSize l p ->
  run SplitAssetQuote AmountToLotSize l p = Some p' ->
  reaches SplitAssetQuote AmountToLotSize p p'.
Proof.
  induction l as [|o l IH]; simpl; intros p p' Ha Hr.
  - injection Hr as <-. constructor.
  - destruct Ha as [Ho Ha].
    destruct (exec SplitAssetQuote AmountToLotSize o p) as [q|] eqn:E;
      [|contradiction].
    simpl in Hr. apply (reaches_trans p q p').
    + eapply reaches_step; [constructor | exact Ho | exact E].
    + apply IH; assumption.
Qed.

(** C2, amended.  In exact arithmetic: from a fresh wallet with
    non-negative balances and no bars, every asset's free and locked
    quantities are non-negative after every operation, provided the
    operations open no short position and the id counter does not wrap
    around: market, limit and stop orders and OCO groups on the sell side,
    of positive size at non-negative prices, every sell within the free
    quantity of the asset, orders by quote quantity only while the last
    close of the pair is positive, bars with a non-negative close, and
    cancellations.  With the rounding of binary64 the locked quantity can
    end below zero by a rounding error
    ([RoundingFacts.rounding_leaves_negative_lock]). *)
Theorem balances_nonneg_without_shorts p0 p :
  nonneg p0 -> fresh p0 -> lastCandle p0 = ∅ ->
  reaches SplitAssetQuote AmountToLotSize p0 p ->
  nonneg p.
Proof.
  intros Hn Hfr Hl Hr. apply Inv_nonneg.
  induction Hr as [|o p1 p2 _ IH Ha He].
  - pose proof Hfr as [Hc Ho]. split.
    + intros k. unfold assetAt.
      destruct (assets p0 !! k) as [info|] eqn:E; simpl; [|lra].
      apply (Hn k info E).
    + intros k. rewrite Ho. unfold LongOnly.reservedSum, sumOn, assetAt. simpl.
      destruct (assets p0 !! k) as [info|] eqn:E; simpl; [|lra].
      apply (Hn k info E).
    + rewrite Ho. constructor.
    + intros g. left. now rewrite Ho.
    + now apply fresh_IdsInv.
    + rewrite Ho. constructor.
    + intros pr. unfold candleAt. rewrite Hl, lookup_empty. simpl. lra.
  - apply (exec_Inv o p1 p2); auto.
Qed.

End WithPairs.
End LongOnlyFacts.

(** ** Order groups *)

Module GroupFacts.
Import Wallet Ops NumFacts LongOnlyFacts.

Section WithPairs.
Variable SplitAssetQuote : string -> string * string.

(** The buy branch of [OnCandle] has no group handling: processing a buy
    order changes no other order of the log, whatever its group. *)
Lemma buy_fill_keeps_siblings candle i p p' order :
  orders p !! i = Some order -> Side order = SideTypeBuy ->
  Engine.onCandleOrder SplitAssetQuote candle i p = Some p' ->
  forall j, j <> i -> orders p' !! j = orders p !! j.
Proof.
  intros Hi Hside. unfold Engine.onCandleOrder. rewrite Hi.
  destruct (_ || _); [intros [= <-]; reflexivity|].
  destruct (SplitAssetQuote (Pair order)) as [asset quote].
  rewrite Hside.
  rewrite (bool_decide_eq_true_2 (SideTypeBuy = SideTypeBuy)) by reflexivity.
  rewrite (bool_decide_eq_false_2 (SideTypeBuy = SideTypeSell)) by discriminate.
  cbn [andb]. intros H. apply bind_Some in H as (p1 & H1 & H).
  cbv beta iota in H. injection H as <-.
  destruct (geb _ _).
  - cbv zeta in H1.
    match type of H1 with
    | context [assets ?x !! quote] =>
      destruct (assets x !! quote) as [q|]; [|discriminate]
    end.
    injection H1 as <-. intros j Hj.
    rewrite orders_setLock, orders_setFree,
      (orders_updateAveragePrice SplitAssetQuote), orders_markFilled,
      orders_addVolume, orders_ensureAsset, orders_ensureVolume.
    now apply list_lookup_alter_ne.
  - injection H1 as <-. intros j _. now rewrite orders_ensureVolume.
Qed.

End WithPairs.
End GroupFacts.

(** ** Drawdown *)

Module DrawdownFacts.
Import NumFacts Drawdown.
Local Open Scope Q_scope.

(** The guard of [MaxDrawdown] is [len < 1]: the empty series is the only
    one answered by the early return. *)
Lemma MaxDrawdown_empty :
  Drawdown.MaxDrawdown [] = (0, zeroTime, zeroTime).
Proof. reflexivity. Qed.

(** C8, on the code.  A series with exactly one sample passes the guard
    [len(p.equityValues) < 1]; the loop does not run and the initial
    [math.MaxFloat64] is returned divided by the sample's value, with the
    sample's time as start and end.  For a sample of non-zero value that is
    not a zero drawdown, and the timestamps are the sample's, not the zero
    time. *)
Theorem MaxDrawdown_one_sample s :
  ~ avValue s == 0 ->
  let '(dd, from, to) := Drawdown.MaxDrawdown [s] in
  dd == MaxFloat64 / avValue s /\ ~ dd == 0 /\
  from = avTime s /\ to = avTime s.
Proof.
  intros Hv. simpl. repeat split; try reflexivity.
  intros H. apply Hv.
  assert (M : ~ MaxFloat64 == 0) by (intros E; discriminate E).
  apply Qmult_integral in H. destruct H as [H|H]; [contradiction|].
  destruct (Qeq_dec (avValue s) 0) as [E|E]; [exact E|].
  exfalso. apply (Qmult_inv_r (avValue s)) in E. rewrite H in E.
  rewrite Qmult_0_r in E. discriminate E.
Qed.

(** The sample of value 100 at time 5. *)
Lemma MaxDrawdown_single_100 :
  let '(dd, from, to) := Drawdown.MaxDrawdown [mkAV 5%Z 100] in
  dd == MaxFloat64 / 100 /\ ~ dd == 0 /\
  from = 5%Z /\ to = 5%Z /\ from <> zeroTime /\ to <> zeroTime.
Proof.
  vm_compute. repeat split; try reflexivity; intros H; discriminate H.
Qed.

(** *** Increasing series *)

Lemma increasing_step ev : forall i,
  increasing ev = true -> (S i < length ev)%nat ->
  avValue (nth i ev zeroAV) < avValue (nth (S i) ev zeroAV).
Proof.
  induction ev as [|a ev IH]; intros i Hinc Hi; [simpl in Hi; lia|].
  destruct ev as [|b ev]; [simpl in Hi; lia|].
  cbn [increasing] in Hinc. apply andb_true_iff in Hinc as [Hab Hrest].
  destruct i as [|i].
  - simpl. now apply ltb_lt.
  - change (avValue (nth i (b :: ev) zeroAV)
            < avValue (nth (S i) (b :: ev) zeroAV)).
    apply IH; [exact Hrest | simpl in *; lia].
Qed.

Lemma increasing_pos ev i :
  0 < avValue (nth 0 ev zeroAV) -> increasing ev = true ->
  (i < length ev)%nat -> 0 < avValue (nth i ev zeroAV).
Proof.
  intros H0 Hinc. induction i as [|i IH]; intros Hi; [exact H0|].
  pose proof (increasing_step ev i Hinc Hi). specialize (IH ltac:(lia)). lra.
Qed.

(** The four running values of the loop are positive. *)
Local Abbreviation positive a :=
  (0 < localMin a /\ 0 < localMinBase a /\
   0 < globalMin a /\ 0 < globalMinBase a).

(** While the running minimum is positive an iteration replaces it by the
    step, also positive on an increasing series. *)
Lemma body_increasing ev a i :
  0 < avValue (nth 0 ev zeroAV) -> increasing ev = true ->
  (1 <= i < length ev)%nat -> positive a -> positive (body ev a i).
Proof.
  intros H0 Hinc Hi (L & LB & G & GB). unfold body.
  assert (E : gtb (localMin a) 0 = true) by now apply gtb_gt.
  rewrite E. cbv zeta. simpl.
  assert (Hp : 0 < avValue (nth (i - 1) ev zeroAV))
    by (apply increasing_pos; auto; lia).
  assert (Hd : 0 < avValue (nth i ev zeroAV) - avValue (nth (i - 1) ev zeroAV)).
  { pose proof (increasing_step ev (i - 1) Hinc) as Hs.
    replace (S (i - 1)) with i in Hs by lia. specialize (Hs ltac:(lia)). lra. }
  destruct (ltb _ (globalMin a)); simpl; auto.
Qed.

Lemma fold_increasing ev l : forall a,
  0 < avValue (nth 0 ev zeroAV) -> increasing ev = true ->
  Forall (fun i => (1 <= i < length ev)%nat) l -> positive a ->
  positive (fold_left (body ev) l a).
Proof.
  induction l as [|i l IH]; intros a H0 Hinc Hl Pa; [exact Pa|].
  simpl. apply Forall_cons in Hl as [Hi Hl].
  apply IH; auto. now apply body_increasing.
Qed.

(** C9, on the code.  On an increasing series of two samples or more, with
    a positive first value, [MaxDrawdown] does not return 0: the running
    minimum starts at the positive [math.MaxFloat64], so every iteration
    replaces it by the step, and the result is a positive step divided by
    the positive sample before it. *)
Theorem MaxDrawdown_increasing ev :
  (2 <= length ev)%nat -> 0 < avValue (nth 0 ev zeroAV) ->
  increasing ev = true ->
  let '(dd, _, _) := Drawdown.MaxDrawdown ev in 0 < dd /\ ~ dd == 0.
Proof.
  intros Hn H0 Hinc. unfold Drawdown.MaxDrawdown.
  destruct (Nat.ltb_spec (length ev) 1) as [Hlt|_]; [lia|].
  cbv zeta.
  match goal with
  | |- context [fold_left (body ev) ?l ?a] =>
    assert (P : positive (fold_left (body ev) l a));
      [|set (r := fold_left (body ev) l a) in *]
  end.
  { apply fold_increasing; auto.
    - apply List.Forall_forall. intros i Hi. apply in_seq in Hi. lia.
    - simpl. repeat split; auto; reflexivity. }
  destruct P as (_ & _ & G & GB).
  assert (D : 0 < globalMin r / globalMinBase r)
    by (apply Qlt_shift_div_l; [exact GB | lra]).
  split; [exact D | lra].
Qed.

(** The series 100, 110, 120: the first step 10 becomes the minimum and is
    returned over its base, 10/100. *)
Lemma MaxDrawdown_rising_100 :
  let '(dd, from, to) :=
    Drawdown.MaxDrawdown [mkAV 1%Z 100; mkAV 2%Z 110; mkAV 3%Z 120] in
  dd == 1 # 10 /\ ~ dd == 0 /\ from = 1%Z /\ to = 2%Z.
Proof.
  vm_compute. repeat split; try reflexivity; intros H; discriminate H.
Qed.

(** The V-shaped series of the specification is computed as it says. *)
Lemma MaxDrawdown_V :
  let '(dd, from, to) :=
    Drawdown.MaxDrawdown [mkAV 1%Z 100; mkAV 2%Z 80; mkAV 3%Z 120] in
  dd == - (2 # 10) /\ from = 1%Z /\ to = 2%Z.
Proof. vm_compute. repeat split; reflexivity. Qed.

End DrawdownFacts.

(** ** Scenarios evaluated on the engine *)

Module ScenarioFacts.
Import Wallet Ops.
Local Open Scope Q_scope.

(** C3, evaluated on the code.  From {USDT: 10000} and closes 10, 12, 8:
    the market buy of 50 on the first bar leaves X free = 50 and USDT
    free = 9500, and the market sell of 50 on the third bar leaves USDT
    free = 9900, as the scenario says.  The loss is not realized:
    [validateFunds] takes the 50 units off the free quantity before it
    calls [updateAveragePrice], which then finds no position, writes no
    profit line and books the sale as the opening of a short position at
    8.  Called on the state before the sale, the same function computes
    (8 - 10) * 50 = -100. *)
Theorem market_sell_realizes_no_loss :
  match Scenario.walletBought, Scenario.walletBeforeSell,
        Scenario.walletSold with
  | Some (w1, inl o1), Some w0, Some (w2, inl o2) =>
    Free (balance w1 "X") == 50 /\
    Free (balance w1 "USDT") == 9500 /\
    Status o2 = OrderStatusTypeFilled /\ Price o2 == 8 /\
    Free (balance w2 "USDT") == 9900 /\
    Free (balance w2 "X") == 0 /\
    logged w0 = [] /\ logged w2 = [] /\
    avgShortPrice w0 !! "XUSDT"%string = None /\
    priceAt (avgLongPrice w2) "XUSDT" == 10 /\
    priceAt (avgShortPrice w2) "XUSDT" == 8 /\
    match logged (Engine.updateAveragePrice Scenario.split SideTypeSell
                    "XUSDT" 50 8 w0) with
    | [(profit, _)] => profit == (8 - 10) * 50 /\ profit == -100
    | _ => False
    end
  | _, _, _ => False
  end.
Proof. vm_compute. repeat split; reflexivity. Qed.

(** The order controller's replay of the same run attributes the loss. *)
Lemma controller_attributes_loss :
  match Scenario.afterBuy, Scenario.afterSell with
  | Some (c1, inl _), Some (c2, inl o2) =>
    match OrderCtl.calculateProfit (OrderCtl.storage c2) o2 with
    | Some (value, _) => value == (8 - 10) * 50 /\ value == -100
    | None => False
    end /\
    match OrderCtl.LoseShort (OrderCtl.resultAt (OrderCtl.Results c2) "XUSDT") with
    | [loss] => loss == -100
    | _ => False
    end
  | _, _ => False
  end.
Proof. vm_compute. repeat split; reflexivity. Qed.

(** C4, evaluated on the code.  A buy-side OCO group (limit leg at 9, stop
    leg with limit 12) is placed for 10 units; on the next bar, closing at
    9, the limit leg fills and its sibling is not canceled: the buy branch
    of [OnCandle] has no group handling, the sibling fills as well, 20 units
    are credited and 120 more than the 90 reserved leave the locked quote
    balance. *)
Theorem oco_buy_sibling_not_canceled :
  match Scenario.ocoBuyPlaced, Scenario.ocoBuyFilled with
  | Some (w0, inl [limitLeg; stopLeg]), Some w =>
    GroupID limitLeg = GroupID stopLeg /\ GroupID limitLeg <> None /\
    map Status (orders w0) = [OrderStatusTypeNew; OrderStatusTypeNew] /\
    map Status (orders w) = [OrderStatusTypeFilled; OrderStatusTypeFilled] /\
    Free (balance w "X") == 20 /\
    Lock (balance w0 "USDT") == 90 /\
    Lock (balance w "USDT") == -120
  | _, _ => False
  end.
Proof. vm_compute. repeat split; try reflexivity; discriminate. Qed.

(** The sell side of the same scenario does what the claim says: the limit
    leg fills at 12 on a bar whose high is 13, the stop leg is canceled with
    the bar's time, and only the filled leg moves balances. *)
Lemma oco_sell_sibling_canceled :
  match Scenario.ocoSellPlaced, Scenario.ocoSellFilled with
  | Some (w0, inl [limitLeg; stopLeg]), Some w =>
    map Status (orders w)
      = [OrderStatusTypeFilled; OrderStatusTypeFilled; OrderStatusTypeCanceled] /\
    map UpdatedAt (orders w) = [1; 2; 2]%Z /\
    map Price (orders w) = map Price (orders w0) /\
    Lock (balance w "X") == 0 /\
    Free (balance w "USDT") == Free (balance w0 "USDT") + 10 * 12
  | _, _ => False
  end.
Proof. vm_compute. repeat split; reflexivity. Qed.

(** C5, counterexample.  The engine has no staleness check: after a bar at
    time 2, a bar at time 1 for the same pair replaces the last-bar record
    and adds an equity sample. *)
Lemma stale_bar_processed :
  match Scenario.afterBar2, Scenario.afterStaleBar with
  | Some w, Some w' =>
    Engine.OnCandle Scenario.split (Scenario.bar 1 9) w = Some w' /\
    cTime (candleAt (lastCandle w) "XUSDT") = 2%Z /\
    Before (cTime (Scenario.bar 1 9)) (cTime (candleAt (lastCandle w) "XUSDT")) = true /\
    cTime (candleAt (lastCandle w') "XUSDT") = 1%Z /\
    length (equityValues w) = 1%nat /\
    length (equityValues w') = 2%nat /\
    w' <> w
  | _, _ => False
  end.
Proof.
  vm_compute. repeat split. intros E.
  apply (f_equal (fun w => length (equityValues w))) in E. discriminate E.
Qed.

(** C6, counterexample.  [Cancel] on the filled market order of the log
    turns its status into [Canceled]. *)
Lemma cancel_filled_becomes_canceled :
  match Scenario.filledThenCanceled with
  | Some (o, w) =>
    Status o = OrderStatusTypeFilled /\
    map ExchangeID (orders w) = [ExchangeID o] /\
    map Status (orders w) = [OrderStatusTypeCanceled]
  | None => False
  end.
Proof. vm_compute. repeat split. Qed.

(** C2, counterexample.  A market sell of 50 units of an asset the wallet
    does not hold succeeds and leaves the asset's free quantity at -50: the
    engine books a short position as a negative balance. *)
Lemma short_sale_negative_free :
  match Scenario.shortSale with
  | Some w =>
    exists info, assets w !! "X"%string = Some info /\ Free info == -50 /\
                 Free info < 0 /\ ~ LongOnly.nonneg w
  | None => False
  end.
Proof.
  vm_compute. eexists. split; [reflexivity|]. repeat split.
  intros H. destruct (H "X"%string _ eq_refl) as [H0 _]. apply H0. reflexivity.
Qed.

(** C1, evaluated on the code.  The wallet's call sites run
    [updateAveragePrice] after the reservation has left the free quantity,
    so the position it reads is the one after the sale.  Closing a position
    of 50 units bought at 10 with a market sell at 8, the wallet realizes
    nothing (no profit line, the sale is booked as a new short position at
    8) while the order controller's replay attributes -100.  Selling 2 of 3
    units bought at 10 for 12, the wallet finds one unit left and logs
    2*12 - min(2,1)*10 = 14, while the replay attributes (12 - 10)*2 = 4. *)
Theorem engine_and_replay_disagree :
  match Scenario.afterSell, Scenario.partialSale with
  | Some (c, inl o), Some (c', inl o') =>
    logged (OrderCtl.exchange c) = [] /\
    priceAt (avgShortPrice (OrderCtl.exchange c)) "XUSDT" == 8 /\
    match OrderCtl.calculateProfit (OrderCtl.storage c) o with
    | Some (value, _) => value == -100
    | None => False
    end /\
    match logged (OrderCtl.exchange c'),
          OrderCtl.calculateProfit (OrderCtl.storage c') o' with
    | [(profit, _)], Some (value, _) =>
      profit == 14 /\ value == 4 /\ ~ value == profit
    | _, _ => False
    end
  | _, _ => False
  end.
Proof.
  vm_compute. repeat split; try reflexivity; intros H; discriminate H.
Qed.

End ScenarioFacts.

(** ** Trailing stop *)

Module TrailingFacts.
Import NumFacts Trailing.
Local Open Scope Q_scope.

Lemma rises_nonneg prices : forall from, 0 <= rises from prices.
Proof.
  induction prices as [|cur rest IH]; intros from; simpl; [lra|].
  specialize (IH cur). destruct (gtb cur from) eqn:E; [|lra].
  apply gtb_gt in E. lra.
Qed.

Lemma last_after (cur : Q) rest d : List.last (cur :: rest) d = List.last rest cur.
Proof.
  revert cur d. induction rest as [|a rest IH]; intros cur d; [reflexivity|].
  change (List.last (a :: rest) d = List.last (a :: rest) cur).
  now rewrite (IH a d), (IH a cur).
Qed.

(** X1.  While it is active a trailing stop is a ratchet: after any
    sequence of updates it is still active, its reference price is the last
    price, and its stop level is the starting level plus the sum of all
    upward moves of the price, so the level never decreases (it rises on
    every uptick, also below an earlier high). *)
Theorem updates_ratchet prices : forall t,
  active t = true ->
  let '(t', _) := updates prices t in
  active t' = true /\
  current t' = List.last prices (current t) /\
  stop t' == stop t + rises (current t) prices /\
  stop t <= stop t'.
Proof.
  induction prices as [|cur rest IH]; intros t Ha.
  - simpl. repeat split; auto; lra.
  - cbn [updates rises]. unfold Update. rewrite Ha. cbn [negb].
    destruct (gtb cur (current t)) eqn:E.
    + specialize (IH (mkTrailing cur (stop t + (cur - current t)) true) eq_refl).
      destruct (updates rest _) as [t2 hits]. cbn [active current stop] in IH.
      destruct IH as (A & C & S & L). apply gtb_gt in E.
      pose proof (rises_nonneg rest cur).
      repeat split; auto.
      * now rewrite C, last_after.
      * rewrite S. ring.
      * lra.
    + specialize (IH (mkTrailing cur (stop t) true) eq_refl).
      destruct (updates rest _) as [t2 hits]. cbn [active current stop] in IH.
      destruct IH as (A & C & S & L).
      repeat split; auto.
      * now rewrite C, last_after.
      * rewrite S. ring.
Qed.

(** X2.  For an active trailing stop whose level is not above its
    reference price, [Update] answers [true] exactly when the new price is
    at or below the level; as long as it answers [false] the level stays
    at or below the reference price, so the same holds at the next call. *)
Theorem Update_hits_at_stop cur t :
  active t = true -> stop t <= current t ->
  let '(t', hit) := Update cur t in
  (hit = true <-> cur <= stop t) /\
  (hit = false -> stop t' <= current t').
Proof.
  intros Ha Hs. unfold Update. rewrite Ha. cbn [negb].
  destruct (gtb cur (current t)) eqn:E.
  - apply gtb_gt in E. split.
    + split; [discriminate | intros H; lra].
    + intros _. simpl. lra.
  - apply gtb_le in E. split.
    + apply leb_le.
    + intros H. apply leb_gt in H. simpl. lra.
Qed.

End TrailingFacts.

(** ** Scheduled orders *)

Module SchedulerFacts.
Import Scheduler.

Section WithBroker.
Variable Dataframe B E : Type.
Variable CreateOrderMarket : SideType -> string -> Q -> B -> B * (Order + E).

Local Abbreviation OrderCondition := (OrderCondition Dataframe).
Local Abbreviation Filter := (Filter Dataframe B E CreateOrderMarket).
Local Abbreviation Update := (Update Dataframe B E CreateOrderMarket).
Local Abbreviation keep := (keep Dataframe B E CreateOrderMarket).

Lemma Filter_broker df pr (l : list OrderCondition) : forall b,
  snd (Filter df pr l b)
  = fold_left (fun b oc => fst (CreateOrderMarket (Side _ oc) pr (Size _ oc) b))
              (due _ df l) b.
Proof.
  induction l as [|oc rest IH]; intros b; [reflexivity|].
  cbn [Scheduler.Filter]. unfold Scheduler.keep, due. cbn [List.filter].
  destruct (Condition _ oc df).
  - destruct (CreateOrderMarket _ _ _ b) as [b1 [o|e]] eqn:Ec;
      specialize (IH b1); destruct (Filter df pr rest b1) as [kept b2];
      simpl in *; rewrite Ec; exact IH.
  - specialize (IH b). destruct (Filter df pr rest b) as [kept b2]. exact IH.
Qed.

(** X3.  [Update] sends one market order for each condition that holds on
    the dataframe, in the order the conditions were registered, with the
    side and size of the condition and the pair of the scheduler, and no
    order for the other conditions. *)
Theorem Update_orders df s b :
  snd (Update df s b)
  = fold_left
      (fun b oc => fst (CreateOrderMarket (Side _ oc) (pair _ s) (Size _ oc) b))
      (due _ df (orderConditions _ s)) b.
Proof.
  unfold Scheduler.Update.
  pose proof (Filter_broker df (pair _ s) (orderConditions _ s) b) as H.
  destruct (Filter _ _ _ _) as [kept b']. exact H.
Qed.

Lemma Filter_kept df pr (l : list OrderCondition) : forall b,
  let kept := fst (Filter df pr l b) in
  sublist kept l /\
  List.filter (fun oc => negb (Condition _ oc df)) kept
  = List.filter (fun oc => negb (Condition _ oc df)) l /\
  ((forall side size b, exists e,
       snd (CreateOrderMarket side pr size b) = inr e) -> kept = l) /\
  ((forall side size b, exists o,
       snd (CreateOrderMarket side pr size b) = inl o) ->
   kept = List.filter (fun oc => negb (Condition _ oc df)) l).
Proof.
  induction l as [|oc rest IH]; intros b.
  - simpl. repeat split; auto; constructor.
  - cbn [Scheduler.Filter]. unfold Scheduler.keep.
    destruct (Condition _ oc df) eqn:Ec.
    + destruct (CreateOrderMarket (Side _ oc) pr (Size _ oc) b) as [b1 [o|e]] eqn:Eb;
        specialize (IH b1); destruct (Filter df pr rest b1) as [kept b2];
        cbn [fst] in *; destruct IH as (S & F & Hf & Hs);
        cbn [List.filter]; rewrite Ec; cbn [negb].
      * split; [now apply sublist_cons|]. split; [exact F|]. split.
        -- intros H. destruct (H (Side _ oc) (Size _ oc) b) as [e He].
           rewrite Eb in He. discriminate He.
        -- exact Hs.
      * split; [now apply sublist_skip|]. split; [exact F|]. split.
        -- intros H. now rewrite (Hf H).
        -- intros H. destruct (H (Side _ oc) (Size _ oc) b) as [o Ho].
           rewrite Eb in Ho. discriminate Ho.
    + specialize (IH b). destruct (Filter df pr rest b) as [kept b2].
      cbn [fst] in *. destruct IH as (S & F & Hf & Hs).
      cbn [List.filter]. rewrite Ec. cbn [negb].
      split; [now apply sublist_skip|]. split; [now rewrite F|]. split.
      * intros H. now rewrite (Hf H).
      * intros H. now rewrite (Hs H).
Qed.

(** X4.  [Update] only removes conditions: what it keeps is a sublist of
    the registered conditions, in their order, and holds every condition
    that does not hold on the dataframe.  A condition is removed only when
    its order went through: with a broker that refuses every order
    nothing is removed, with a broker that accepts every order exactly the
    conditions that hold are removed. *)
Theorem Update_conditions df s b :
  let s' := fst (Update df s b) in
  pair _ s' = pair _ s /\
  sublist (orderConditions _ s') (orderConditions _ s) /\
  List.filter (fun oc => negb (Condition _ oc df)) (orderConditions _ s')
  = List.filter (fun oc => negb (Condition _ oc df)) (orderConditions _ s) /\
  ((forall side size b, exists e,
       snd (CreateOrderMarket side (pair _ s) size b) = inr e) ->
   orderConditions _ s' = orderConditions _ s) /\
  ((forall side size b, exists o,
       snd (CreateOrderMarket side (pair _ s) size b) = inl o) ->
   orderConditions _ s'
   = List.filter (fun oc => negb (Condition _ oc df)) (orderConditions _ s)).
Proof.
  unfold Scheduler.Update.
  pose proof (Filter_kept df (pair _ s) (orderConditions _ s) b) as H.
  destruct (Filter _ _ _ _) as [kept b']. cbn [fst] in *.
  split; [reflexivity | exact H].
Qed.

End WithBroker.
End SchedulerFacts.

(** ** Trade statistics *)

Module StatsFacts.
Import NumFacts OrderCtl Stats.
Local Open Scope Q_scope.

Lemma fold_sum l : forall a, fold_left Qplus l a == a + sum l.
Proof.
  unfold sum. induction l as [|x l IH]; intros a; simpl; [ring|].
  rewrite (IH (a + x)), (IH (0 + x)). ring.
Qed.

Lemma sum_cons x l : sum (x :: l) == x + sum l.
Proof. unfold sum at 1. simpl. rewrite fold_sum. ring. Qed.

Lemma sum_nonneg l : Forall (fun v => 0 < v) l -> 0 <= sum l.
Proof.
  induction 1 as [|x l Hx _ IH]; [unfold sum; simpl; lra|].
  rewrite sum_cons. lra.
Qed.

Lemma sum_pos l : Forall (fun v => 0 < v) l -> l <> [] -> 0 < sum l.
Proof.
  intros H Hn. destruct H as [|x l Hx Hl]; [congruence|].
  rewrite sum_cons. pose proof (sum_nonneg l Hl). lra.
Qed.

Lemma sum_neg l : Forall (fun v => v < 0) l -> l <> [] -> sum l < 0.
Proof.
  intros H Hn. destruct H as [|x l Hx Hl]; [congruence|].
  rewrite sum_cons.
  assert (sum l <= 0).
  { clear -Hl. induction Hl as [|y l Hy _ IH]; [unfold sum; simpl; lra|].
    rewrite sum_cons. lra. }
  lra.
Qed.

Lemma len_nonneg l : 0 <= len l.
Proof.
  unfold len. change 0 with (inject_Z 0). rewrite <- Zle_Qle. lia.
Qed.

Lemma len_pos l : l <> [] -> 0 < len l.
Proof.
  intros H. unfold len. change 0 with (inject_Z 0). rewrite <- Zlt_Qlt.
  destruct l; [congruence | simpl; lia].
Qed.

Lemma length_eqb_nil {A} (l : list A) : (length l =? 0)%nat = true <-> l = [].
Proof.
  rewrite Nat.eqb_eq. destruct l; simpl; split; (congruence || lia).
Qed.

(** X5.  The win percentage lies between 0 and 100 for every summary: it
    is 0 without any win (in particular without any trade, where the
    division is skipped) and 100 with wins and no loss. *)
Theorem WinPercentage_bounds s :
  0 <= WinPercentage s <= 100 /\
  (Win s = [] -> WinPercentage s == 0) /\
  (Win s <> [] -> Lose s = [] -> WinPercentage s == 100).
Proof.
  unfold WinPercentage.
  set (w := length (Win s)). set (l := length (Lose s)).
  assert (Hw : len (Win s) = inject_Z (Z.of_nat w)) by reflexivity.
  rewrite Hw.
  destruct (Nat.eqb_spec (w + l) 0) as [E|E].
  - repeat split; try lra.
    intros Hn _. exfalso. apply Hn. apply length_zero_iff_nil.
    fold w. lia.
  - assert (P : 0 < inject_Z (Z.of_nat (w + l))).
    { change 0 with (inject_Z 0). rewrite <- Zlt_Qlt. lia. }
    assert (W0 : 0 <= inject_Z (Z.of_nat w)).
    { change 0 with (inject_Z 0). rewrite <- Zle_Qle. lia. }
    assert (WL : inject_Z (Z.of_nat w) <= inject_Z (Z.of_nat (w + l))).
    { rewrite <- Zle_Qle. lia. }
    set (a := inject_Z (Z.of_nat w)) in *.
    set (b := inject_Z (Z.of_nat (w + l))) in *.
    assert (D0 : 0 <= a / b) by (apply Qle_shift_div_l; [exact P | lra]).
    assert (D1 : a / b <= 1) by (apply Qle_shift_div_r; [exact P | lra]).
    split; [split; lra|]. split.
    + intros Hn. assert (Ea : a == 0).
      { unfold a, w. now rewrite Hn. }
      rewrite Ea. unfold Qdiv. ring.
    + intros _ Hl. assert (Eb : b == a).
      { unfold a, b, l. rewrite Hl. simpl. now rewrite Nat.add_0_r. }
      rewrite Eb. assert (Na : ~ a == 0) by (rewrite <- Eb; lra).
      field. exact Na.
Qed.

(** X6.  When wins are positive and losses negative, as [processTrade]
    files them, the payoff ratio is positive as soon as the summary has a
    win and a loss, and it is 0 when it has no win or no loss. *)
Theorem Payoff_sign s :
  signed s ->
  (Win s <> [] -> Lose s <> [] -> 0 < Payoff s) /\
  (Win s = [] \/ Lose s = [] -> Payoff s = 0).
Proof.
  intros [Hw Hl]. unfold Payoff. split.
  - intros Nw Nl.
    assert (E1 : (length (Win s) =? 0)%nat = false).
    { apply not_true_is_false. now rewrite length_eqb_nil. }
    assert (E2 : (length (Lose s) =? 0)%nat = false).
    { apply not_true_is_false. now rewrite length_eqb_nil. }
    pose proof (sum_pos _ Hw Nw) as Sw. pose proof (sum_neg _ Hl Nl) as Sl.
    assert (E3 : eqb (sum (Lose s)) 0 = false) by (apply eqb_neq; lra).
    rewrite E1, E2, E3. cbn [orb].
    pose proof (len_pos _ Nw) as Lw. pose proof (len_pos _ Nl) as Ll.
    assert (A : 0 < sum (Win s) / len (Win s))
      by (apply Qlt_shift_div_l; [exact Lw | lra]).
    assert (B : sum (Lose s) / len (Lose s) < 0).
    { apply Qlt_shift_div_r; [exact Ll | lra]. }
    assert (C : 0 < Abs (sum (Lose s) / len (Lose s))).
    { unfold Abs. rewrite Qabs_neg by lra. lra. }
    apply Qlt_shift_div_l; [exact C | lra].
  - intros [H|H]; rewrite H; simpl; [reflexivity|].
    now rewrite orb_true_r.
Qed.

Lemma signed_empty pair : signed (mkSummary pair [] [] [] [] 0).
Proof. split; constructor. Qed.

(** X7.  [processTrade] keeps the sign discipline of the results: if in
    every summary the wins are positive and the losses negative, the same
    holds after the call; a profit of zero is filed nowhere. *)
Theorem processTrade_signed log order results results' order' :
  (forall pair s, results !! pair = Some s -> signed s) ->
  processTrade log order results = Some (results', order') ->
  forall pair s, results' !! pair = Some s -> signed s.
Proof.
  intros Hr. unfold processTrade.
  destruct (negb _); [intros [= <- <-]; exact Hr|].
  destruct (calculateProfit log order) as [[profitValue profit]|];
    [|discriminate].
  simpl. intros [= <- <-] pair s.
  destruct (decide (pair = Pair order)) as [->|N].
  2:{ rewrite lookup_insert_ne by congruence. apply Hr. }
  rewrite lookup_insert_eq. intros [= <-].
  assert (S0 : signed (resultAt results (Pair order))).
  { unfold resultAt. destruct (results !! Pair order) as [s0|] eqn:E; simpl.
    - apply (Hr _ _ E).
    - apply signed_empty. }
  destruct S0 as [Sw Sl]. unfold Win, Lose in Sw, Sl.
  apply Forall_app in Sw as [Sw1 Sw2]. apply Forall_app in Sl as [Sl1 Sl2].
  destruct (eqb profitValue 0) eqn:E0.
  { split; unfold Win, Lose; simpl; apply Forall_app; auto. }
  apply eqb_neq in E0.
  destruct (gtb profitValue 0) eqn:E1.
  - apply gtb_gt in E1.
    destruct (Side order); split; unfold Win, Lose; simpl;
      repeat (apply Forall_app; split); auto.
  - apply gtb_le in E1. assert (profitValue < 0) by lra.
    destruct (Side order); split; unfold Win, Lose; simpl;
      repeat (apply Forall_app; split); auto.
Qed.

Lemma bought_nonneg o orders : Forall (plainBuy o) orders -> 0 <= bought orders.
Proof.
  induction 1 as [|b l (_ & Hq & _) _ IH]; simpl; lra.
Qed.

(** Replaying buys accumulates the quantity and keeps the average at
    amount paid over quantity. *)
Lemma replay_buys o orders : forall st,
  Forall (plainBuy o) orders -> 0 <= quantity st ->
  exists st',
    replay o orders st = Some st' /\
    quantity st' == quantity st + bought orders /\
    avgPriceLong st' * quantity st'
    == (if decide (orders = []) then avgPriceLong st * quantity st
        else avgPriceLong st * quantity st + paid orders).
Proof.
  induction orders as [|b l IH]; intros st Hf Hq.
  - exists st. simpl. repeat split; ring.
  - apply Forall_cons in Hf as [(Hs & Hb & Hp & Hid & _) Hf].
    cbn [replay]. unfold replayOrder.
    rewrite (proj2 (Z.eqb_neq (ID o) (ID b))) by congruence.
    rewrite Hp, Hs. cbn [mbind option_bind].
    rewrite (bool_decide_eq_true_2 (SideTypeBuy = SideTypeBuy)) by reflexivity.
    assert (G : geb (quantity st + Quantity b) 0 = true) by (apply geb_ge; lra).
    rewrite G. cbn [andb quantity avgPriceLong avgPriceShort].
    set (avg := (Quantity b * Price b + avgPriceLong st * Abs (quantity st))
                / (Quantity b + Abs (quantity st))).
    set (st1 := mkReplay (quantity st + Quantity b) avg (avgPriceShort st)).
    destruct (IH st1 Hf) as (st' & Hr & Hq' & Ha'); [simpl; lra|].
    exists st'. split; [exact Hr|]. pose proof (bought_nonneg o l Hf) as Hbn.
    simpl in Hq', Ha'. split; [simpl; rewrite Hq'; ring|].
    rewrite decide_False by discriminate.
    assert (Eavg : avg * (quantity st + Quantity b)
                   == avgPriceLong st * quantity st + Quantity b * Price b).
    { unfold avg, Abs. rewrite Qabs_pos by exact Hq. field. lra. }
    rewrite Ha'. destruct (decide (l = [])) as [->|N]; simpl; rewrite Eavg; ring.
Qed.

Lemma paid_nonneg o orders : Forall (plainBuy o) orders -> 0 <= paid orders.
Proof.
  induction 1 as [|b l (_ & Hq & _ & _ & Hp) _ IH]; simpl; [lra|].
  pose proof (Qmult_lt_0_compat _ _ Hq Hp). lra.
Qed.

Lemma averagePrice_pos o orders :
  orders <> [] -> Forall (plainBuy o) orders -> 0 < averagePrice orders.
Proof.
  intros Hn Hf. destruct Hf as [|b l (_ & Hq & _ & _ & Hp) Hl]; [congruence|].
  unfold averagePrice. simpl.
  pose proof (bought_nonneg o l Hl). pose proof (paid_nonneg o l Hl).
  pose proof (Qmult_lt_0_compat _ _ Hq Hp).
  apply Qlt_shift_div_l; lra.
Qed.

(** X8.  After a history that consists of buys only, at positive prices,
    the order controller attributes to a sell of positive quantity the
    difference between its price and the volume-weighted average price of
    the buys, times the quantity sold (also when more is sold than was
    bought), and as percentage that difference relative to the average
    price; both divisors of the percentage are positive. *)
Theorem sell_profit_against_average orders o price :
  orders <> [] -> Forall (plainBuy o) orders ->
  Side o = SideTypeSell -> execPrice o = Some price -> 0 < Quantity o ->
  exists value percent,
    calculateProfitOn orders o = Some (value, percent) /\
    value == (price - averagePrice orders) * Quantity o /\
    percent == value / Quantity o / averagePrice orders /\
    0 < averagePrice orders.
Proof.
  intros Hn Hf Hs Hp Hqo. unfold calculateProfitOn.
  destruct (replay_buys o orders (mkReplay 0 0 0) Hf) as (st & Hr & Hq & Ha);
    [simpl; lra|].
  rewrite Hr. cbn [mbind option_bind]. simpl in Hq, Ha.
  rewrite decide_False in Ha by exact Hn.
  assert (Hb : 0 < bought orders).
  { destruct Hf as [|b l (_ & Hb & _) Hl]; [congruence|].
    simpl. pose proof (bought_nonneg o l Hl). lra. }
  assert (Hqp : 0 < quantity st) by lra.
  assert (E0 : eqb (quantity st) 0 = false) by (apply eqb_neq; lra).
  assert (E1 : gtb (quantity st) 0 = true) by (apply gtb_gt; lra).
  rewrite E0, Hs, E1, Hp.
  rewrite (bool_decide_eq_false_2 (SideTypeSell = SideTypeBuy)) by discriminate.
  rewrite (bool_decide_eq_true_2 (SideTypeSell = SideTypeSell)) by reflexivity.
  cbn [andb mbind option_bind].
  assert (Eavg : avgPriceLong st == averagePrice orders).
  { unfold averagePrice.
    assert (Hq2 : quantity st == bought orders) by (rewrite Hq; ring).
    assert (Hx : avgPriceLong st == avgPriceLong st * quantity st / quantity st)
      by (field; lra).
    rewrite Hx, Ha, Hq2. field. lra. }
  eexists _, _. split; [reflexivity|]. split; [|split].
  - now rewrite Eavg.
  - now rewrite Eavg.
  - exact (averagePrice_pos o orders Hn Hf).
Qed.

End StatsFacts.

(** ** The wallet over its life time *)

Module LifeFacts.
Import Wallet Ops NumFacts FrameFacts IdFacts LongOnlyFacts Life.

Lemma steady_refl p : steady p p.
Proof. repeat split; auto. Qed.

Lemma steady_trans p q r : steady p q -> steady q r -> steady p r.
Proof.
  intros (A1 & A2 & A3 & A4 & A5 & A6 & A7 & A8 & A9)
         (B1 & B2 & B3 & B4 & B5 & B6 & B7 & B8 & B9).
  repeat split; try congruence. intros k Hk. auto.
Qed.

Lemma keyed_insert p q k info k' :
  assets q = <[k := info]> (assets p) -> keyed p k' -> keyed q k'.
Proof.
  intros E H. unfold keyed in *. rewrite E.
  destruct (decide (k = k')) as [->|N].
  - rewrite lookup_insert_eq. eauto.
  - now rewrite lookup_insert_ne.
Qed.

Lemma steady_setFree k v p : steady p (setFree k v p).
Proof.
  repeat split; auto. intros k' Hk.
  eapply keyed_insert; [reflexivity | exact Hk].
Qed.

Lemma steady_setLock k v p : steady p (setLock k v p).
Proof.
  repeat split; auto. intros k' Hk.
  eapply keyed_insert; [reflexivity | exact Hk].
Qed.

Lemma steady_ensureAsset k p : steady p (ensureAsset k p).
Proof.
  unfold ensureAsset. destruct (assets p !! k) eqn:E; [apply steady_refl|].
  repeat split; auto. intros k' Hk.
  eapply keyed_insert; [reflexivity | exact Hk].
Qed.

Lemma keyed_ensureAsset k p : keyed (ensureAsset k p) k.
Proof.
  unfold ensureAsset, keyed. destruct (assets p !! k) eqn:E; [rewrite E; eauto|].
  simpl. rewrite lookup_insert_eq. eauto.
Qed.

Lemma steady_ensureVolume k p : steady p (ensureVolume k p).
Proof.
  unfold ensureVolume. destruct (volume p !! k); repeat split; auto.
Qed.

Lemma steady_addVolume k v p : steady p (addVolume k v p).
Proof. repeat split; auto. Qed.

Lemma steady_markFilled t i p : steady p (Engine.markFilled t i p).
Proof. repeat split; auto. Qed.

Lemma steady_set_orders l p : steady p (set_orders l p).
Proof. repeat split; auto. Qed.

Lemma steady_set_counter c p : steady p (set_counter c p).
Proof. repeat split; auto. Qed.

Lemma steady_keyed p p' k : steady p p' -> keyed p k -> keyed p' k.
Proof. intros H. apply H. Qed.

(** *** How log entries change *)

Lemma ages_refl o : ages o o.
Proof. split; [now destruct o | auto]. Qed.

Lemma ages_trans a b c : ages a b -> ages b c -> ages a c.
Proof.
  intros [E1 S1] [E2 S2]. split.
  - transitivity (setUpdatedAt (UpdatedAt a) (setStatus (Status a) b));
      [|exact E1].
    rewrite <- E2. now destruct c.
  - destruct S1 as [S1|[S1|[S1 S1']]], S2 as [S2|[S2|[S2 S2']]];
      first [ left; congruence | right; left; congruence
            | right; right; split; congruence ].
Qed.

Lemma ages_fields o o' :
  ages o o' ->
  ExchangeID o' = ExchangeID o /\ Pair o' = Pair o /\ Side o' = Side o /\
  Type_ o' = Type_ o /\ Price o' = Price o /\ Quantity o' = Quantity o /\
  Stop o' = Stop o /\ GroupID o' = GroupID o /\ ID o' = ID o /\
  CreatedAt o' = CreatedAt o.
Proof. intros [E _]. rewrite <- E. simpl. repeat split. Qed.

Lemma log_refl l : Forall2 ages l l.
Proof. induction l; constructor; auto using ages_refl. Qed.

Lemma log_trans l1 : forall l2 l3,
  Forall2 ages l1 l2 -> Forall2 ages l2 l3 -> Forall2 ages l1 l3.
Proof.
  induction l1 as [|a l1 IH]; intros l2 l3 H12 H23;
    inversion H12; subst; inversion H23; subst; constructor.
  - eapply ages_trans; eauto.
  - eapply IH; eauto.
Qed.

Lemma log_alter f l : forall i o,
  l !! i = Some o -> ages o (f o) -> Forall2 ages l (alter f i l).
Proof.
  induction l as [|x l IH]; intros [|i] o Hi Ho; try discriminate.
  - injection Hi as ->. constructor; [exact Ho | apply log_refl].
  - constructor; [apply ages_refl | now apply (IH i o)].
Qed.

Lemma ages_canceled o t :
  ages o (setUpdatedAt t (setStatus OrderStatusTypeCanceled o)).
Proof. split; [now destruct o | auto]. Qed.

Lemma log_cancelGroup gid exid t l :
  Forall2 ages l (Engine.cancelGroup gid exid t l).
Proof.
  induction l as [|o l IH]; simpl; [constructor|].
  destruct (GroupID o) as [g|]; [destruct (_ && _)|];
    constructor; auto using ages_refl, log_refl, ages_canceled.
Qed.

(** The group loop passes over the orders that carry the exchange id it was
    started for. *)
Lemma cancelGroup_self gid t l : forall i o,
  l !! i = Some o ->
  Engine.cancelGroup gid (ExchangeID o) t l !! i = Some o.
Proof.
  induction l as [|x l IH]; intros [|i] o Hi; try discriminate.
  - injection Hi as ->. simpl. destruct (GroupID o) as [g|]; [|reflexivity].
    now rewrite Z.eqb_refl, andb_false_r.
  - simpl in Hi. simpl. destruct (GroupID x) as [g|]; [|now apply IH].
    destruct (_ && _); [exact Hi | now apply IH].
Qed.

Lemma log_Cancel order p :
  Forall2 ages (orders p) (orders (Engine.Cancel order p)).
Proof.
  unfold Engine.Cancel. simpl. induction (orders p) as [|o l IH];
    simpl; constructor; auto.
  destruct (_ =? _); [|apply ages_refl].
  split; [now destruct o | auto].
Qed.

Lemma ages_filled o t :
  Status o = OrderStatusTypeNew ->
  ages o (setStatus OrderStatusTypeFilled (setUpdatedAt t o)).
Proof. intros H. split; [now destruct o | auto]. Qed.

Section WithPairs.
Variable SplitAssetQuote : string -> string * string.
Variable AmountToLotSize : Q -> Z -> Q -> Q.

Lemma steady_updateAveragePrice side pair amount value p :
  steady p (Engine.updateAveragePrice SplitAssetQuote side pair amount value p).
Proof.
  unfold Engine.updateAveragePrice.
  destruct (SplitAssetQuote pair) as [asset quote].
  repeat case_match; repeat split; auto.
Qed.

Ltac steady_step :=
  match goal with
  | |- steady ?p ?p => apply steady_refl
  | |- steady _ (setFree _ _ ?x) =>
    apply (steady_trans _ x); [|apply steady_setFree]
  | |- steady _ (setLock _ _ ?x) =>
    apply (steady_trans _ x); [|apply steady_setLock]
  | |- steady _ (ensureAsset _ ?x) =>
    apply (steady_trans _ x); [|apply steady_ensureAsset]
  | |- steady _ (ensureVolume _ ?x) =>
    apply (steady_trans _ x); [|apply steady_ensureVolume]
  | |- steady _ (addVolume _ _ ?x) =>
    apply (steady_trans _ x); [|apply steady_addVolume]
  | |- steady _ (Engine.markFilled _ _ ?x) =>
    apply (steady_trans _ x); [|apply steady_markFilled]
  | |- steady _ (set_orders _ ?x) =>
    apply (steady_trans _ x); [|apply steady_set_orders]
  | |- steady _ (set_counter _ ?x) =>
    apply (steady_trans _ x); [|apply steady_set_counter]
  | |- steady _ (Engine.updateAveragePrice _ _ _ _ _ ?x) =>
    apply (steady_trans _ x); [|apply steady_updateAveragePrice]
  end.

Lemma steady_validateFunds side pair amount value fill p :
  let w := (Engine.validateFunds SplitAssetQuote side pair amount value fill p).1 in
  steady p w /\
  keyed w (SplitAssetQuote pair).1 /\ keyed w (SplitAssetQuote pair).2.
Proof.
  unfold Engine.validateFunds.
  destruct (SplitAssetQuote pair) as [asset quote]. cbn [fst snd].
  set (p0 := ensureAsset quote (ensureAsset asset p)).
  assert (S0 : steady p p0) by (unfold p0; repeat steady_step).
  assert (Ka : keyed p0 asset).
  { apply (steady_keyed (ensureAsset asset p)); [apply steady_ensureAsset|].
    apply keyed_ensureAsset. }
  assert (Kq : keyed p0 quote) by apply keyed_ensureAsset.
  clearbody p0.
  assert (H : forall w, steady p0 w ->
    steady p w /\ keyed w asset /\ keyed w quote).
  { intros w Hw. split; [eapply steady_trans; eauto|].
    split; eapply steady_keyed; eauto. }
  destruct side; repeat case_match; cbn [fst]; apply H; repeat steady_step.
Qed.

Local Abbreviation runnable := (runnable SplitAssetQuote).
Local Abbreviation Safe := (Safe SplitAssetQuote).

Lemma runnable_steady p p' o : steady p p' -> runnable p o -> runnable p' o.
Proof.
  intros H (A & B & C). repeat split; auto; eapply steady_keyed; eauto.
Qed.

Lemma runnable_new w p' id q pair side type status price size stop group ref :
  steady w p' ->
  keyed w (SplitAssetQuote pair).1 -> keyed w (SplitAssetQuote pair).2 ->
  (Engine.isStopSell type = true -> is_Some stop) ->
  runnable p' (Engine.newOrder id q pair side type status price size stop
                 group ref).
Proof.
  intros H A B C. repeat split; simpl; auto; eapply steady_keyed; eauto.
Qed.

(** A placement appends the orders it returns to the log and changes
    nothing else of it; the appended orders can be processed by
    [OnCandle]. *)
Lemma place_shape r p p' res :
  place SplitAssetQuote AmountToLotSize r p = (p', res) ->
  steady p p' /\
  orders p' = orders p ++ match res with inl c => c | inr _ => [] end /\
  Forall (runnable p') match res with inl c => c | inr _ => [] end.
Proof.
  assert (V := validateFunds_ids SplitAssetQuote).
  assert (W := steady_validateFunds).
  destruct r; simpl; unfold single, Engine.CreateOrderOCO,
    Engine.CreateOrderLimit, Engine.CreateOrderMarket,
    Engine.CreateOrderMarketQuote, Engine.createOrderMarket,
    Engine.CreateOrderStop;
    (destruct (eqb _ 0);
     [intros [= <- <-]; split;
      [apply steady_refl | split; [now rewrite app_nil_r | constructor]]|]);
    match goal with
    | |- context [Engine.validateFunds ?S ?s ?pr ?a ?v ?f ?q] =>
      specialize (V s pr a v f q); specialize (W s pr a v f q);
      destruct (Engine.validateFunds S s pr a v f q) as [w [err|]] eqn:Ev
    end; cbn [fst] in V, W; destruct V as (V1 & V2 & V3);
    destruct W as (W1 & W2 & W3);
    try (intros [= <- <-]; split;
         [exact W1 | split; [now rewrite V1, app_nil_r | constructor]]);
    cbv beta iota zeta delta [Engine.ID]; intros [= <- <-];
    (split; [apply (steady_trans _ w); [exact W1 | repeat steady_step]|]);
    (split;
     [cbn [orders set_orders set_counter];
      rewrite ?orders_addVolume, ?orders_ensureVolume, V1; reflexivity|]);
    repeat (constructor;
            [apply (runnable_new w);
             [ repeat steady_step | exact W2 | exact W3
             | simpl; first [discriminate | intros _; eexists; reflexivity]]|]);
    constructor.
Qed.

Lemma runnable_ages p o o' : ages o o' -> runnable p o -> runnable p o'.
Proof.
  intros H (A & B & C).
  destruct (ages_fields o o' H) as (_ & Ep & _ & Et & _ & _ & Es & _).
  unfold Life.runnable. now rewrite Ep, Et, Es.
Qed.

Lemma Safe_step p p' :
  Safe p -> steady p p' -> Forall2 ages (orders p) (orders p') -> Safe p'.
Proof.
  intros [Hb Ho] Hs Hl. split.
  - pose proof Hs as (Eb & _). rewrite Eb. eapply steady_keyed; eauto.
  - clear Hb. induction Hl as [|o o' l l' Hoo _ IH]; constructor.
    + apply Forall_cons in Ho as [Ho _].
      eapply runnable_steady; [exact Hs|]. eapply runnable_ages; eauto.
    + apply Forall_cons in Ho as [_ Ho]. auto.
Qed.

(** What one iteration of the loop of [OnCandle] does to the wallet. *)
Lemma onCandleOrder_log candle i p p' :
  Engine.onCandleOrder SplitAssetQuote candle i p = Some p' ->
  steady p p' /\ Forall2 ages (orders p) (orders p').
Proof.
  unfold Engine.onCandleOrder.
  destruct (orders p !! i) as [order|] eqn:Hi;
    [|intros [= <-]; split; [apply steady_refl | apply log_refl]].
  destruct (negb (bool_decide (Pair order = cPair candle))
            || negb (bool_decide (Status order = OrderStatusTypeNew))) eqn:Hskip;
    [intros [= <-]; split; [apply steady_refl | apply log_refl]|].
  apply orb_false_elim in Hskip as [_ Hst].
  apply negb_false_iff, bool_decide_eq_true in Hst.
  assert (Hi0 : orders (ensureVolume (cPair candle) p) !! i = Some order)
    by now rewrite orders_ensureVolume.
  assert (S0 : steady p (ensureVolume (cPair candle) p))
    by apply steady_ensureVolume.
  assert (L0 : orders (ensureVolume (cPair candle) p) = orders p)
    by apply orders_ensureVolume.
  set (p0 := ensureVolume (cPair candle) p) in *. clearbody p0.
  rewrite <- L0. clear L0.
  destruct (SplitAssetQuote (Pair order)) as [asset quote] eqn:Hsp.
  destruct (Side order) eqn:Hside.
  - (* buy *)
    rewrite (bool_decide_eq_true_2 (SideTypeBuy = SideTypeBuy)) by reflexivity.
    rewrite (bool_decide_eq_false_2 (SideTypeBuy = SideTypeSell)) by discriminate.
    cbn [andb]. intros H. apply bind_Some in H as (p1 & H1 & H).
    cbv beta iota in H. injection H as <-.
    destruct (geb (Price order) (cClose candle)).
    + cbv zeta in H1.
      match type of H1 with
      | context [assets ?x !! quote] =>
        destruct (assets x !! quote) as [q|] eqn:Hq; [|discriminate]
      end.
      injection H1 as <-. split.
      * apply (steady_trans _ p0); [exact S0 | repeat steady_step].
      * rewrite orders_setLock, orders_setFree,
          (orders_updateAveragePrice SplitAssetQuote), orders_markFilled,
          orders_addVolume, orders_ensureAsset.
        apply (log_alter _ _ i order Hi0). now apply ages_filled.
    + injection H1 as <-. split; [exact S0 | apply log_refl].
  - (* sell *)
    rewrite (bool_decide_eq_false_2 (SideTypeSell = SideTypeBuy)) by discriminate.
    rewrite (bool_decide_eq_true_2 (SideTypeSell = SideTypeSell)) by reflexivity.
    cbn [andb]. intros H. apply bind_Some in H as (p1 & H1 & H).
    injection H1 as <-. cbv beta iota in H.
    apply bind_Some in H as (op & Hsell & H).
    destruct op as [orderPrice|];
      [|injection H as <-; split; [exact S0 | apply log_refl]].
    cbv zeta in H.
    match type of H with
    | context [assets ?x !! asset] =>
      destruct (assets x !! asset) as [a|] eqn:Hq; [|discriminate]
    end.
    injection H as <-. split.
    + apply (steady_trans _ p0); [exact S0|].
      destruct (GroupID order); repeat steady_step.
    + rewrite orders_setFree, orders_setLock,
        (orders_updateAveragePrice SplitAssetQuote), orders_markFilled,
        orders_addVolume, orders_ensureAsset.
      destruct (GroupID order) as [gid|].
      * rewrite orders_set_orders.
        apply (log_trans _ (Engine.cancelGroup gid (ExchangeID order)
                              (cTime candle) (orders p0)));
          [apply log_cancelGroup|].
        apply (log_alter _ _ i order); [now apply cancelGroup_self|].
        now apply ages_filled.
      * apply (log_alter _ _ i order Hi0). now apply ages_filled.
Qed.

Lemma Safe_grown p p' :
  Safe p -> baseCoin p' = baseCoin p -> (forall k, keyed p k -> keyed p' k) ->
  Forall2 ages (orders p) (orders p') -> Safe p'.
Proof.
  intros [Hb Ho] Eb Hk Hl. split.
  - rewrite Eb. auto.
  - clear Hb. induction Hl as [|o o' l l' Hoo _ IH]; constructor.
    + apply Forall_cons in Ho as [(A & B & C) _].
      eapply runnable_ages; [exact Hoo|]. repeat split; auto.
    + apply Forall_cons in Ho as [_ Ho]. auto.
Qed.

Lemma keyed_None p k : keyed p k -> assets p !! k = None -> False.
Proof. intros [x Hx] E. congruence. Qed.

(** With the entries in place an iteration of the loop does not panic. *)
Lemma onCandleOrder_total candle i p :
  Safe p -> is_Some (Engine.onCandleOrder SplitAssetQuote candle i p).
Proof.
  intros [_ Ho]. unfold Engine.onCandleOrder.
  destruct (orders p !! i) as [order|] eqn:Hi; [|eauto].
  destruct (_ || _); [eauto|].
  assert (R : runnable p order).
  { rewrite List.Forall_forall in Ho. apply Ho. eapply lookup_In; eauto. }
  destruct R as (Ka & Kq & Ks).
  assert (S0 : steady p (ensureVolume (cPair candle) p))
    by apply steady_ensureVolume.
  set (p0 := ensureVolume (cPair candle) p) in *. clearbody p0.
  destruct (SplitAssetQuote (Pair order)) as [asset quote] eqn:Hsp.
  cbn [fst snd] in Ka, Kq.
  destruct (Side order) eqn:Hside.
  - (* buy *)
    rewrite (bool_decide_eq_true_2 (SideTypeBuy = SideTypeBuy)) by reflexivity.
    rewrite (bool_decide_eq_false_2 (SideTypeBuy = SideTypeSell)) by discriminate.
    cbn [andb]. destruct (geb (Price order) (cClose candle)); [|simpl; eauto].
    cbv zeta.
    match goal with
    | |- context [assets ?x !! quote] =>
      destruct (assets x !! quote) as [q|] eqn:Hq; [simpl; eauto|];
        exfalso; apply (keyed_None x quote); [|exact Hq];
        apply (steady_keyed p); [|exact Kq];
        apply (steady_trans _ p0); [exact S0 | repeat steady_step]
    end.
  - (* sell *)
    rewrite (bool_decide_eq_false_2 (SideTypeSell = SideTypeBuy)) by discriminate.
    rewrite (bool_decide_eq_true_2 (SideTypeSell = SideTypeSell)) by reflexivity.
    cbn [andb mbind option_bind].
    assert (Hp : is_Some (Engine.sellPrice order candle)).
    { unfold Engine.sellPrice. destruct (_ && _); [eauto|].
      destruct (Engine.isStopSell (Type_ order)); [|eauto].
      destruct (Ks eq_refl) as [s ->]. destruct (leb _ s); eauto. }
    destruct Hp as [op ->]. cbn [mbind option_bind].
    destruct op as [orderPrice|]; [|eauto].
    cbv zeta.
    match goal with
    | |- context [assets ?x !! asset] =>
      destruct (assets x !! asset) as [a|] eqn:Hq; [eauto|];
        exfalso; apply (keyed_None x asset); [|exact Hq];
        apply (steady_keyed p); [|exact Ka];
        apply (steady_trans _ p0); [exact S0|];
        destruct (GroupID order); repeat steady_step
    end.
Qed.

Lemma forEach_log candle l : forall p p',
  Engine.forEach (Engine.onCandleOrder SplitAssetQuote candle) l p = Some p' ->
  steady p p' /\ Forall2 ages (orders p) (orders p').
Proof.
  induction l as [|i l IH]; simpl; intros p p' H.
  - injection H as <-. split; [apply steady_refl | apply log_refl].
  - apply bind_Some in H as (q & Hq & H).
    apply onCandleOrder_log in Hq as [S1 L1]. apply IH in H as [S2 L2].
    split; [eapply steady_trans | eapply log_trans]; eauto.
Qed.

Lemma forEach_total candle l : forall p,
  Safe p ->
  is_Some (Engine.forEach (Engine.onCandleOrder SplitAssetQuote candle) l p).
Proof.
  induction l as [|i l IH]; simpl; intros p Hp; [eauto|].
  destruct (onCandleOrder_total candle i p Hp) as [q Hq]. rewrite Hq. simpl.
  apply IH. apply onCandleOrder_log in Hq as [S1 L1].
  eapply Safe_step; eauto.
Qed.

(** What [OnCandle] does to the log, the entries and the equity history. *)
Lemma OnCandle_log candle p p' :
  Engine.OnCandle SplitAssetQuote candle p = Some p' ->
  baseCoin p' = baseCoin p /\ (forall k, keyed p k -> keyed p' k) /\
  Forall2 ages (orders p) (orders p') /\
  map avTime (equityValues p')
  = map avTime (equityValues p)
    ++ (if cComplete candle then [cTime candle] else []).
Proof.
  unfold Engine.OnCandle. cbv zeta. intros H.
  apply bind_Some in H as (q & Hq & H).
  apply forEach_log in Hq as [Sq Lq].
  assert (B : baseCoin q = baseCoin p /\ (forall k, keyed p k -> keyed q k) /\
              Forall2 ages (orders p) (orders q) /\
              equityValues q = equityValues p).
  { destruct Sq as (S1 & _ & _ & _ & _ & _ & _ & S8 & S9).
    destruct (fistCandle _ !! _); simpl in *; repeat split; auto. }
  clear Sq Lq. destruct B as (B1 & B2 & B3 & B4).
  destruct (cComplete candle).
  - destruct (map_fold _ _ _) as [total values].
    apply bind_Some in H as (b & _ & H). injection H as <-. simpl.
    repeat split; auto. rewrite B4, map_app. reflexivity.
  - injection H as <-. repeat split; auto. rewrite B4. now rewrite app_nil_r.
Qed.

Lemma OnCandle_total candle p :
  Safe p -> is_Some (Engine.OnCandle SplitAssetQuote candle p).
Proof.
  intros Hp. unfold Engine.OnCandle. cbv zeta.
  match goal with
  | |- context [Engine.forEach ?f ?l ?x] =>
    assert (Hx : Safe x);
      [|destruct (forEach_total candle l x Hx) as [q Hq]; rewrite Hq]
  end.
  { destruct (fistCandle _ !! _); exact Hp. }
  cbn [mbind option_bind].
  apply forEach_log in Hq as [Sq Lq].
  assert (Kb : keyed q (baseCoin q)).
  { destruct Sq as (S1 & _ & _ & _ & _ & _ & _ & _ & S9). rewrite S1.
    apply S9. destruct (fistCandle _ !! _); apply Hp. }
  destruct (cComplete candle); [|eauto].
  destruct (map_fold _ _ _) as [total values].
  destruct Kb as [b Hb]. simpl. rewrite Hb. simpl. eauto.
Qed.

Lemma exec_log o p p' :
  exec SplitAssetQuote AmountToLotSize o p = Some p' ->
  exists old new, orders p' = old ++ new /\ Forall2 ages (orders p) old.
Proof.
  destruct o as [r|candle|order]; simpl.
  - destruct (place SplitAssetQuote AmountToLotSize r p) as [w res] eqn:E.
    simpl. intros [= <-]. apply place_shape in E as (_ & Eo & _).
    eexists (orders p), _. split; [exact Eo | apply log_refl].
  - intros H. apply OnCandle_log in H as (_ & _ & L & _).
    exists (orders p'), []. split; [now rewrite app_nil_r | exact L].
  - intros [= <-]. eexists _, []. split; [now rewrite app_nil_r|].
    apply log_Cancel.
Qed.

(** X9.  The order log only grows: after any sequence of operations the log
    is the old log, entry by entry in the same order, followed by the
    orders placed since.  An old entry differs from what it was in its
    status and update time at most, and its status has only moved forward:
    from [New] to [Filled], or to [Canceled]; no order is removed, reopened
    or filled twice. *)
Theorem log_only_grows l : forall p p',
  run SplitAssetQuote AmountToLotSize l p = Some p' ->
  exists old new, orders p' = old ++ new /\ Forall2 ages (orders p) old.
Proof.
  induction l as [|o l IH]; simpl; intros p p' H.
  - injection H as <-. exists (orders p), []. split; [now rewrite app_nil_r|].
    apply log_refl.
  - apply bind_Some in H as (q & Hq & H).
    apply exec_log in Hq as (old1 & new1 & E1 & L1).
    apply IH in H as (old2 & new2 & E2 & L2).
    rewrite E1 in L2. apply Forall2_app_inv_l in L2 as (a & b & La & Lb & ->).
    exists a, (b ++ new2). split; [now rewrite E2, app_assoc|].
    eapply log_trans; eauto.
Qed.

Lemma exec_Safe o p :
  Safe p ->
  exists p', exec SplitAssetQuote AmountToLotSize o p = Some p' /\ Safe p'.
Proof.
  intros Hp. destruct o as [r|candle|order]; simpl.
  - destruct (place SplitAssetQuote AmountToLotSize r p) as [w res] eqn:E.
    exists w. split; [reflexivity|].
    apply place_shape in E as (S & Eo & R). destruct Hp as [Hb Ho]. split.
    + pose proof S as (Eb & _). rewrite Eb. eapply steady_keyed; eauto.
    + rewrite Eo. apply Forall_app. split; [|exact R].
      eapply Forall_impl; [exact Ho|]. intros o. now apply runnable_steady.
  - destruct (OnCandle_total candle p Hp) as [p' H]. exists p'.
    split; [exact H|]. apply OnCandle_log in H as (Eb & K & L & _).
    now apply (Safe_grown p).
  - eexists. split; [reflexivity|].
    apply (Safe_grown p); auto. apply log_Cancel.
Qed.

Lemma run_Safe l : forall p,
  Safe p -> is_Some (run SplitAssetQuote AmountToLotSize l p).
Proof.
  induction l as [|o l IH]; simpl; intros p Hp; [eauto|].
  destruct (exec_Safe o p Hp) as (q & -> & Hq). simpl. now apply IH.
Qed.

Lemma options_keep options : forall w,
  Forall paperOption options ->
  let w' := fold_left (fun w option => option w) options w in
  orders w' = orders w /\ counter w' = counter w.
Proof.
  induction options as [|f options IH]; intros w Hf; [split; reflexivity|].
  apply Forall_cons in Hf as [Hf Hr]. simpl.
  destruct (IH (f w) Hr) as [-> ->]. destruct Hf; split; reflexivity.
Qed.

(** X10.  A wallet built by [NewPaperWallet] from the options of the
    package never panics: every sequence of placements of any kind, bars
    and cancellations runs to the end.  The entries that [OnCandle]
    dereferences (the asset and quote of every logged order, the stop
    price of a stop order, the base coin) are in place and stay. *)
Theorem wallet_never_panics baseCoin options w l :
  Forall paperOption options ->
  Engine.NewPaperWallet baseCoin options = Some w ->
  is_Some (run SplitAssetQuote AmountToLotSize l w).
Proof.
  intros Hf. unfold Engine.NewPaperWallet. cbv zeta. intros H.
  apply bind_Some in H as (info & Hi & H). injection H as <-.
  apply run_Safe. split.
  - simpl. unfold keyed. simpl. eauto.
  - simpl. destruct (options_keep options (Engine.emptyWallet baseCoin) Hf)
      as [-> _]. constructor.
Qed.

Lemma exec_equity o p p' :
  exec SplitAssetQuote AmountToLotSize o p = Some p' ->
  map avTime (equityValues p')
  = map avTime (equityValues p) ++ barTimes [o].
Proof.
  destruct o as [r|candle|order]; simpl.
  - destruct (place SplitAssetQuote AmountToLotSize r p) as [w res] eqn:E.
    simpl. intros [= <-]. apply place_shape in E as (S & _).
    destruct S as (_ & _ & _ & _ & _ & _ & _ & -> & _). now rewrite app_nil_r.
  - intros H. apply OnCandle_log in H as (_ & _ & _ & ->).
    now rewrite app_nil_r.
  - intros [= <-]. now rewrite app_nil_r.
Qed.

(** X11.  The equity history is a record of the complete bars: after any
    sequence of operations it holds the samples it held before followed
    by one sample for each complete bar received, in order of arrival and
    stamped with the bar's time; incomplete bars, placements and
    cancellations add no sample, and no sample is ever removed. *)
Theorem equity_history_follows_bars l : forall p p',
  run SplitAssetQuote AmountToLotSize l p = Some p' ->
  map avTime (equityValues p')
  = map avTime (equityValues p) ++ barTimes l.
Proof.
  induction l as [|o l IH]; simpl; intros p p' H.
  - injection H as <-. now rewrite app_nil_r.
  - apply bind_Some in H as (q & Hq & H).
    apply exec_equity in Hq. apply IH in H. rewrite H, Hq.
    simpl. now rewrite app_nil_r, app_assoc.
Qed.

Lemma find_by_id l : forall o,
  StronglySorted Z.lt (map ExchangeID l) -> In o l ->
  List.find (fun x => (ExchangeID x =? ExchangeID o)%Z) l = Some o.
Proof.
  induction l as [|x l IH]; intros o Hs Ho; [contradiction|].
  apply sorted_ids_head in Hs as [Hs Hlt]. simpl.
  destruct Ho as [->|Ho]; [now rewrite Z.eqb_refl|].
  specialize (Hlt o Ho). rewrite (proj2 (Z.eqb_neq _ _)) by lia.
  now apply IH.
Qed.

Lemma find_absent (f : Order -> bool) l :
  (forall x, In x l -> f x = false) -> List.find f l = None.
Proof.
  induction l as [|x l IH]; intros H; [reflexivity|]. simpl.
  rewrite (H x) by (simpl; auto). apply IH. intros y Hy. apply H. simpl; auto.
Qed.

(** X12.  Looking up what was placed: from a fresh wallet, after any
    sequence of operations that cannot have exhausted the counter, [Order]
    called with the exchange id of an order of the log returns that very
    order in its current state, and called with an id above the counter
    it returns the error (no order found). *)
Theorem Order_finds_every_order l w0 p :
  fresh w0 ->
  run SplitAssetQuote AmountToLotSize l w0 = Some p ->
  (3 * Z.of_nat (length l) <= MaxInt64)%Z ->
  (forall o, In o (orders p) -> Engine.Order_ (ExchangeID o) p = Some o) /\
  (forall id, (counter p < id)%Z -> Engine.Order_ id p = None).
Proof.
  intros Hf Hr Hb.
  assert (Hc0 : counter w0 = 0%Z) by apply Hf.
  apply fresh_IdsInv in Hf.
  apply run_IdsInv in Hr as [(I0 & I1 & I2) _]; [|auto|lia].
  unfold Engine.Order_. split.
  - intros o Ho. now apply find_by_id.
  - intros id Hid. apply find_absent. intros x Hx.
    apply Z.eqb_neq. rewrite List.Forall_forall in I2.
    specialize (I2 (ExchangeID x) (in_map _ _ _ Hx)). lia.
Qed.

End WithPairs.
End LifeFacts.

(** ** Reservations and executions *)

Module FundsFacts.
Import Wallet Ops NumFacts FrameFacts IdFacts LongOnly LongOnlyFacts Funds.
Local Open Scope Q_scope.

Lemma assetAt_set_counter c p k : assetAt (set_counter c p) k = assetAt p k.
Proof. reflexivity. Qed.

Section WithPairs.
Variable SplitAssetQuote : string -> string * string.
Variable AmountToLotSize : Q -> Z -> Q -> Q.

Local Abbreviation validateFunds := (Engine.validateFunds SplitAssetQuote).

Create Rewrite HintDb funds.
Hint Rewrite freeOf_setFree lockOf_setFree freeOf_setLock lockOf_setLock
  assetAt_ensureAsset (assetAt_updateAveragePrice SplitAssetQuote)
  assetAt_markFilled assetAt_addVolume assetAt_ensureVolume
  assetAt_set_orders assetAt_set_counter : funds.

Ltac funds :=
  autorewrite with funds; repeat case_decide; simplify_eq; try lra.

(** A reservation for a sell moves quantities from free to locked. *)
Lemma validateFunds_sell_reserves pr amount value p w :
  validateFunds SideTypeSell pr amount value false p = (w, None) ->
  forall k, freeOf w k + lockOf w k == freeOf p k + lockOf p k.
Proof.
  unfold Engine.validateFunds.
  destruct (SplitAssetQuote pr) as [asset quote].
  set (p0 := ensureAsset quote (ensureAsset asset p)).
  assert (B0 : forall k, assetAt p0 k = assetAt p k).
  { intros k. unfold p0. now rewrite !assetAt_ensureAsset. }
  destruct (ltb _ (amount * value)); [discriminate|].
  set (lA := Min (Max (freeOf p0 asset) 0) amount).
  set (lQ := (amount - lA) * value). clearbody lA lQ.
  intros [= <-] k. funds; rewrite ?B0; funds.
Qed.

Lemma place_balances_on_error r p p' e :
  place SplitAssetQuote AmountToLotSize r p = (p', inr e) ->
  forall k, assetAt p' k = assetAt p k.
Proof.
  intros H k. apply place_error in H
    as [[_ ->]|(asset & quote & pr & q & _ & ->)]; [reflexivity|].
  now rewrite !assetAt_ensureAsset.
Qed.

(** X13.  Placing a pending order (limit, stop or OCO) moves quantities
    from free to locked and nothing else: for every asset the total of
    free and locked, which is what [Position] reports, is the same after
    the call as before, whether the order is accepted or refused.  For a
    sell this holds in every state, for a buy of positive size while the
    asset is not held short. *)
Theorem pending_order_keeps_totals r p p' res :
  reserving SplitAssetQuote r p ->
  place SplitAssetQuote AmountToLotSize r p = (p', res) ->
  forall k, freeOf p' k + lockOf p' k == freeOf p k + lockOf p k.
Proof.
  intros Hr Hpl k. destruct res as [created|e].
  2:{ now rewrite (place_balances_on_error r p p' e Hpl k). }
  assert (Hb : forall pr size value w,
    0 < size -> 0 <= freeOf p (SplitAssetQuote pr).1 ->
    validateFunds SideTypeBuy pr size value false p = (w, None) ->
    freeOf w k + lockOf w k == freeOf p k + lockOf p k).
  { intros pr size value w Hs Hf Hv.
    destruct (validateFunds_buy_long SplitAssetQuote pr size value false p w
                Hs Hf Hv) as (_ & E).
    destruct (E k) as [-> ->]. lra. }
  pose proof (fun pr size value w H =>
    validateFunds_sell_reserves pr size value p w H k) as Hs.
  destruct r as [side pr size price stop stopLimit | side pr size limit
                | side pr size | side pr qq | pr size limit];
    simpl in Hr, Hpl; try contradiction;
    unfold single, Engine.CreateOrderOCO, Engine.CreateOrderLimit,
      Engine.CreateOrderStop in Hpl;
    (destruct (eqb _ 0); [discriminate Hpl|]);
    match type of Hpl with
    | context [Engine.validateFunds ?S ?s ?pr ?a ?v ?f ?q] =>
      destruct (Engine.validateFunds S s pr a v f q) as [w [err|]] eqn:Ev
    end; try discriminate Hpl;
    cbv beta iota zeta delta [Engine.ID] in Hpl; injection Hpl as <- _;
    autorewrite with funds;
    change (freeOf w k + lockOf w k == freeOf p k + lockOf p k);
    try (destruct side; [apply (Hb _ _ _ _ (proj1 Hr) (proj2 Hr) Ev)
                        | apply (Hs _ _ _ _ Ev)]).
  apply (Hs _ _ _ _ Ev).
Qed.

(** What an execution at [price] that opens no short does to the
    balances. *)
Lemma validateFunds_plain side pr size price fill p w :
  plain SplitAssetQuote side pr size price p ->
  validateFunds side pr size price fill p = (w, None) ->
  forall k,
    freeOf w k ==
      freeOf p k
      + (if decide ((SplitAssetQuote pr).1 = k)
         then if fill then assetDelta side size
              else match side with SideTypeSell => - size | _ => 0 end
         else 0)
      + (if decide ((SplitAssetQuote pr).2 = k)
         then if fill then quoteDelta side size price
              else match side with
                   | SideTypeBuy => - (size * price)
                   | _ => 0
                   end
         else 0) /\
    lockOf w k ==
      lockOf p k
      + (if fill then 0
         else match side with
              | SideTypeSell =>
                if decide ((SplitAssetQuote pr).1 = k) then size else 0
              | SideTypeBuy =>
                if decide ((SplitAssetQuote pr).2 = k) then size * price else 0
              end).
Proof.
  intros (Hs & Hp & Hc) Hv k. destruct side.
  - destruct (validateFunds_buy_long SplitAssetQuote pr size price fill p w
                Hs Hc Hv) as (_ & E).
    destruct (E k) as [-> ->]. unfold assetDelta, quoteDelta.
    destruct fill; repeat case_decide; split; lra.
  - destruct (validateFunds_sell_covered SplitAssetQuote pr size price fill p w
                Hs Hp Hc Hv k) as [-> ->]. unfold assetDelta, quoteDelta.
    destruct fill; repeat case_decide; split; lra.
Qed.

(** X14.  A market order that opens no short position is executed at the
    close of the last bar of the pair, in full and without fee: the order
    returned is [Filled] at that price, the free quantity of the asset
    moves by the size and the free quantity of the quote by size times
    close in the opposite direction; nothing is locked and no other
    balance changes. *)
Theorem market_order_trades_at_close side pr size p p' created :
  plain SplitAssetQuote side pr size (cClose (candleAt (lastCandle p) pr)) p ->
  place SplitAssetQuote AmountToLotSize (ReqMarket side pr size) p
    = (p', inl created) ->
  exists o,
    created = [o] /\ Status o = OrderStatusTypeFilled /\
    Side o = side /\ Quantity o = size /\
    Price o = cClose (candleAt (lastCandle p) pr) /\
    forall k,
      lockOf p' k == lockOf p k /\
      freeOf p' k ==
        freeOf p k
        + (if decide ((SplitAssetQuote pr).1 = k)
           then assetDelta side size else 0)
        + (if decide ((SplitAssetQuote pr).2 = k)
           then quoteDelta side size (cClose (candleAt (lastCandle p) pr))
           else 0).
Proof.
  intros Hp Hpl. simpl in Hpl.
  unfold single, Engine.CreateOrderMarket, Engine.createOrderMarket in Hpl.
  destruct (eqb size 0); [discriminate Hpl|].
  pose proof (validateFunds_ids SplitAssetQuote side pr size
                (cClose (candleAt (lastCandle p) pr)) true p) as V.
  destruct (Engine.validateFunds _ _ _ _ _ _ _) as [w [err|]] eqn:Ev;
    [discriminate Hpl|].
  cbn [fst] in V. destruct V as (V1 & V2 & V3).
  cbv beta iota zeta delta [Engine.ID] in Hpl. injection Hpl as <- <-.
  eexists. split; [reflexivity|]. simpl.
  rewrite lastCandle_ensureVolume, V3.
  repeat split; auto;
    destruct (validateFunds_plain side pr size _ true p w Hp Ev k) as [F L].
  - autorewrite with funds.
    change (lockOf w k == lockOf p k). rewrite L. ring.
  - autorewrite with funds.
    change (freeOf w k == freeOf p k
      + (if decide ((SplitAssetQuote pr).1 = k)
         then assetDelta side size else 0)
      + (if decide ((SplitAssetQuote pr).2 = k)
         then quoteDelta side size (cClose (candleAt (lastCandle p) pr))
         else 0)).
    exact F.
Qed.

Lemma forEach_app (f : nat -> PaperWallet -> option PaperWallet) l1 l2 p :
  Engine.forEach f (l1 ++ l2) p
  = Engine.forEach f l1 p ≫= Engine.forEach f l2.
Proof.
  revert p. induction l1 as [|i l1 IH]; intros p; [reflexivity|].
  simpl. destruct (f i p) as [q|]; simpl; [apply IH | reflexivity].
Qed.

Lemma forEach_skip (f : nat -> PaperWallet -> option PaperWallet) l p :
  (forall i, In i l -> f i p = Some p) -> Engine.forEach f l p = Some p.
Proof.
  induction l as [|i l IH]; intros H; [reflexivity|].
  simpl. rewrite (H i) by (simpl; auto). simpl. apply IH.
  intros j Hj. apply H. simpl; auto.
Qed.

(** The loop of [OnCandle] passes over the orders of other pairs and over
    the orders that are not pending. *)
Lemma onCandleOrder_skip candle i p o :
  orders p !! i = Some o ->
  Pair o <> cPair candle \/ Status o <> OrderStatusTypeNew ->
  Engine.onCandleOrder SplitAssetQuote candle i p = Some p.
Proof.
  intros Hi H. unfold Engine.onCandleOrder. rewrite Hi.
  destruct H as [H|H].
  - now rewrite (bool_decide_eq_false_2 _ H).
  - rewrite (bool_decide_eq_false_2 (Status o = OrderStatusTypeNew) H).
    now rewrite orb_true_r.
Qed.

(** What the fill of a pending limit order does to the balances. *)
Lemma fill_balances candle i p q order :
  orders p !! i = Some order -> Pair order = cPair candle ->
  Status order = OrderStatusTypeNew -> Type_ order = OrderTypeLimit ->
  GroupID order = None ->
  reaches candle (Side order) (Price order) = true ->
  Engine.onCandleOrder SplitAssetQuote candle i p = Some q ->
  orders q
  = alter (fun o => setStatus OrderStatusTypeFilled
                      (setUpdatedAt (cTime candle) o)) i (orders p) /\
  forall k,
    freeOf q k ==
      freeOf p k
      + match Side order with
        | SideTypeBuy =>
          if decide ((SplitAssetQuote (Pair order)).1 = k)
          then Quantity order else 0
        | SideTypeSell =>
          if decide ((SplitAssetQuote (Pair order)).2 = k)
          then Quantity order * Price order else 0
        end /\
    lockOf q k ==
      lockOf p k
      - match Side order with
        | SideTypeBuy =>
          if decide ((SplitAssetQuote (Pair order)).2 = k)
          then Price order * Quantity order else 0
        | SideTypeSell =>
          if decide ((SplitAssetQuote (Pair order)).1 = k)
          then Quantity order else 0
        end.
Proof.
  intros Hi Hp Hst Ht Hg Hr. unfold Engine.onCandleOrder. rewrite Hi.
  rewrite (bool_decide_eq_true_2 _ Hp), (bool_decide_eq_true_2 _ Hst).
  cbn [negb orb].
  destruct (SplitAssetQuote (Pair order)) as [asset quote] eqn:Hsp.
  cbn [fst snd]. unfold reaches in Hr.
  destruct (Side order) eqn:Hside.
  - (* buy *)
    rewrite (bool_decide_eq_true_2 (SideTypeBuy = SideTypeBuy)) by reflexivity.
    rewrite (bool_decide_eq_false_2 (SideTypeBuy = SideTypeSell)) by discriminate.
    rewrite Hr. cbn [andb]. intros H. apply bind_Some in H as (p1 & H1 & H).
    cbv beta iota in H. injection H as <-. cbv zeta in H1.
    match type of H1 with
    | context [assets ?x !! quote] =>
      destruct (assets x !! quote) as [a|] eqn:Hq; [|discriminate]
    end.
    apply lookup_assetAt in Hq. subst a. injection H1 as <-. split.
    + now rewrite orders_setLock, orders_setFree,
        (orders_updateAveragePrice SplitAssetQuote), orders_markFilled,
        orders_addVolume, orders_ensureAsset, orders_ensureVolume.
    + intros k. split; funds.
  - (* sell *)
    rewrite (bool_decide_eq_false_2 (SideTypeSell = SideTypeBuy)) by discriminate.
    rewrite (bool_decide_eq_true_2 (SideTypeSell = SideTypeSell)) by reflexivity.
    cbn [andb mbind option_bind]. unfold Engine.sellPrice.
    rewrite Ht, Hg. cbn [Engine.isLimitSell andb]. rewrite Hr.
    cbn [mbind option_bind]. cbv zeta.
    match goal with
    | |- context [assets ?x !! asset] =>
      destruct (assets x !! asset) as [a|] eqn:Hq; [|discriminate]
    end.
    apply lookup_assetAt in Hq. subst a. intros [= <-]. split.
    + now rewrite orders_setFree, orders_setLock,
        (orders_updateAveragePrice SplitAssetQuote), orders_markFilled,
        orders_addVolume, orders_ensureAsset, orders_ensureVolume.
    + intros k. split; funds.
Qed.

Lemma alter_last {A} (f : A -> A) l x :
  alter f (length l) (l ++ [x]) = l ++ [f x].
Proof. induction l as [|y l IH]; simpl; [reflexivity | now f_equal]. Qed.

(** X15.  Reserving and filling compose to an execution at the limit: when
    a limit order that opens no short position is placed, no other order
    of the pair is pending, and the next bar of the pair reaches the limit
    (close at or below the limit of a buy, high at or above the limit of a
    sell), then after that bar the order is [Filled] in the log, nothing
    is locked any more, and the free balances have moved as for a market
    order executed at the limit price. *)
Theorem limit_order_fills_at_its_limit side pr size limit p p1 created candle p2 :
  plain SplitAssetQuote side pr size limit p ->
  Forall (fun o => Pair o <> pr \/ Status o <> OrderStatusTypeNew) (orders p) ->
  place SplitAssetQuote AmountToLotSize (ReqLimit side pr size limit) p
    = (p1, inl created) ->
  cPair candle = pr -> reaches candle side limit = true ->
  Engine.OnCandle SplitAssetQuote candle p1 = Some p2 ->
  (exists o,
     created = [o] /\ Status o = OrderStatusTypeNew /\
     orders p2
     = orders p ++ [setStatus OrderStatusTypeFilled
                      (setUpdatedAt (cTime candle) o)]) /\
  forall k,
    lockOf p2 k == lockOf p k /\
    freeOf p2 k ==
      freeOf p k
      + (if decide ((SplitAssetQuote pr).1 = k)
         then assetDelta side size else 0)
      + (if decide ((SplitAssetQuote pr).2 = k)
         then quoteDelta side size limit else 0).
Proof.
  intros Hp Hold Hpl Hc Hr Hon. simpl in Hpl.
  unfold single, Engine.CreateOrderLimit in Hpl.
  destruct (eqb size 0); [discriminate Hpl|].
  pose proof (validateFunds_ids SplitAssetQuote side pr size limit false p) as V.
  destruct (Engine.validateFunds _ _ _ _ _ _ _) as [w [err|]] eqn:Ev;
    [discriminate Hpl|].
  cbn [fst] in V. destruct V as (V1 & V2 & V3).
  cbv beta iota zeta delta [Engine.ID] in Hpl. injection Hpl as <- <-.
  match type of Hon with
  | context [set_orders (_ ++ [?o]) _] => set (order := o) in *
  end.
  match type of Hon with
  | Engine.OnCandle _ _ ?x = _ => set (q1 := x) in *
  end.
  assert (O1 : orders q1 = orders p ++ [order])
    by (unfold q1; simpl; now rewrite V1).
  assert (A1 : forall k, assetAt q1 k = assetAt w k) by reflexivity.
  clearbody q1.
  unfold Engine.OnCandle in Hon. cbv zeta in Hon.
  apply bind_Some in Hon as (q & Hq & Hon).
  match type of Hq with
  | context [Engine.forEach _ _ ?x] => set (q0 := x) in *
  end.
  assert (O0 : orders q0 = orders p ++ [order])
    by (unfold q0; destruct (fistCandle _ !! _); exact O1).
  assert (A0 : forall k, assetAt q0 k = assetAt w k)
    by (intros k; unfold q0; destruct (fistCandle _ !! _); apply A1).
  clearbody q0.
  rewrite O0, length_app in Hq. cbn [length] in Hq.
  rewrite seq_app, forEach_app in Hq.
  rewrite forEach_skip in Hq.
  2:{ intros i Hi. apply in_seq in Hi.
      destruct (lookup_lt_is_Some_2 (orders p) i) as [o Ho]; [lia|].
      apply (onCandleOrder_skip candle i q0 o).
      - rewrite O0. rewrite lookup_app_l by lia. exact Ho.
      - rewrite List.Forall_forall in Hold. rewrite Hc. apply Hold.
        eapply lookup_In; eauto. }
  cbn [mbind option_bind seq Engine.forEach] in Hq.
  apply bind_Some in Hq as (q2 & Hq2 & Hq). injection Hq as <-.
  apply (fill_balances candle _ q0 q2 order) in Hq2
    as (Oq & Bq); try reflexivity;
    [ | rewrite O0; simpl; apply list_lookup_middle; reflexivity
      | simpl; congruence | exact Hr ].
  assert (E2 : orders p2 = orders q2 /\ forall k, assetAt p2 k = assetAt q2 k).
  { destruct (cComplete candle); [|injection Hon as <-; auto].
    destruct (map_fold _ _ _) as [total values].
    apply bind_Some in Hon as (b & _ & Hon). injection Hon as <-. auto. }
  destruct E2 as [E2 A2]. split.
  - exists order. split; [reflexivity|]. split; [reflexivity|].
    rewrite E2, Oq, O0.
    exact (alter_last (fun o => setStatus OrderStatusTypeFilled
                                  (setUpdatedAt (cTime candle) o))
             (orders p) order).
  - intros k. rewrite A2. destruct (Bq k) as [-> ->]. rewrite A0.
    destruct (validateFunds_plain side pr size limit false p w Hp Ev k)
      as [-> ->].
    unfold order. simpl. unfold assetDelta, quoteDelta.
    destruct side; repeat case_decide; split; lra.
Qed.

(** A bar that finds no pending order changes neither the log nor the
    balances. *)
Lemma OnCandle_idle candle p p' :
  Forall (fun o => Status o <> OrderStatusTypeNew) (orders p) ->
  Engine.OnCandle SplitAssetQuote candle p = Some p' ->
  orders p' = orders p /\ assets p' = assets p.
Proof.
  intros Hn Hon. unfold Engine.OnCandle in Hon. cbv zeta in Hon.
  apply bind_Some in Hon as (q & Hq & Hon).
  match type of Hq with
  | context [Engine.forEach _ _ ?x] => set (q0 := x) in *
  end.
  assert (O0 : orders q0 = orders p)
    by (unfold q0; destruct (fistCandle _ !! _); reflexivity).
  assert (A0 : assets q0 = assets p)
    by (unfold q0; destruct (fistCandle _ !! _); reflexivity).
  clearbody q0.
  rewrite forEach_skip in Hq.
  2:{ intros i Hi. apply in_seq in Hi.
      destruct (lookup_lt_is_Some_2 (orders q0) i) as [o Ho]; [lia|].
      apply (onCandleOrder_skip candle i q0 o Ho). right.
      rewrite List.Forall_forall in Hn. apply Hn. rewrite <- O0.
      eapply lookup_In; eauto. }
  injection Hq as <-.
  destruct (cComplete candle); [|injection Hon as <-; auto].
  destruct (map_fold _ _ _) as [total values].
  apply bind_Some in Hon as (b & _ & Hon). injection Hon as <-. auto.
Qed.

(** X16.  [Cancel] marks the order and releases nothing: when the orders
    with the exchange id of [order] are the only pending ones, then after
    the cancellation no sequence of bars changes a balance, so what was
    locked for the order stays locked. *)
Theorem canceled_order_keeps_its_lock order p candles p' :
  Forall (fun o => Status o = OrderStatusTypeNew ->
                   ExchangeID o = ExchangeID order) (orders p) ->
  run SplitAssetQuote AmountToLotSize (map OpCandle candles)
      (Engine.Cancel order p) = Some p' ->
  forall k, freeOf p' k = freeOf p k /\ lockOf p' k = lockOf p k.
Proof.
  intros Hn Hrun.
  assert (G : orders p' = orders (Engine.Cancel order p) /\
              assets p' = assets p).
  { assert (Hc : Forall (fun o => Status o <> OrderStatusTypeNew)
                        (orders (Engine.Cancel order p))).
    { unfold Engine.Cancel. simpl. apply Forall_map.
      eapply Forall_impl; [exact Hn|]. intros o Ho. simpl.
      destruct (ExchangeID o =? ExchangeID order)%Z eqn:E; [discriminate|].
      intros Hs. apply Ho in Hs. apply Z.eqb_neq in E. contradiction. }
    change (assets p) with (assets (Engine.Cancel order p)).
    revert Hrun Hc. generalize (Engine.Cancel order p). clear Hn.
    induction candles as [|candle candles IH]; intros w Hrun Hc.
    - injection Hrun as <-. auto.
    - simpl in Hrun. apply bind_Some in Hrun as (w1 & H1 & Hrun).
      apply OnCandle_idle in H1 as [O1 A1]; [|exact Hc].
      rewrite <- O1, <- A1. apply IH; [exact Hrun|]. now rewrite O1. }
  destruct G as [_ A]. intros k. unfold freeOf, lockOf, assetAt.
  now rewrite A.
Qed.

End WithPairs.
End FundsFacts.

(** ** The position that the average-price algorithm reads *)

Module ProfitFacts.
Import Wallet Ops NumFacts FrameFacts LongOnly LongOnlyFacts.
Local Open Scope Q_scope.

Section WithPairs.
Variable SplitAssetQuote : string -> string * string.

Local Abbreviation validateFunds := (Engine.validateFunds SplitAssetQuote).
Local Abbreviation updateAveragePrice :=
  (Engine.updateAveragePrice SplitAssetQuote).

(** What [updateAveragePrice] does for a sell, by the free quantity it
    finds. *)
Lemma updateAveragePrice_sell pr amount value p :
  let qty := freeOf p (SplitAssetQuote pr).1 in
  (qty == 0 ->
   logged (updateAveragePrice SideTypeSell pr amount value p) = logged p /\
   avgShortPrice (updateAveragePrice SideTypeSell pr amount value p)
   = <[pr := value]> (avgShortPrice p)) /\
  (0 < qty ->
   logged (updateAveragePrice SideTypeSell pr amount value p)
   = logged p
     ++ [(amount * value - Min amount qty * priceAt (avgLongPrice p) pr,
          (amount * value - Min amount qty * priceAt (avgLongPrice p) pr)
          / (amount * priceAt (avgLongPrice p) pr))]).
Proof.
  cbv zeta. unfold Engine.updateAveragePrice, assetAt.
  destruct (SplitAssetQuote pr) as [asset quote]. cbn [fst].
  destruct (assets p !! asset) as [info|]; cbn [default from_option id];
    split.
  - intros H. apply eqb_eq in H. rewrite H. split; reflexivity.
  - intros H.
    assert (E0 : eqb (Free info) 0 = false) by (apply eqb_neq; lra).
    assert (E1 : gtb (Free info) 0 = true) by (apply gtb_gt; lra).
    rewrite E0, E1. simpl. now destruct (leb amount (Free info)).
  - intros _. split; reflexivity.
  - simpl. intros H. lra.
Qed.

(** [validateFunds] calls [updateAveragePrice] for a filled sell on a
    state in which the quantity sold has already left the free quantity of
    the asset. *)
Lemma market_sell_call_site pr amount value p w :
  (SplitAssetQuote pr).1 <> (SplitAssetQuote pr).2 ->
  0 < amount -> amount <= freeOf p (SplitAssetQuote pr).1 ->
  validateFunds SideTypeSell pr amount value true p = (w, None) ->
  exists q,
    freeOf q (SplitAssetQuote pr).1
    == freeOf p (SplitAssetQuote pr).1 - amount /\
    avgLongPrice q = avgLongPrice p /\ avgShortPrice q = avgShortPrice p /\
    logged q = logged p /\
    logged w = logged (updateAveragePrice SideTypeSell pr amount value q) /\
    avgShortPrice w
    = avgShortPrice (updateAveragePrice SideTypeSell pr amount value q).
Proof.
  intros Hne Ha Hc. unfold Engine.validateFunds.
  destruct (SplitAssetQuote pr) as [asset quote] eqn:Es. cbn [fst snd] in *.
  cbv zeta.
  set (p1 := ensureAsset quote (ensureAsset asset p)).
  assert (A1 : forall k, assetAt p1 k = assetAt p k)
    by (intros k; unfold p1; now rewrite !assetAt_ensureAsset).
  assert (F1 : avgLongPrice p1 = avgLongPrice p /\
               avgShortPrice p1 = avgShortPrice p /\ logged p1 = logged p)
    by (unfold p1, ensureAsset; repeat case_match; auto).
  destruct F1 as (L1 & S1 & G1).
  destruct (ltb _ _); [discriminate|].
  set (lockedAsset := Min (Max (Free (assetAt p1 asset)) 0) amount).
  assert (El : lockedAsset == amount).
  { unfold lockedAsset. rewrite (A1 asset).
    rewrite (Max_gt_l (Free (assetAt p asset)) 0) by lra.
    destruct (Min_cases (Free (assetAt p asset)) amount) as [[? E]|[? E]];
      rewrite E; lra. }
  clearbody lockedAsset.
  set (q := setFree quote _ (setFree asset _ p1)).
  intros H. exists q.
  assert (Fq : freeOf q asset == freeOf p asset - amount).
  { unfold q. rewrite freeOf_setFree, decide_False by congruence.
    rewrite freeOf_setFree, decide_True by reflexivity. rewrite A1. lra. }
  split; [exact Fq|]. split; [exact L1|]. split; [exact S1|].
  split; [exact G1|].
  destruct (gtb _ 0); injection H as <-; split; reflexivity.
Qed.

(** Selling the whole free quantity of an asset at market realizes
    nothing: [updateAveragePrice] finds no position, logs no profit and
    records the price as the average of a new short position. *)
Lemma full_close_realizes_nothing pr amount value p w :
  (SplitAssetQuote pr).1 <> (SplitAssetQuote pr).2 ->
  0 < amount -> amount == freeOf p (SplitAssetQuote pr).1 ->
  validateFunds SideTypeSell pr amount value true p = (w, None) ->
  logged w = logged p /\
  avgShortPrice w = <[pr := value]> (avgShortPrice p).
Proof.
  intros Hne Ha Hf Hv.
  destruct (market_sell_call_site pr amount value p w Hne Ha) as
    (q & Fq & _ & S & G & -> & ->); [lra | exact Hv |].
  destruct (updateAveragePrice_sell pr amount value q) as [H0 _].
  destruct H0 as [-> ->]; [lra|]. now rewrite S, G.
Qed.

(** Selling a part of the free quantity, [updateAveragePrice] compares the
    amount sold with what is left and not with what was held: the profit
    logged for [amount] out of [qty] units is
    [amount*value - min(amount, qty - amount)*avgLong]. *)
Lemma partial_close_profit pr amount value p w :
  (SplitAssetQuote pr).1 <> (SplitAssetQuote pr).2 ->
  0 < amount -> amount < freeOf p (SplitAssetQuote pr).1 ->
  validateFunds SideTypeSell pr amount value true p = (w, None) ->
  exists profit percentage,
    logged w = logged p ++ [(profit, percentage)] /\
    profit == amount * value
              - Min amount (freeOf p (SplitAssetQuote pr).1 - amount)
                * priceAt (avgLongPrice p) pr.
Proof.
  intros Hne Ha Hf Hv.
  destruct (market_sell_call_site pr amount value p w Hne Ha) as
    (q & Fq & L & _ & G & -> & _); [lra | exact Hv |].
  destruct (updateAveragePrice_sell pr amount value q) as [_ H1].
  rewrite H1 by lra. rewrite G, L. eexists _, _. split; [reflexivity|].
  destruct (Min_cases amount (freeOf q (SplitAssetQuote pr).1))
    as [[? ->]|[? ->]];
    destruct (Min_cases amount (freeOf p (SplitAssetQuote pr).1 - amount))
      as [[? ->]|[? ->]]; try lra.
  rewrite Fq. reflexivity.
Qed.

End WithPairs.
End ProfitFacts.

(** ** Rounding *)

Module RoundingFacts.
Import Binary64.

(** In binary64 the locked quote amount of two limit buys of one unit, at
    0.2 and at 0.5, is 0.2 + 0.5 rounded; taking off 0.2 and then 0.5 when
    both fill leaves -2^-54 and not 0. *)
Lemma rounding_leaves_negative_lock :
  PrimFloat.ltb lockAfterTwoBuys 0%float = true /\
  lockAfterTwoBuys = (-0x1p-54)%float.
Proof. vm_compute. split; reflexivity. Qed.

End RoundingFacts.

(** ** Building a wallet *)

Module SetupFacts.
Import Wallet Ops LongOnly Life.
Local Open Scope Q_scope.

Lemma WithPaperAsset_inj pair amount k a :
  Engine.WithPaperAsset pair amount = Engine.WithPaperAsset k a -> pair = k.
Proof.
  intros E. destruct (decide (pair = k)) as [|N]; [assumption|].
  apply (f_equal (fun f => assets (f (Engine.emptyWallet "")) !! k)) in E.
  unfold Engine.WithPaperAsset in E. simpl in E.
  rewrite lookup_insert_ne, lookup_insert_eq in E by exact N. discriminate E.
Qed.

Lemma WithPaperFee_not_asset maker taker k a :
  WithPaperFee maker taker <> Engine.WithPaperAsset k a.
Proof.
  intros E.
  apply (f_equal (fun f => assets (f (Engine.emptyWallet "")) !! k)) in E.
  unfold Engine.WithPaperAsset in E. simpl in E.
  rewrite lookup_insert_eq in E. discriminate E.
Qed.

(** The entry of [k] after the options ran: the amount of an option that
    funds [k], or the entry there was. *)
Lemma options_assets options w k :
  Forall paperOption options ->
  let w' := fold_left (fun w option => option w) options w in
  (exists amount, In (Engine.WithPaperAsset k amount) options /\
                  assets w' !! k = Some (mkAsset amount 0)) \/
  ((forall amount, ~ In (Engine.WithPaperAsset k amount) options) /\
   assets w' !! k = assets w !! k).
Proof.
  induction options as [|f options IH] using rev_ind; intros Hf; cbv zeta.
  - right. split; [intros amount []|reflexivity].
  - apply Forall_app in Hf as [Hl Hx]. apply Forall_cons in Hx as [Hx _].
    rewrite fold_left_app. simpl. specialize (IH Hl). cbv zeta in IH.
    destruct Hx as [pair amount|maker taker].
    + unfold Engine.WithPaperAsset at 2 4. simpl.
      destruct (decide (pair = k)) as [->|N].
      * left. exists amount. rewrite lookup_insert_eq. split; [|reflexivity].
        apply in_or_app. right. now left.
      * rewrite lookup_insert_ne by exact N.
        destruct IH as [(a & Hin & E)|[Hn E]].
        -- left. exists a. split; [apply in_or_app; now left | exact E].
        -- right. split; [|exact E]. intros a Hin.
           apply in_app_or in Hin as [Hin|[Hin|[]]]; [exact (Hn a Hin)|].
           apply WithPaperAsset_inj in Hin. contradiction.
    + simpl. destruct IH as [(a & Hin & E)|[Hn E]].
      * left. exists a. split; [apply in_or_app; now left | exact E].
      * right. split; [|exact E]. intros a Hin.
        apply in_app_or in Hin as [Hin|[Hin|[]]]; [exact (Hn a Hin)|].
        exact (WithPaperFee_not_asset _ _ _ _ Hin).
Qed.

Lemma options_untouched options : forall w,
  Forall paperOption options ->
  let w' := fold_left (fun w option => option w) options w in
  orders w' = orders w /\ counter w' = counter w /\
  lastCandle w' = lastCandle w /\ equityValues w' = equityValues w.
Proof.
  induction options as [|f options IH]; intros w Hf; [repeat split|].
  apply Forall_cons in Hf as [Hf Hr]. simpl.
  destruct (IH (f w) Hr) as (-> & -> & -> & ->). destruct Hf; repeat split.
Qed.

(** X17.  [NewPaperWallet] reads the free amount of the base coin as the
    initial value, so it needs an option that funds the base coin: without
    one the constructor fails on the missing entry.  With one, the wallet
    starts with that amount as initial value and free base-coin balance,
    nothing locked, an empty log, no bar and no equity sample, and with
    balances that are not negative when no funded amount is. *)
Theorem NewPaperWallet_needs_base_coin baseCoin options :
  Forall paperOption options ->
  match Engine.NewPaperWallet baseCoin options with
  | Some w =>
    (exists amount,
       In (Engine.WithPaperAsset baseCoin amount) options /\
       initialValue w = amount /\
       assets w !! baseCoin = Some (mkAsset amount 0)) /\
    fresh w /\ lastCandle w = ∅ /\ equityValues w = [] /\
    (forall k info, assets w !! k = Some info -> Lock info = 0) /\
    ((forall pair amount,
        In (Engine.WithPaperAsset pair amount) options -> 0 <= amount) ->
     nonneg w)
  | None => forall amount, ~ In (Engine.WithPaperAsset baseCoin amount) options
  end.
Proof.
  intros Hf. unfold Engine.NewPaperWallet. cbv zeta.
  pose proof (options_untouched options (Engine.emptyWallet baseCoin) Hf)
    as (O & C & L & V). cbv zeta in O, C, L, V.
  assert (A : forall k info,
    assets (fold_left (fun w option => option w) options
                      (Engine.emptyWallet baseCoin)) !! k = Some info ->
    exists amount, In (Engine.WithPaperAsset k amount) options /\
                   info = mkAsset amount 0).
  { intros k info E.
    destruct (options_assets options (Engine.emptyWallet baseCoin) k Hf)
      as [(a & Hin & E')|[_ E']]; cbv zeta in E'; rewrite E' in E.
    - injection E as <-. eauto.
    - simpl in E. rewrite lookup_empty in E. discriminate E. }
  destruct (options_assets options (Engine.emptyWallet baseCoin) baseCoin Hf)
    as [(a & Hin & E)|[Hn E]]; cbv zeta in E; rewrite E; simpl.
  - split; [exists a; rewrite E; auto|].
    split; [split; simpl; assumption|]. split; [exact L|]. split; [exact V|].
    split.
    + intros k info Ek. apply A in Ek as (x & _ & ->). reflexivity.
    + intros Hpos k info Ek. apply A in Ek as (x & Hx & ->). simpl.
      split; [exact (Hpos k x Hx) | lra].
  - exact Hn.
Qed.

End SetupFacts.

(** ** The largest drop *)

Module DropFacts.
Import NumFacts Drawdown Drops.
Local Open Scope Q_scope.

Local Abbreviation value ev i := (avValue (nth i ev zeroAV)).
Local Abbreviation time ev i := (avTime (nth i ev zeroAV)).

Lemma body_dropInv ev i a :
  dropInv ev i a -> dropInv ev (S i) (body ev a (S i)).
Proof.
  intros [(b & Hb & L & LB & LS & LE & Lmax)
          (gi & gj & Hg & G & GB & GS & GE & Gmin)].
  unfold body. cbv zeta. replace (S i - 1)%nat with i by lia.
  assert (Hloc : exists b', (b' < S i)%nat /\
    (if gtb (localMin a) 0 then value ev (S i) - value ev i
     else localMin a + (value ev (S i) - value ev i))
      == value ev (S i) - value ev b' /\
    (if gtb (localMin a) 0 then value ev i else localMinBase a)
      = value ev b' /\
    (if gtb (localMin a) 0 then time ev i else localMinStart a)
      = time ev b' /\
    forall k, (k < S i)%nat -> value ev k <= value ev b').
  { destruct (gtb (localMin a) 0) eqn:E.
    - apply gtb_gt in E. exists i. repeat split; try lia; try reflexivity.
      intros k Hk. destruct (Nat.eq_dec k i) as [->|N]; [lra|].
      specialize (Lmax k ltac:(lia)). lra.
    - apply gtb_le in E. exists b. repeat split; try lia; try assumption.
      + rewrite L. ring.
      + intros k Hk. destruct (Nat.eq_dec k i) as [->|N]; [lra|].
        apply Lmax. lia. }
  destruct Hloc as (b' & Hb' & L' & LB' & LS' & Lmax').
  destruct (gtb (localMin a) 0); cbn [localMin globalMin];
    match goal with
    | |- context [ltb ?x ?y] => destruct (ltb x y) eqn:E
    end;
    (split;
     [ exists b'; repeat split; simpl; auto
     | first
         [ apply ltb_lt in E; exists b', (S i);
           repeat split; simpl; auto; try lia;
           intros i' j' Hij;
           destruct (Nat.eq_dec j' (S i)) as [->|N];
           [ specialize (Lmax' i' ltac:(lia)); lra
           | specialize (Gmin i' j' ltac:(lia)); lra ]
         | apply ltb_ge in E; exists gi, gj;
           repeat split; simpl; auto; try lia;
           intros i' j' Hij;
           destruct (Nat.eq_dec j' (S i)) as [->|N];
           [ specialize (Lmax' i' ltac:(lia)); lra
           | specialize (Gmin i' j' ltac:(lia)); lra ] ] ]).
Qed.

Lemma fold_dropInv ev n : forall i a,
  dropInv ev i a ->
  dropInv ev (i + n) (fold_left (body ev) (seq (S i) n) a).
Proof.
  induction n as [|n IH]; intros i a H; simpl.
  - now rewrite Nat.add_0_r.
  - replace (i + S n)%nat with (S i + n)%nat by lia.
    apply IH. now apply body_dropInv.
Qed.

(** X18.  On a series of two samples or more whose first step is below
    [math.MaxFloat64], [MaxDrawdown] finds the largest drop: it returns
    the times of two samples, an earlier and a later one, such that no
    later sample lies further below an earlier one than these two, and the
    difference of their values divided by the value of the earlier one. *)
Theorem MaxDrawdown_largest_drop ev :
  (2 <= length ev)%nat ->
  value ev 1 - value ev 0 < MaxFloat64 ->
  let '(dd, from, to) := Drawdown.MaxDrawdown ev in
  exists i j,
    (i < j < length ev)%nat /\
    from = time ev i /\ to = time ev j /\
    dd == (value ev j - value ev i) / value ev i /\
    forall i' j', (i' < j' < length ev)%nat ->
      value ev j - value ev i <= value ev j' - value ev i'.
Proof.
  intros Hn H1. unfold Drawdown.MaxDrawdown.
  destruct (Nat.ltb_spec (length ev) 1) as [Hlt|_]; [lia|].
  cbv zeta. destruct (length ev) as [|[|n]] eqn:El; try lia.
  replace (S (S n) - 1)%nat with (S n) by lia. cbn [seq fold_left].
  match goal with
  | |- context [fold_left (body ev) (seq 2 n) ?a] =>
    assert (I : dropInv ev 1 a)
  end.
  { unfold body. cbv zeta. cbn [localMin globalMin Nat.sub].
    assert (E0 : gtb MaxFloat64 0 = true) by reflexivity. rewrite E0.
    cbn [localMin globalMin].
    assert (E1 : ltb (value ev 1 - value ev 0) MaxFloat64 = true)
      by now apply ltb_lt.
    rewrite E1. split.
    - exists 0%nat. repeat split; simpl; auto; try reflexivity.
      intros k Hk. replace k with 0%nat by lia. lra.
    - exists 0%nat, 1%nat. repeat split; simpl; auto; try reflexivity.
      intros i' j' Hij. replace j' with 1%nat by lia.
      replace i' with 0%nat by lia. lra. }
  apply (fold_dropInv ev n) in I.
  destruct I as [_ (gi & gj & Hg & G & GB & GS & GE & Gmin)].
  exists gi, gj. split; [lia|]. split; [exact GS|]. split; [exact GE|].
  split.
  - rewrite G, GB. reflexivity.
  - intros i' j' Hij. rewrite <- G. apply Gmin. lia.
Qed.

End DropFacts.

(** ** The dataframe of a strategy *)

Module DataframeFacts.
Import StrategyCtl Dataframes.

Lemma store_Some {A} i (x : A) l :
  (i < length l)%nat -> store i x l = Some (<[i := x]> l).
Proof. intros H. unfold store. apply Nat.ltb_lt in H. now rewrite H. Qed.

Lemma last_insert {A} (x : A) l :
  l <> [] -> last (<[(length l - 1)%nat := x]> l) = Some x.
Proof.
  intros H. destruct l as [|a l] using rev_ind; [contradiction|].
  rewrite length_app. simpl.
  replace (length l + 1 - 1)%nat with (length l + 0)%nat by lia.
  rewrite insert_app_r. simpl. apply last_snoc.
Qed.

Lemma sorted_snoc l t :
  StronglySorted Z.lt l -> (forall t0, last l = Some t0 -> t0 < t) ->
  StronglySorted Z.lt (l ++ [t]).
Proof.
  induction 1 as [|a l Hs IH Ha]; intros Hl; simpl.
  - repeat constructor.
  - constructor.
    + apply IH. intros t0 H0. apply Hl. destruct l; [discriminate H0|exact H0].
    + apply Forall_app. split; [exact Ha|]. constructor; [|constructor].
      destruct l as [|b l] using rev_ind; [apply Hl; reflexivity|].
      apply Forall_app in Ha as [_ Ha]. apply Forall_cons in Ha as [Ha _].
      specialize (Hl b). rewrite last_cons, last_snoc in Hl.
      specialize (Hl eq_refl). lia.
Qed.

(** The metadata loop of the overwriting branch. *)
Lemma fold_store i meta cm :
  (forall k, is_Some (cm !! k) ->
             (i < length (default [] (meta !! k)))%nat) ->
  exists r,
    map_fold (storeMetadata i) (Some meta) cm = Some r /\
    forall k, r !! k
              = match cm !! k with
                | Some v => Some (<[i := v]> (default [] (meta !! k)))
                | None => meta !! k
                end.
Proof.
  apply (map_fold_weak_ind
    (fun acc m =>
       (forall k, is_Some (m !! k) ->
                  (i < length (default [] (meta !! k)))%nat) ->
       exists r, acc = Some r /\
         forall k, r !! k
                   = match m !! k with
                     | Some v => Some (<[i := v]> (default [] (meta !! k)))
                     | None => meta !! k
                     end)).
  - intros _. exists meta. split; [reflexivity|]. intros k.
    now rewrite lookup_empty.
  - intros k x m acc Hk IH Hlen.
    destruct IH as (r & -> & Hr).
    { intros k' Hk'. apply Hlen.
      destruct (decide (k = k')) as [->|N];
        [rewrite lookup_insert_eq; eauto | rewrite lookup_insert_ne; auto]. }
    unfold storeMetadata. simpl.
    assert (E : r !! k = meta !! k) by (rewrite Hr, Hk; reflexivity).
    rewrite E, store_Some
      by (apply Hlen; rewrite lookup_insert_eq; eauto).
    simpl. eexists. split; [reflexivity|]. intros k'.
    destruct (decide (k = k')) as [->|N].
    + now rewrite !lookup_insert_eq.
    + rewrite !lookup_insert_ne by exact N. apply Hr.
Qed.

(** The metadata loop of the appending branch. *)
Lemma fold_append (meta : gmap string (list Q)) (cm : gmap string Q) k :
  map_fold (fun k v m => <[k := default [] (m !! k) ++ [v]]> m) meta cm !! k
  = match cm !! k with
    | Some v => Some (default [] (meta !! k) ++ [v])
    | None => meta !! k
    end.
Proof.
  revert k.
  apply (map_fold_weak_ind
    (fun (r : gmap string (list Q)) (m : gmap string Q) =>
       forall k, r !! k
                 = match m !! k with
                   | Some v => Some (default [] (meta !! k) ++ [v])
                   | None => meta !! k
                   end)).
  - intros k. now rewrite lookup_empty.
  - intros k x m r Hk Hr k'.
    destruct (decide (k = k')) as [->|N].
    + rewrite !lookup_insert_eq. rewrite Hr, Hk. reflexivity.
    + rewrite !lookup_insert_ne by exact N. apply Hr.
Qed.

Lemma late_false candle df t0 :
  late candle df = false -> lastTime df = Some t0 -> t0 <= cTime candle.
Proof.
  unfold late. intros H E. rewrite E in H. unfold Before in H.
  apply Z.ltb_ge in H. exact H.
Qed.

(** A bar that is not late is written without a panic: over the last row
    when it has the last row's time, as a new row otherwise. *)
Lemma updateDataFrame_shaped K candle df :
  shaped K df -> dom (cMetadata candle) = K -> late candle df = false ->
  exists df',
    updateDataFrame candle df = Some df' /\ shaped K df' /\
    dfPair df' = dfPair df /\
    rows df' = (if decide (lastTime df = Some (cTime candle))
                then rows df else S (rows df)) /\
    last (dfTime df') = Some (cTime candle) /\
    last (dfClose df') = Some (cClose candle) /\
    last (dfOpen df') = Some (cOpen candle) /\
    last (dfHigh df') = Some (cHigh candle) /\
    last (dfLow df') = Some (cLow candle) /\
    last (dfVolume df') = Some (cVolume candle) /\
    forall k v, cMetadata candle !! k = Some v ->
      exists col, dfMetadata df' !! k = Some col /\ last col = Some v.
Proof.
  intros (Hc & Ho & Hh & Hl & Hv & Hm & Hs) HK Hlate.
  unfold updateDataFrame, rows in *.
  destruct (lastTime df) as [t0|] eqn:Et.
  - pose proof (late_false candle df t0 Hlate Et) as Hle.
    assert (Hn : dfTime df <> [])
      by (intros E; unfold lastTime in Et; rewrite E in Et; discriminate Et).
    assert (Hpos : (length (dfTime df) - 1 < length (dfTime df))%nat)
      by (destruct (dfTime df); [contradiction|simpl; lia]).
    destruct (Equal (cTime candle) t0) eqn:Eq.
    + apply Z.eqb_eq in Eq.
      rewrite !store_Some by lia. cbn [mbind option_bind].
      destruct (fold_store (length (dfTime df) - 1) (dfMetadata df)
                  (cMetadata candle)) as (r & -> & Hr).
      { intros k Hk. apply elem_of_dom in Hk. rewrite HK in Hk.
        rewrite (Hm k Hk). exact Hpos. }
      cbn [mbind option_bind]. eexists. split; [reflexivity|].
      assert (Ne : forall (A : Type) (l : list A),
                 length l = length (dfTime df) -> l <> [])
        by (intros A l El E; rewrite E in El; destruct (dfTime df);
            [contradiction|discriminate El]).
      split; [|split; [reflexivity|]; split; [|repeat split]]; simpl.
      * unfold shaped, rows; simpl; rewrite !length_insert;
          split_and!; auto.
        -- intros k Hk. rewrite Hr.
           destruct (cMetadata candle !! k);
             [simpl; rewrite length_insert|]; auto.
        -- rewrite list_insert_id; [exact Hs|].
           unfold lastTime in Et. rewrite last_lookup in Et.
           replace (length (dfTime df) - 1)%nat
             with (pred (length (dfTime df))) by lia.
           rewrite Et. now f_equal.
      * rewrite length_insert, Eq. rewrite decide_True by reflexivity.
        reflexivity.
      * apply last_insert. exact Hn.
      * rewrite <- Hc. apply last_insert. auto.
      * rewrite <- Ho. apply last_insert. auto.
      * rewrite <- Hh. apply last_insert. auto.
      * rewrite <- Hl. apply last_insert. auto.
      * rewrite <- Hv. apply last_insert. auto.
      * intros k v Ek. rewrite Hr, Ek. eexists. split; [reflexivity|].
        assert (Hk : k ∈ K) by (rewrite <- HK; apply elem_of_dom; eauto).
        rewrite <- (Hm k Hk). apply last_insert.
        intros E. specialize (Hm k Hk). rewrite E in Hm.
        destruct (dfTime df); [contradiction|discriminate Hm].
    + apply Z.eqb_neq in Eq. eexists. split; [reflexivity|].
      split; [|split; [reflexivity|]; split; [|repeat split]]; simpl;
        try apply last_snoc.
      * unfold shaped, rows; simpl; rewrite !length_app; simpl;
          split_and!; try lia.
        -- intros k Hk. rewrite fold_append.
           assert (Ek : is_Some (cMetadata candle !! k))
             by (apply elem_of_dom; now rewrite HK).
           destruct Ek as [v ->]. simpl. rewrite length_app, (Hm k Hk).
           reflexivity.
        -- apply sorted_snoc; [exact Hs|]. intros t1 E1.
           assert (E : Some t1 = Some t0)
             by (rewrite <- E1; exact Et).
           injection E as ->. lia.
      * rewrite length_app. simpl.
        rewrite decide_False by (intros [= E]; congruence). lia.
      * intros k v Ek. rewrite fold_append, Ek. eexists.
        split; [reflexivity|apply last_snoc].
  - eexists. split; [reflexivity|].
    split; [|split; [reflexivity|]; split; [|repeat split]]; simpl;
      try apply last_snoc.
    + unfold shaped, rows; simpl; rewrite !length_app; simpl;
        split_and!; try lia.
      * intros k Hk. rewrite fold_append.
        assert (Ek : is_Some (cMetadata candle !! k))
          by (apply elem_of_dom; now rewrite HK).
        destruct Ek as [v ->]. simpl. rewrite length_app, (Hm k Hk).
        reflexivity.
      * apply sorted_snoc; [exact Hs|]. intros t1 E1.
        assert (E : Some t1 = None) by (rewrite <- E1; exact Et).
        discriminate E.
    + rewrite length_app. simpl. lia.
    + intros k v Ek. rewrite fold_append, Ek. eexists.
      split; [reflexivity|apply last_snoc].
Qed.

(** X19.  [updateDataFrame] writes a bar that is not late as the last row
    of an aligned dataframe without running out of range: every price and
    volume column, the time column and the column of each of the bar's
    metadata keys then ends with the bar's value.  The row count is
    unchanged when the bar has the time of the last row (the row is
    overwritten) and grows by one otherwise. *)
Theorem updateDataFrame_writes_last_row K candle df :
  shaped K df -> dom (cMetadata candle) = K -> late candle df = false ->
  exists df',
    updateDataFrame candle df = Some df' /\
    rows df' = (if decide (lastTime df = Some (cTime candle))
                then rows df else S (rows df)) /\
    last (dfTime df') = Some (cTime candle) /\
    last (dfClose df') = Some (cClose candle) /\
    last (dfOpen df') = Some (cOpen candle) /\
    last (dfHigh df') = Some (cHigh candle) /\
    last (dfLow df') = Some (cLow candle) /\
    last (dfVolume df') = Some (cVolume candle) /\
    forall k v, cMetadata candle !! k = Some v ->
      exists col, dfMetadata df' !! k = Some col /\ last col = Some v.
Proof.
  intros Hs HK Hl.
  destruct (updateDataFrame_shaped K candle df Hs HK Hl)
    as (df' & E & _ & _ & R). exists df'. split; [exact E | exact R].
Qed.

(** Whatever its time, a bar is written without running out of range,
    and the columns stay aligned. *)
Lemma updateDataFrame_aligned K candle df :
  aligned K df -> dom (cMetadata candle) = K ->
  exists df', updateDataFrame candle df = Some df' /\ aligned K df'.
Proof.
  intros (Hc & Ho & Hh & Hl & Hv & Hm) HK.
  unfold updateDataFrame, rows in *.
  assert (App : aligned K
    (mkDataframe (dfPair df)
       (dfClose df ++ [cClose candle]) (dfOpen df ++ [cOpen candle])
       (dfHigh df ++ [cHigh candle]) (dfLow df ++ [cLow candle])
       (dfVolume df ++ [cVolume candle]) (dfTime df ++ [cTime candle])
       (cTime candle)
       (map_fold (fun k v m => <[k := default [] (m !! k) ++ [v]]> m)
                 (dfMetadata df) (cMetadata candle)))).
  { unfold aligned, rows; simpl; rewrite !length_app; simpl;
      split_and!; try lia.
    intros k Hk. rewrite fold_append.
    assert (Ek : is_Some (cMetadata candle !! k))
      by (apply elem_of_dom; now rewrite HK).
    destruct Ek as [v ->]. simpl. rewrite length_app, (Hm k Hk).
    reflexivity. }
  destruct (lastTime df) as [t0|] eqn:Et;
    [destruct (Equal (cTime candle) t0)|];
    try (eexists; split; [reflexivity | exact App]).
  assert (Hn : dfTime df <> [])
    by (intros E; unfold lastTime in Et; rewrite E in Et; discriminate Et).
  assert (Hpos : (length (dfTime df) - 1 < length (dfTime df))%nat)
    by (destruct (dfTime df); [contradiction|simpl; lia]).
  rewrite !store_Some by lia. cbn [mbind option_bind].
  destruct (fold_store (length (dfTime df) - 1) (dfMetadata df)
              (cMetadata candle)) as (r & -> & Hr).
  { intros k Hk. apply elem_of_dom in Hk. rewrite HK in Hk.
    rewrite (Hm k Hk). exact Hpos. }
  cbn [mbind option_bind]. eexists. split; [reflexivity|].
  unfold aligned, rows; simpl; rewrite !length_insert; split_and!; auto.
  intros k Hk. rewrite Hr.
  destruct (cMetadata candle !! k); [simpl; rewrite length_insert|]; auto.
Qed.

Lemma shaped_aligned K df : shaped K df -> aligned K df.
Proof. intros (Hc & Ho & Hh & Hl & Hv & Hm & _). repeat split; auto. Qed.

Lemma raw_shaped K df df' : raw K df df' -> shaped K df -> shaped K df'.
Proof.
  intros (Ec & Eo & Eh & El & Ev & Et & Em) (Hc & Ho & Hh & Hl & Hv & Hm & Hs).
  unfold shaped, rows. rewrite Ec, Eo, Eh, El, Ev, Et. split_and!; auto.
  intros k Hk. rewrite (Em k Hk). auto.
Qed.

Lemma raw_aligned K df df' : raw K df df' -> aligned K df -> aligned K df'.
Proof.
  intros (Ec & Eo & Eh & El & Ev & Et & Em) (Hc & Ho & Hh & Hl & Hv & Hm).
  unfold aligned, rows. rewrite Ec, Eo, Eh, El, Ev, Et. split_and!; auto.
  intros k Hk. rewrite (Em k Hk). auto.
Qed.

Section WithStrategy.
Variable B : Type.
Variable WarmupPeriod : nat.
Variable Indicators : Dataframe -> Dataframe.
Variable strategyOnCandle : Dataframe -> B -> Dataframe * B.
Variable strategyOnPartialCandle : option (Dataframe -> B -> Dataframe * B).
Variable K : gset string.

(** The strategy leaves alone the columns that the controller fills. *)
Hypothesis Indicators_raw : forall df, raw K df (Indicators df).
Hypothesis OnCandle_raw : forall df b, raw K df (strategyOnCandle df b).1.
Hypothesis OnPartialCandle_raw : forall strategyOnPartial df b,
  strategyOnPartialCandle = Some strategyOnPartial ->
  raw K df (strategyOnPartial df b).1.

Local Abbreviation carries e :=
  (match e with
   | Bar candle | Partial candle => dom (cMetadata candle) = K
   | Started => True
   end).

Local Abbreviation handle :=
  (handle B WarmupPeriod Indicators strategyOnCandle strategyOnPartialCandle).
Local Abbreviation feed :=
  (feed B WarmupPeriod Indicators strategyOnCandle strategyOnPartialCandle).

Lemma handle_aligned e s :
  carries e -> aligned K (dataframe B s) ->
  exists s', handle e s = Some s' /\ aligned K (dataframe B s').
Proof.
  intros He Hs. destruct e as [candle|candle|]; simpl.
  - unfold OnCandle. destruct (late candle (dataframe B s)) eqn:El.
    + eexists. split; [reflexivity | exact Hs].
    + destruct (updateDataFrame_aligned K candle _ Hs He)
        as (df' & -> & Hs'). cbn [mbind option_bind].
      destruct (WarmupPeriod <=? length (dfClose df'))%nat.
      * pose proof (raw_aligned K _ _ (Indicators_raw df') Hs') as Hi.
        destruct (started B s).
        -- pose proof (OnCandle_raw (Indicators df') (broker B s)) as Hr.
           destruct (strategyOnCandle (Indicators df') (broker B s))
             as [df2 b]. eexists. split; [reflexivity|]. simpl.
           exact (raw_aligned K _ _ Hr Hi).
        -- eexists. split; [reflexivity | exact Hi].
      * eexists. split; [reflexivity | exact Hs'].
  - unfold OnPartialCandle.
    destruct (negb (cComplete candle) && _);
      [|exists s; split; [reflexivity | exact Hs]].
    pose proof OnPartialCandle_raw as Hp.
    destruct strategyOnPartialCandle as [strategyOnPartial|];
      [|exists s; split; [reflexivity | exact Hs]].
    destruct (updateDataFrame_aligned K candle _ Hs He)
      as (df' & -> & Hs'). cbn [mbind option_bind].
    pose proof (raw_aligned K _ _ (Indicators_raw df') Hs') as Hi.
    pose proof (Hp strategyOnPartial (Indicators df') (broker B s) eq_refl)
      as Hr.
    destruct (strategyOnPartial (Indicators df') (broker B s)) as [df2 b].
    eexists. split; [reflexivity|]. simpl. exact (raw_aligned K _ _ Hr Hi).
  - eexists. split; [reflexivity | exact Hs].
Qed.

(** Without a bar that [OnPartialCandle] takes in, the times stay in
    order. *)
Lemma handle_shaped e s :
  carries e ->
  strategyOnPartialCandle = None \/ isPartial e = false ->
  shaped K (dataframe B s) ->
  exists s', handle e s = Some s' /\ shaped K (dataframe B s').
Proof.
  intros He Hq Hs. destruct e as [candle|candle|]; simpl.
  - unfold OnCandle. destruct (late candle (dataframe B s)) eqn:El.
    + eexists. split; [reflexivity | exact Hs].
    + destruct (updateDataFrame_shaped K candle _ Hs He El)
        as (df' & -> & Hs' & _). cbn [mbind option_bind].
      destruct (WarmupPeriod <=? length (dfClose df'))%nat.
      * pose proof (raw_shaped K _ _ (Indicators_raw df') Hs') as Hi.
        destruct (started B s).
        -- pose proof (OnCandle_raw (Indicators df') (broker B s)) as Hr.
           destruct (strategyOnCandle (Indicators df') (broker B s))
             as [df2 b]. eexists. split; [reflexivity|]. simpl.
           exact (raw_shaped K _ _ Hr Hi).
        -- eexists. split; [reflexivity | exact Hi].
      * eexists. split; [reflexivity | exact Hs'].
  - destruct Hq as [Hq|Hq]; [|discriminate Hq].
    unfold OnPartialCandle. rewrite Hq.
    destruct (negb (cComplete candle) && _);
      exists s; (split; [reflexivity | exact Hs]).
  - eexists. split; [reflexivity | exact Hs].
Qed.

Lemma feed_aligned events : forall s,
  Forall (fun e => carries e) events -> aligned K (dataframe B s) ->
  exists s', feed events s = Some s' /\ aligned K (dataframe B s').
Proof.
  induction events as [|e events IH]; intros s He Hs.
  - exists s. split; [reflexivity | exact Hs].
  - apply Forall_cons in He as [He Hr]. simpl.
    destruct (handle_aligned e s He Hs) as (s' & -> & Hs').
    cbn [mbind option_bind]. apply IH; auto.
Qed.

Lemma feed_shaped events : forall s,
  Forall (fun e => carries e) events ->
  strategyOnPartialCandle = None \/
  Forall (fun e => isPartial e = false) events ->
  shaped K (dataframe B s) ->
  exists s', feed events s = Some s' /\ shaped K (dataframe B s').
Proof.
  induction events as [|e events IH]; intros s He Hq Hs.
  - exists s. split; [reflexivity | exact Hs].
  - apply Forall_cons in He as [He Hr]. simpl.
    destruct (handle_shaped e s He) as (s' & -> & Hs'); [|exact Hs|].
    + destruct Hq as [Hq|Hq]; [now left|right].
      now apply Forall_cons in Hq as [Hq _].
    + cbn [mbind option_bind]. apply IH; auto.
      destruct Hq as [Hq|Hq]; [now left|right].
      now apply Forall_cons in Hq as [_ Hq].
Qed.

(** X20.  A controller made by [NewStrategyController] takes every feed of
    bars with the same metadata keys, through [OnCandle] and through
    [OnPartialCandle], in any order of times and with [Start] at any point,
    without indexing a column out of range, as long as the strategy leaves
    the raw columns alone; its dataframe stays aligned (one entry per row
    in every raw column).  Its times increase strictly when no bar comes
    through [OnPartialCandle] or the strategy has no [OnPartialCandle]:
    [OnCandle] drops late bars, and a bar with the time of the last row
    replaces that row. *)
Theorem controller_keeps_dataframe pair broker events :
  Forall (fun e => carries e) events ->
  exists s',
    feed events (NewStrategyController B pair broker) = Some s' /\
    aligned K (dataframe B s') /\
    (strategyOnPartialCandle = None \/
     Forall (fun e => isPartial e = false) events ->
     StronglySorted Z.lt (dfTime (dataframe B s'))).
Proof.
  intros He.
  assert (H0 : shaped K (dataframe B (NewStrategyController B pair broker))).
  { unfold shaped, rows. simpl.
    split_and!; auto; try constructor; intros k _; now rewrite lookup_empty. }
  destruct (feed_aligned events _ He (shaped_aligned K _ H0))
    as (s' & E & A).
  exists s'. split; [exact E|]. split; [exact A|]. intros Hq.
  destruct (feed_shaped events _ He Hq H0) as (s2 & E2 & S2).
  rewrite E in E2. injection E2 as <-. apply S2.
Qed.

End WithStrategy.

(** [OnPartialCandle] does not compare times: after a bar at time 2, an
    incomplete bar at time 1 is appended as a new row. *)
Lemma partial_bar_appended_out_of_order :
  match feed unit 0 (fun df => df) (fun df b => (df, b))
             (Some (fun df b => (df, b)))
             [Bar (mkCandle "XUSDT" 2%Z 10 10 10 10 0 true ∅);
              Partial (mkCandle "XUSDT" 1%Z 9 9 9 9 0 false ∅)]
             (NewStrategyController unit "XUSDT" tt) with
  | Some s => dfTime (dataframe unit s) = [2; 1]%Z
  | None => False
  end.
Proof. vm_compute. reflexivity. Qed.

End DataframeFacts.

(** ** The theorems at concrete inputs *)

Module Witness.
Import Wallet Ops.
Local Open Scope Q_scope.

Lemma balances_nonneg_without_shorts_witness :
  LongOnly.nonneg Scenario.funded /\ LongOnly.nonneg Scenario.longOnlyEnd.
Proof.
  assert (N : LongOnly.nonneg Scenario.funded).
  { intros k info. unfold Scenario.funded, Engine.WithPaperAsset. simpl.
    destruct (decide (k = "USDT"%string)) as [->|Hk].
    - rewrite lookup_insert_eq. intros [= <-]. simpl. split; lra.
    - rewrite lookup_insert_ne by congruence. rewrite lookup_empty.
      discriminate. }
  split; [exact N|].
  apply (LongOnlyFacts.balances_nonneg_without_shorts Scenario.split
           Scenario.lot Scenario.funded Scenario.longOnlyEnd N).
  - split; reflexivity.
  - reflexivity.
  - apply (LongOnlyFacts.run_reaches Scenario.split Scenario.lot
             Scenario.longOnlyOps).
    + vm_compute. repeat split; try reflexivity; discriminate.
    + vm_compute. reflexivity.
Defined.

Lemma late_candle_dropped_witness :
  StrategyCtl.OnCandle unit 0 (fun df => df) (fun df b => (df, b))
    (Scenario.bar 1 9) Scenario.seenBar2
  = Some (StrategyCtl.mkController unit
            (StrategyCtl.dataframe unit Scenario.seenBar2)
            (StrategyCtl.broker unit Scenario.seenBar2)
            (StrategyCtl.started unit Scenario.seenBar2)
            (StrategyCtl.errorLog unit Scenario.seenBar2
               ++ [Scenario.bar 1 9])).
Proof.
  apply (StrategyFacts.late_candle_dropped unit 0%nat (fun df => df)
           (fun df b => (df, b)) (Scenario.bar 1 9) Scenario.seenBar2 2%Z).
  - reflexivity.
  - simpl. lia.
Defined.

Lemma Cancel_marks_canceled_witness :
  sameButOrders Scenario.afterTwoOps
    (Engine.Cancel Scenario.flipBuyOrder Scenario.afterTwoOps).
Proof.
  apply (FrameFacts.Cancel_marks_canceled Scenario.flipBuyOrder
           Scenario.afterTwoOps).
Defined.

Lemma insufficient_funds_reserves_nothing_witness :
  place Scenario.split Scenario.lot Scenario.tooLarge Scenario.afterBar1
  = (fst (place Scenario.split Scenario.lot Scenario.tooLarge
            Scenario.afterBar1),
     inr (ErrInsufficientFunds "XUSDT" 2000)) /\
  balance (fst (place Scenario.split Scenario.lot Scenario.tooLarge
                  Scenario.afterBar1)) "USDT"
  = balance Scenario.afterBar1 "USDT".
Proof.
  assert (H : place Scenario.split Scenario.lot Scenario.tooLarge
                Scenario.afterBar1
              = (fst (place Scenario.split Scenario.lot Scenario.tooLarge
                        Scenario.afterBar1),
                 inr (ErrInsufficientFunds "XUSDT" 2000))).
  { vm_compute. reflexivity. }
  split; [exact H|].
  apply (FrameFacts.insufficient_funds_reserves_nothing Scenario.split
           Scenario.lot Scenario.tooLarge Scenario.afterBar1 _ _ _ H).
Defined.

Lemma ExchangeID_strictly_increasing_witness :
  map ExchangeID Scenario.ocoCreated = [3; 4]%Z /\
  NoDup (map ExchangeID
           (orders (fst (place Scenario.split Scenario.lot
                           Scenario.ocoRequest Scenario.afterTwoOps)))).
Proof.
  split; [vm_compute; reflexivity|].
  apply (IdFacts.ExchangeID_strictly_increasing Scenario.split Scenario.lot
           Scenario.twoOps Scenario.funded Scenario.afterTwoOps
           Scenario.ocoRequest _ Scenario.ocoCreated).
  - split; reflexivity.
  - vm_compute. reflexivity.
  - vm_compute. discriminate.
  - vm_compute. reflexivity.
Defined.

Lemma MaxDrawdown_one_sample_witness :
  let '(dd, from, to) := Drawdown.MaxDrawdown [mkAV 5%Z 100] in
  dd == MaxFloat64 / 100 /\ ~ dd == 0 /\ from = 5%Z /\ to = 5%Z.
Proof.
  apply (DrawdownFacts.MaxDrawdown_one_sample (mkAV 5%Z 100)).
  simpl. intros H. discriminate H.
Defined.

Lemma MaxDrawdown_increasing_witness :
  let '(dd, _, _) :=
    Drawdown.MaxDrawdown [mkAV 1%Z 100; mkAV 2%Z 110; mkAV 3%Z 120] in
  0 < dd /\ ~ dd == 0.
Proof.
  apply (DrawdownFacts.MaxDrawdown_increasing
           [mkAV 1%Z 100; mkAV 2%Z 110; mkAV 3%Z 120]).
  - simpl. lia.
  - reflexivity.
  - reflexivity.
Defined.

End Witness.

(** ** The further theorems at concrete inputs *)

Module Instances.
Import Wallet Ops.
Local Open Scope Q_scope.

Lemma updates_ratchet_witness :
  let '(t', _) := Trailing.updates [11; 12; 10] Examples.trailing in
  Trailing.active t' = true /\
  Trailing.current t' = List.last [11; 12; 10] (Trailing.current Examples.trailing) /\
  Trailing.stop t'
  == Trailing.stop Examples.trailing
     + Trailing.rises (Trailing.current Examples.trailing) [11; 12; 10] /\
  Trailing.stop Examples.trailing <= Trailing.stop t'.
Proof.
  apply (TrailingFacts.updates_ratchet [11; 12; 10] Examples.trailing).
  reflexivity.
Defined.

Lemma Update_hits_at_stop_witness :
  let '(t', hit) := Trailing.Update 8 Examples.trailing in
  (hit = true <-> 8 <= Trailing.stop Examples.trailing) /\
  (hit = false -> Trailing.stop t' <= Trailing.current t').
Proof.
  apply (TrailingFacts.Update_hits_at_stop 8 Examples.trailing).
  - reflexivity.
  - simpl. lra.
Defined.

Lemma Payoff_sign_witness :
  (Stats.Win Examples.twoWins <> [] -> Stats.Lose Examples.twoWins <> [] ->
   0 < Stats.Payoff Examples.twoWins) /\
  (Stats.Win Examples.twoWins = [] \/ Stats.Lose Examples.twoWins = [] ->
   Stats.Payoff Examples.twoWins = 0).
Proof.
  apply (StatsFacts.Payoff_sign Examples.twoWins).
  split; simpl; repeat constructor.
Defined.

Lemma processTrade_signed_witness :
  exists results' order',
    OrderCtl.processTrade [Scenario.partBuyOrder] Scenario.partSellOrder ∅
    = Some (results', order') /\
    forall pair s, results' !! pair = Some s -> Stats.signed s.
Proof.
  destruct (OrderCtl.processTrade [Scenario.partBuyOrder]
              Scenario.partSellOrder ∅) as [[results' order']|] eqn:E;
    [|vm_compute in E; discriminate E].
  exists results', order'. split; [reflexivity|].
  apply (StatsFacts.processTrade_signed [Scenario.partBuyOrder]
           Scenario.partSellOrder ∅ results' order').
  - intros pair s H. rewrite lookup_empty in H. discriminate H.
  - exact E.
Defined.

Lemma sell_profit_against_average_witness :
  exists value percent,
    OrderCtl.calculateProfitOn [Scenario.partBuyOrder] Scenario.partSellOrder
    = Some (value, percent) /\
    value == (12 - Stats.averagePrice [Scenario.partBuyOrder])
             * Quantity Scenario.partSellOrder /\
    percent == value / Quantity Scenario.partSellOrder
               / Stats.averagePrice [Scenario.partBuyOrder] /\
    0 < Stats.averagePrice [Scenario.partBuyOrder].
Proof.
  apply (StatsFacts.sell_profit_against_average [Scenario.partBuyOrder]
           Scenario.partSellOrder 12).
  - discriminate.
  - repeat constructor. simpl. discriminate.
  - reflexivity.
  - reflexivity.
  - reflexivity.
Defined.

Lemma log_only_grows_witness :
  exists old new,
    orders Scenario.longOnlyEnd = old ++ new /\
    Forall2 Life.ages (orders Scenario.funded) old.
Proof.
  apply (LifeFacts.log_only_grows Scenario.split Scenario.lot
           Scenario.longOnlyOps Scenario.funded Scenario.longOnlyEnd).
  vm_compute. reflexivity.
Defined.

Lemma wallet_never_panics_witness :
  is_Some (run Scenario.split Scenario.lot Scenario.longOnlyOps
               Examples.opened).
Proof.
  apply (LifeFacts.wallet_never_panics Scenario.split Scenario.lot "USDT"
           [Engine.WithPaperAsset "USDT" 10000] Examples.opened
           Scenario.longOnlyOps).
  - repeat constructor.
  - vm_compute. reflexivity.
Defined.

Lemma equity_history_follows_bars_witness :
  map avTime (equityValues Scenario.longOnlyEnd)
  = map avTime (equityValues Scenario.funded)
    ++ Life.barTimes Scenario.longOnlyOps.
Proof.
  apply (LifeFacts.equity_history_follows_bars Scenario.split Scenario.lot
           Scenario.longOnlyOps Scenario.funded Scenario.longOnlyEnd).
  vm_compute. reflexivity.
Defined.

Lemma Order_finds_every_order_witness :
  (forall o, In o (orders Scenario.longOnlyEnd) ->
             Engine.Order_ (ExchangeID o) Scenario.longOnlyEnd = Some o) /\
  (forall id, (counter Scenario.longOnlyEnd < id)%Z ->
              Engine.Order_ id Scenario.longOnlyEnd = None).
Proof.
  apply (LifeFacts.Order_finds_every_order Scenario.split Scenario.lot
           Scenario.longOnlyOps Scenario.funded Scenario.longOnlyEnd).
  - split; reflexivity.
  - vm_compute. reflexivity.
  - vm_compute. discriminate.
Defined.

Lemma pending_order_keeps_totals_witness :
  LongOnly.freeOf (fst Examples.limitBuy) "USDT"
  + LongOnly.lockOf (fst Examples.limitBuy) "USDT"
  == LongOnly.freeOf Scenario.afterBar1 "USDT"
     + LongOnly.lockOf Scenario.afterBar1 "USDT".
Proof.
  refine (FundsFacts.pending_order_keeps_totals Scenario.split Scenario.lot
            (ReqLimit SideTypeBuy "XUSDT" 10 9) Scenario.afterBar1
            (fst Examples.limitBuy) (snd Examples.limitBuy) _ _
            "USDT"%string).
  - split; [reflexivity | vm_compute; discriminate].
  - apply surjective_pairing.
Defined.

Lemma market_order_trades_at_close_witness :
  exists o,
    Examples.marketBuyCreated = [o] /\ Status o = OrderStatusTypeFilled /\
    Side o = SideTypeBuy /\ Quantity o = 50 /\
    Price o = cClose (candleAt (lastCandle Scenario.afterBar1) "XUSDT") /\
    forall k,
      LongOnly.lockOf (fst Examples.marketBuy) k == LongOnly.lockOf Scenario.afterBar1 k /\
      LongOnly.freeOf (fst Examples.marketBuy) k ==
        LongOnly.freeOf Scenario.afterBar1 k
        + (if decide ((Scenario.split "XUSDT").1 = k)
           then Funds.assetDelta SideTypeBuy 50 else 0)
        + (if decide ((Scenario.split "XUSDT").2 = k)
           then Funds.quoteDelta SideTypeBuy 50
                  (cClose (candleAt (lastCandle Scenario.afterBar1) "XUSDT"))
           else 0).
Proof.
  apply (FundsFacts.market_order_trades_at_close Scenario.split Scenario.lot
           SideTypeBuy "XUSDT" 50 Scenario.afterBar1
           (fst Examples.marketBuy) Examples.marketBuyCreated).
  - repeat split; vm_compute; first [reflexivity | discriminate].
  - vm_compute. reflexivity.
Defined.

Lemma limit_order_fills_at_its_limit_witness :
  (exists o,
     Examples.limitBuyCreated = [o] /\ Status o = OrderStatusTypeNew /\
     orders Examples.limitBuyFilled
     = orders Scenario.afterBar1
       ++ [setStatus OrderStatusTypeFilled
             (setUpdatedAt (cTime (Scenario.bar 2 9)) o)]) /\
  forall k,
    LongOnly.lockOf Examples.limitBuyFilled k == LongOnly.lockOf Scenario.afterBar1 k /\
    LongOnly.freeOf Examples.limitBuyFilled k ==
      LongOnly.freeOf Scenario.afterBar1 k
      + (if decide ((Scenario.split "XUSDT").1 = k)
         then Funds.assetDelta SideTypeBuy 10 else 0)
      + (if decide ((Scenario.split "XUSDT").2 = k)
         then Funds.quoteDelta SideTypeBuy 10 9 else 0).
Proof.
  apply (FundsFacts.limit_order_fills_at_its_limit Scenario.split
           Scenario.lot SideTypeBuy "XUSDT" 10 9 Scenario.afterBar1
           (fst Examples.limitBuy) Examples.limitBuyCreated
           (Scenario.bar 2 9) Examples.limitBuyFilled).
  - repeat split; vm_compute; first [reflexivity | discriminate].
  - vm_compute. constructor.
  - vm_compute. reflexivity.
  - reflexivity.
  - vm_compute. reflexivity.
  - vm_compute. reflexivity.
Defined.

Lemma canceled_order_keeps_its_lock_witness :
  LongOnly.freeOf Examples.limitBuyCanceled "USDT"
  = LongOnly.freeOf (fst Examples.limitBuy) "USDT" /\
  LongOnly.lockOf Examples.limitBuyCanceled "USDT"
  = LongOnly.lockOf (fst Examples.limitBuy) "USDT".
Proof.
  refine (FundsFacts.canceled_order_keeps_its_lock Scenario.split
            Scenario.lot (nth 0 Examples.limitBuyCreated zeroOrder)
            (fst Examples.limitBuy)
            [Scenario.bar 2 9; Scenario.bar 3 8] Examples.limitBuyCanceled
            _ _ "USDT"%string).
  - vm_compute. repeat constructor.
  - vm_compute. reflexivity.
Defined.

Lemma NewPaperWallet_needs_base_coin_witness :
  match Engine.NewPaperWallet "USDT"
          [Engine.WithPaperAsset "USDT" 10000; Life.WithPaperFee 0 0] with
  | Some w =>
    (exists amount,
       In (Engine.WithPaperAsset "USDT" amount)
          [Engine.WithPaperAsset "USDT" 10000; Life.WithPaperFee 0 0] /\
       initialValue w = amount /\
       assets w !! "USDT"%string = Some (mkAsset amount 0)) /\
    fresh w /\ lastCandle w = ∅ /\ equityValues w = [] /\
    (forall k info, assets w !! k = Some info -> Lock info = 0) /\
    ((forall pair amount,
        In (Engine.WithPaperAsset pair amount)
           [Engine.WithPaperAsset "USDT" 10000; Life.WithPaperFee 0 0] ->
        0 <= amount) ->
     LongOnly.nonneg w)
  | None =>
    forall amount,
      ~ In (Engine.WithPaperAsset "USDT" amount)
           [Engine.WithPaperAsset "USDT" 10000; Life.WithPaperFee 0 0]
  end.
Proof.
  apply (SetupFacts.NewPaperWallet_needs_base_coin "USDT"
           [Engine.WithPaperAsset "USDT" 10000; Life.WithPaperFee 0 0]).
  repeat constructor.
Defined.

Lemma MaxDrawdown_largest_drop_witness :
  let '(dd, from, to) := Drawdown.MaxDrawdown Examples.history in
  exists i j,
    (i < j < length Examples.history)%nat /\
    from = avTime (nth i Examples.history zeroAV) /\
    to = avTime (nth j Examples.history zeroAV) /\
    dd == (avValue (nth j Examples.history zeroAV)
           - avValue (nth i Examples.history zeroAV))
          / avValue (nth i Examples.history zeroAV) /\
    forall i' j', (i' < j' < length Examples.history)%nat ->
      avValue (nth j Examples.history zeroAV)
      - avValue (nth i Examples.history zeroAV)
      <= avValue (nth j' Examples.history zeroAV)
         - avValue (nth i' Examples.history zeroAV).
Proof.
  apply (DropFacts.MaxDrawdown_largest_drop Examples.history).
  - simpl. lia.
  - vm_compute. reflexivity.
Defined.

Lemma updateDataFrame_writes_last_row_witness :
  exists df',
    StrategyCtl.updateDataFrame (Scenario.bar 3 11)
      (StrategyCtl.dataframe unit Scenario.seenBar2) = Some df' /\
    Dataframes.rows df'
    = (if decide (StrategyCtl.lastTime
                    (StrategyCtl.dataframe unit Scenario.seenBar2)
                  = Some (cTime (Scenario.bar 3 11)))
       then Dataframes.rows (StrategyCtl.dataframe unit Scenario.seenBar2)
       else S (Dataframes.rows (StrategyCtl.dataframe unit Scenario.seenBar2))) /\
    last (StrategyCtl.dfTime df') = Some (cTime (Scenario.bar 3 11)) /\
    last (StrategyCtl.dfClose df') = Some (cClose (Scenario.bar 3 11)) /\
    last (StrategyCtl.dfOpen df') = Some (cOpen (Scenario.bar 3 11)) /\
    last (StrategyCtl.dfHigh df') = Some (cHigh (Scenario.bar 3 11)) /\
    last (StrategyCtl.dfLow df') = Some (cLow (Scenario.bar 3 11)) /\
    last (StrategyCtl.dfVolume df') = Some (cVolume (Scenario.bar 3 11)) /\
    forall k v, cMetadata (Scenario.bar 3 11) !! k = Some v ->
      exists col, StrategyCtl.dfMetadata df' !! k = Some col /\
                  last col = Some v.
Proof.
  apply (DataframeFacts.updateDataFrame_writes_last_row ∅
           (Scenario.bar 3 11)
           (StrategyCtl.dataframe unit Scenario.seenBar2)).
  - unfold Dataframes.shaped, Dataframes.rows. simpl.
    split_and!; try reflexivity.
    + intros k Hk. apply elem_of_empty in Hk. contradiction.
    + repeat constructor.
  - apply dom_empty_L.
  - reflexivity.
Defined.

Lemma controller_keeps_dataframe_witness :
  (exists s',
     Dataframes.feed unit 0 (fun df => df) (fun df b => (df, b))
       (Some (fun df b => (df, b))) Examples.events
       (Dataframes.NewStrategyController unit "XUSDT" tt) = Some s' /\
     Dataframes.aligned ∅ (StrategyCtl.dataframe unit s')) /\
  (exists s',
     Dataframes.feed unit 0 (fun df => df) (fun df b => (df, b))
       (Some (fun df b => (df, b))) Examples.completeBars
       (Dataframes.NewStrategyController unit "XUSDT" tt) = Some s' /\
     StronglySorted Z.lt
       (StrategyCtl.dfTime (StrategyCtl.dataframe unit s'))).
Proof.
  assert (H1 : forall df : StrategyCtl.Dataframe, Dataframes.raw ∅ df df)
    by (intros df; unfold Dataframes.raw; split_and!; reflexivity).
  assert (H2 : forall (df : StrategyCtl.Dataframe) (b : unit),
             Dataframes.raw ∅ df (df, b).1) by (intros df b; apply H1).
  assert (H3 : forall strategyOnPartial (df : StrategyCtl.Dataframe) (b : unit),
             Some (fun df b => (df, b)) = Some strategyOnPartial ->
             Dataframes.raw ∅ df (strategyOnPartial df b).1)
    by (intros f df b [= <-]; apply H1).
  split.
  - destruct (DataframeFacts.controller_keeps_dataframe unit 0%nat
                (fun df => df) (fun df b => (df, b))
                (Some (fun df b => (df, b))) ∅ H1 H2 H3 "XUSDT" tt
                Examples.events) as (s' & E & A & _);
      [repeat constructor; apply dom_empty_L|].
    exists s'. split; [exact E | exact A].
  - destruct (DataframeFacts.controller_keeps_dataframe unit 0%nat
                (fun df => df) (fun df b => (df, b))
                (Some (fun df b => (df, b))) ∅ H1 H2 H3 "XUSDT" tt
                Examples.completeBars) as (s' & E & _ & S);
      [repeat constructor; apply dom_empty_L|].
    exists s'. split; [exact E|]. apply S. right. repeat constructor.
Defined.

End Instances.
